(** * Fluorescence-quenching notebooks: a shallow embedding

    The notebooks load five photon-count decay curves, truncate them at the
    intensity peak, store them in one dataframe and fit them with
    [scipy.optimize.least_squares].  The repository's own code is the glue:
    the truncation expressions, the two [residuals] functions, [decay],
    [exp_decay], [error_analysis] and the cell sequence.  Everything numeric
    is a NumPy [float64]; the development is parametric in the carrier and
    its operations and is instantiated with binary64 floats, on which the
    code runs on concrete data, and with the real numbers, which have the
    exponential.  Beside the fit, the development covers the key that
    [encrypt] and [decrypt] derive from a password, and [DataFrame.drop] as
    the pandas lecture uses it. *)

From Stdlib Require Import Floats.
From Stdlib Require Import String Ascii.
From Stdlib Require Import Reals Lra.
From Stdlib Require Import ZArith Arith Bool List Lia.
Import ListNotations.

Set Warnings "-inexact-float".

(** ** Python exceptions and the result monad *)

Inductive exn : Type :=
| ValueError
| IndexError
| KeyError
| TypeError.

Inductive result (A : Type) : Type :=
| Ok (a : A)
| Err (e : exn).

Arguments Ok {A} a.
Arguments Err {A} e.

Definition bind {A B} (m : result A) (k : A -> result B) : result B :=
  match m with
  | Ok a => k a
  | Err e => Err e
  end.

Declare Scope result_scope.
Delimit Scope result_scope with result.
Notation "x <- m ;; k" := (bind m (fun x => k))
  (at level 61, m at next level, right associativity) : result_scope.
Notation "' p <- m ;; k" := (bind m (fun x => let p := x in k))
  (at level 61, p pattern, m at next level, right associativity) : result_scope.
Local Open Scope result_scope.

Definition is_ok {A} (m : result A) : bool :=
  match m with Ok _ => true | Err _ => false end.

(** ** The numeric carrier *)

(** Arithmetic and comparisons of a NumPy scalar type.  [of_Z] is the
    conversion of a Python [int]; [eps] is [np.finfo(float).eps]. *)
Class NumOps (T : Type) : Type := {
  of_Z : Z -> T;
  eps : T;
  add : T -> T -> T;
  sub : T -> T -> T;
  mul : T -> T -> T;
  div : T -> T -> T;
  neg : T -> T;
  np_sqrt : T -> T;
  ltb : T -> T -> bool;
  leb : T -> T -> bool;
  eqb : T -> T -> bool
}.

(** [np.exp], [np.expm1] and [np.pi]. *)
Class Transcendental (T : Type) : Type := {
  np_exp : T -> T;
  np_expm1 : T -> T;
  np_pi : T
}.

(** [x > y] is [y < x]. *)
Definition gtb {T} `{NumOps T} (x y : T) : bool := ltb y x.

(** [np.isnan]: the only value that differs from itself. *)
Definition isnan {T} `{NumOps T} (x : T) : bool := negb (eqb x x).

(** A value that is not NaN. *)
Definition number {T} `{NumOps T} (x : T) : Prop := eqb x x = true.

(** The laws of the comparisons: [<] is a strict order, and on values that
    are not NaN it is a strict weak order from which [<=] and [==] derive. *)
Class OrderLaws (T : Type) `{NumOps T} : Prop := {
  ltb_irrefl : forall x, ltb x x = false;
  ltb_trans : forall x y z, ltb x y = true -> ltb y z = true -> ltb x z = true;
  ltb_negtrans : forall x y z, number x -> number y -> number z ->
      ltb x y = false -> ltb y z = false -> ltb x z = false;
  leb_ltb : forall x y, number x -> number y -> leb x y = negb (ltb y x);
  eqb_ltb : forall x y, number x -> number y ->
      eqb x y = negb (ltb x y) && negb (ltb y x)
}.

(** A decimal literal [n/d]: division is correctly rounded, so on binary64
    [lit 4 100] is the literal [0.04]. *)
Definition lit {T} `{NumOps T} (n d : Z) : T := div (of_Z n) (of_Z d).

(** *** Instances *)

(** IEEE 754 binary64, the carrier the notebooks run on. *)
#[export] Instance float_ops : NumOps float := {
  of_Z := fun z => match z with
                   | Z0 => PrimFloat.zero
                   | Zpos _ => PrimFloat.of_uint63 (Uint63.of_Z z)
                   | Zneg _ => PrimFloat.opp (PrimFloat.of_uint63 (Uint63.of_Z (Z.opp z)))
                   end;
  eps := 0x1p-52%float;
  add := PrimFloat.add;
  sub := PrimFloat.sub;
  mul := PrimFloat.mul;
  div := PrimFloat.div;
  neg := PrimFloat.opp;
  np_sqrt := PrimFloat.sqrt;
  ltb := PrimFloat.ltb;
  leb := PrimFloat.leb;
  eqb := PrimFloat.eqb
}.

(** Real numbers: exact arithmetic with the exponential. *)
#[export] Instance R_ops : NumOps R := {
  of_Z := IZR;
  eps := 0%R;
  add := Rplus;
  sub := Rminus;
  mul := Rmult;
  div := Rdiv;
  neg := Ropp;
  np_sqrt := R_sqrt.sqrt;
  ltb := fun x y => if Rlt_dec x y then true else false;
  leb := fun x y => if Rle_dec x y then true else false;
  eqb := fun x y => if Req_dec_T x y then true else false
}.

#[export] Instance R_transcendental : Transcendental R := {
  np_exp := Rtrigo_def.exp;
  np_expm1 := fun x => (Rtrigo_def.exp x - 1)%R;
  np_pi := PI
}.

(** ** Sequences and one-dimensional arrays *)

(** [l[i]] for a non-negative [i]: out of range raises [IndexError]. *)
Definition index {A} (l : list A) (i : nat) : result A :=
  match nth_error l i with
  | Some a => Ok a
  | None => Err IndexError
  end.

Fixpoint zip_with {A B C} (f : A -> B -> C) (a : list A) (b : list B) : list C :=
  match a, b with
  | x :: a', y :: b' => f x y :: zip_with f a' b'
  | _, _ => []
  end.

(** An elementwise binary operation on two 1-D arrays under NumPy's
    broadcasting rule: equal lengths pair up, a length-one operand is
    stretched, anything else raises [ValueError]. *)
Definition broadcast2 {A B C} (f : A -> B -> C) (a : list A) (b : list B)
  : result (list C) :=
  if Nat.eqb (length a) (length b) then Ok (zip_with f a b)
  else match a, b with
       | [x], _ => Ok (map (f x) b)
       | _, [y] => Ok (map (fun x => f x y) a)
       | _, _ => Err ValueError
       end.

(** Run [f] on each element in order, stopping at the first exception. *)
Fixpoint mapM {A B} (f : A -> result B) (l : list A) : result (list B) :=
  match l with
  | [] => Ok []
  | a :: l' => b <- f a ;; bs <- mapM f l' ;; Ok (b :: bs)
  end.

(** ** The single-curve fit *)

Module SingleFit.
Section Defs.
Context {T : Type} `{NumOps T} `{Transcendental T}.

(** The model function at one abscissa: [param[0] * exp(-x / param[1])]. *)
Definition exp_decay1 (p0 p1 xi : T) : T :=
  mul p0 (np_exp (div (neg xi) p1)).

(** [def exp_decay(x, param): return param[0] * np.exp( - x / param[1] )] *)
Definition exp_decay (x : list T) (param : list T) : result (list T) :=
  p0 <- index param 0 ;;
  p1 <- index param 1 ;;
  Ok (map (exp_decay1 p0 p1) x).

(** [def residuals(param, *args):
       return ( args[1] - exp_decay(args[0], param) ) / args[2]] *)
Definition residuals (param : list T) (args : list (list T)) : result (list T) :=
  y <- index args 1 ;;
  x <- index args 0 ;;
  f <- exp_decay x param ;;
  num <- broadcast2 sub y f ;;
  yerr <- index args 2 ;;
  broadcast2 div num yerr.

(** The residual vector as the glossary's RSS would have it:
    [y - exp_decay(x, param)], without weights. *)
Definition unweighted_residuals (param x y : list T) : result (list T) :=
  f <- exp_decay x param ;;
  broadcast2 sub y f.

(** The weighted residuals written point by point:
    [(y_i - f(x_i, param)) / yerr_i]. *)
Fixpoint weighted_pointwise (p0 p1 : T) (x y yerr : list T) : list T :=
  match x, y, yerr with
  | xi :: x', yi :: y', ei :: e' =>
      div (sub yi (exp_decay1 p0 p1 xi)) ei :: weighted_pointwise p0 p1 x' y' e'
  | _, _, _ => []
  end.

(** The weighted residual sum of squares, accumulated from [acc]:
    the sum over the data points of [((y_i - f(x_i, param)) / yerr_i)^2]. *)
Fixpoint weighted_RSS_from (acc p0 p1 : T) (x y yerr : list T) : T :=
  match x, y, yerr with
  | xi :: x', yi :: y', ei :: e' =>
      let r := div (sub yi (exp_decay1 p0 p1 xi)) ei in
      weighted_RSS_from (add acc (mul r r)) p0 p1 x' y' e'
  | _, _, _ => acc
  end.

Definition weighted_RSS : T -> T -> list T -> list T -> list T -> T :=
  weighted_RSS_from (of_Z 0).
End Defs.
End SingleFit.

(** The sum of squares of a residual vector: [least_squares] minimises
    half of it and reports that half as [cost]. *)
Definition sum_sq {T} `{NumOps T} (r : list T) : T :=
  fold_left (fun acc ri => add acc (mul ri ri)) r (of_Z 0).

(** ** The global fit *)

Module GlobalFit.
Section Defs.
Context {T : Type} `{NumOps T} `{Transcendental T}.

(** [param0 = [3000, 160, 0.04, 0] + [0.5]*4] *)
Definition param0 : list T :=
  [of_Z 3000; of_Z 160; lit 4 100; of_Z 0] ++ repeat (lit 5 10) 4.

(** [def decay(x, param):
       return param[0]*np.exp( - x/param[1] + param[3]*np.expm1(-param[2]*x) )]
    at one abscissa; [param] is the 4-tuple built by the caller. *)
Definition decay1 (param : T * T * T * T) (xi : T) : T :=
  let '(p0, p1, p2, p3) := param in
  mul p0 (np_exp (add (div (neg xi) p1) (mul p3 (np_expm1 (mul (neg p2) xi))))).

Definition decay (x : list T) (param : T * T * T * T) : list T :=
  map (decay1 param) x.

(** The body of the [for i,m in enumerate(p[3:])] loop, iterated over the
    remaining [(i, m)] pairs; [acc] is the array [residuals]. *)
Fixpoint residuals_loop (p : list T) (args : list (list (list T)))
         (i : nat) (ms : list T) (acc : list T) : result (list T) :=
  match ms with
  | [] => Ok acc
  | m :: ms' =>
      p0 <- index p 0 ;;
      p1 <- index p 1 ;;
      p2 <- index p 2 ;;
      ally <- index args 1 ;;
      y <- index ally i ;;
      allx <- index args 0 ;;
      x <- index allx i ;;
      num <- broadcast2 sub y (decay x (p0, p1, p2, m)) ;;
      allyerr <- index args 2 ;;
      yerr <- index allyerr i ;;
      r <- broadcast2 div num yerr ;;
      residuals_loop p args (S i) ms' (acc ++ r)
  end.

(** [def residuals(p, *args)]: starts from [np.empty(0)] and appends the
    residuals of each curve. *)
Definition residuals (p : list T) (args : list (list (list T))) : result (list T) :=
  residuals_loop p args 0 (skipn 3 p) [].

(** The weighted residual vector of curve [i] as the claim writes it:
    [(ally[i] - decay(allx[i], (p[0], p[1], p[2], p[3+i]))) / allyerr[i]]. *)
Definition curve_residuals (p : list T) (allx ally allyerr : list (list T))
           (i : nat) : result (list T) :=
  p0 <- index p 0 ;;
  p1 <- index p 1 ;;
  p2 <- index p 2 ;;
  m <- index p (3 + i) ;;
  y <- index ally i ;;
  x <- index allx i ;;
  num <- broadcast2 sub y (decay x (p0, p1, p2, m)) ;;
  yerr <- index allyerr i ;;
  broadcast2 div num yerr.

(** The same vector written point by point. *)
Fixpoint pointwise_residuals (param : T * T * T * T) (x y yerr : list T) : list T :=
  match x, y, yerr with
  | xi :: x', yi :: y', ei :: e' =>
      div (sub yi (decay1 param xi)) ei :: pointwise_residuals param x' y' e'
  | _, _, _ => []
  end.
End Defs.
End GlobalFit.

(** ** Loading and truncating a decay curve *)

Module Truncation.
Section Defs.
Context {T : Type} `{NumOps T}.

(** One data line of a file: (time, photon count). *)
Definition row : Type := (T * T)%type.

(** [np.maximum(a, b)], which propagates NaN. *)
Definition maximum (a b : T) : T :=
  if leb b a || isnan a then a else b.

(** [a.max()]: a left-to-right reduction; an empty array raises
    [ValueError]. *)
Definition np_max (a : list T) : result T :=
  match a with
  | [] => Err ValueError
  | x :: a' => Ok (fold_left maximum a' x)
  end.

(** [np.minimum(a, b)] and [a.min()]. *)
Definition minimum (a b : T) : T :=
  if leb a b || isnan a then a else b.

Definition np_min (a : list T) : result T :=
  match a with
  | [] => Err ValueError
  | x :: a' => Ok (fold_left minimum a' x)
  end.

(** The scan of [a.argmax()]: [mp] is the running maximum, [best] its
    index and [i] the index of the head of [a].  A NaN ends the scan. *)
Fixpoint argmax_scan (mp : T) (best i : nat) (a : list T) : nat :=
  match a with
  | [] => best
  | x :: a' =>
      if negb (leb x mp)
      then (if isnan x then i else argmax_scan x i (S i) a')
      else argmax_scan mp best (S i) a'
  end.

(** [a.argmax()]: the index of the first maximum; an empty array raises
    [ValueError]. *)
Definition argmax (a : list T) : result nat :=
  match a with
  | [] => Err ValueError
  | x :: a' => Ok (if isnan x then 0 else argmax_scan x 0 1 a')
  end.

(** [a[mask]] with a boolean array: the lengths must agree. *)
Definition boolean_index {A} (a : list A) (mask : list bool) : result (list A) :=
  if Nat.eqb (length mask) (length a)
  then Ok (map fst (filter snd (combine a mask)))
  else Err IndexError.

(** [d = np.loadtxt(..., unpack=False, skiprows=9)] on the data lines
    [rows]: [loadtxt] squeezes its result, so with fewer than two lines
    [d] is not two-dimensional and [d[:,0]] raises [IndexError]. *)
Definition loadtxt_2d (rows : list row) : result (list row) :=
  if Nat.ltb (length rows) 2 then Err IndexError else Ok rows.

(** [t,F = np.loadtxt(..., unpack=True, skiprows=9)]: no line gives
    nothing to unpack ([ValueError]); one line gives two scalars, which
    the slice [t[F.argmax():]] rejects ([IndexError]). *)
Definition loadtxt_unpack (rows : list row) : result (list T * list T) :=
  match rows with
  | [] => Err ValueError
  | [_] => Err IndexError
  | _ => Ok (map fst rows, map snd rows)
  end.

(** [t,F = np.loadtxt(..., unpack=True, skiprows=9)] where [t] and [F] are
    only passed on to plotting, which takes scalars as well as arrays. *)
Definition loadtxt_columns (rows : list row) : result (list T * list T) :=
  match rows with
  | [] => Err ValueError
  | _ => Ok (map fst rows, map snd rows)
  end.

(** The boolean-mask truncation of the second plotting cell:
    [d = d[ d[:,0] > d[d[:,1]==d[:,1].max(), 0] ]]. *)
Definition mask_truncate (rows : list row) : result (list row) :=
  d <- loadtxt_2d rows ;;
  let times := map fst d in
  m <- np_max (map snd d) ;;
  let peak_times := map fst (filter (fun r => eqb (snd r) m) d) in
  mask <- broadcast2 gtb times peak_times ;;
  boolean_index d mask.

(** The argmax-slice truncation of the cell that builds the dataframe:
    [t = t[F.argmax():]; F = F[F.argmax():]]. *)
Definition slice_truncate (rows : list row) : result (list T * list T) :=
  ' (t, F) <- loadtxt_unpack rows ;;
  k <- argmax F ;;
  let t := skipn k t in
  k' <- argmax F ;;
  let F := skipn k' F in
  Ok (t, F).

(** The rows a pair of columns stands for. *)
Definition rows_of (tF : list T * list T) : list row :=
  combine (fst tF) (snd tF).

(** Times in strictly increasing order. *)
Fixpoint increasing (l : list T) : bool :=
  match l with
  | a :: (b :: _) as l' => ltb a b && increasing l'
  | _ => true
  end.

(** No NaN among the values. *)
Definition all_numbers (l : list T) : bool := forallb (fun x => eqb x x) l.

(** The maximum count is attained by exactly one row. *)
Definition single_peak (F : list T) : bool :=
  match np_max F with
  | Ok m => Nat.eqb (length (filter (fun c => eqb c m) F)) 1
  | Err _ => false
  end.

(** [m] is a maximum of [a], first attained at index [k]. *)
Definition first_max (a : list T) (k : nat) (m : T) : Prop :=
  nth_error a k = Some m /\
  (forall j x, nth_error a j = Some x -> ltb m x = false) /\
  (forall j x, j < k -> nth_error a j = Some x -> ltb x m = true).
End Defs.

(** A three-point curve whose maximum is at the second point, and a
    four-point one whose maximum is at the third. *)
Definition peak_example : list (float * float) :=
  [(0.0, 1.0); (0.1, 5.0); (0.2, 3.0)]%float.

Definition peak_example4 : list (float * float) :=
  [(0.0, 2.0); (0.5, 4.0); (1.0, 9.0); (1.5, 6.0)]%float.
End Truncation.

(** ** The uncertainty of the best-fit parameters *)

Module ErrorAnalysis.
Section Defs.
Context {T : Type} `{NumOps T}.

(** A two-dimensional array, by rows. *)
Definition matrix : Type := list (list T).

(** The fields of [OptimizeResult] that the notebook reads. *)
Record OptimizeResult : Type := {
  res_x : list T;
  res_cost : T;
  res_fun : list T;
  res_jac : matrix;
  res_success : bool
}.

(** [scipy.linalg.svd(a, full_matrices=False)]: returns [(U, s, VT)]; its
    contract ([s] in non-increasing order, one row of [VT] per singular
    value, all rows of [VT] of one length) is a hypothesis of the theorems. *)
Definition svd_fn : Type := matrix -> result (matrix * list T * matrix).

(** [a.shape] of a 2-D array. *)
Definition shape (a : matrix) : nat * nat := (length a, length (hd [] a)).

(** [np.dot(x, y)] of two vectors: the sum of the products. *)
Definition dot (x y : list T) : T :=
  fold_left add (zip_with mul x y) (of_Z 0).

(** Column [a] of a matrix. *)
Definition column (a : nat) (m : matrix) : list T :=
  map (fun r => nth a r (of_Z 0)) m.

(** [VT.T / s**2]: column [j] of [VT.T], which is row [j] of [VT], divided
    by [s[j]**2]; returned by rows of [VT]. *)
Definition scale_rows (VT : matrix) (s : list T) : matrix :=
  zip_with (fun v sj => map (fun vi => div vi (mul sj sj)) v) VT s.

(** [np.dot(VT.T / s**2, VT) * s_sq] for [VT] with [n] columns. *)
Definition pcov_of (n : nat) (VT : matrix) (s : list T) (s_sq : T) : matrix :=
  map (fun a =>
         map (fun b => mul (dot (column a (scale_rows VT s)) (column b VT)) s_sq)
             (seq 0 n))
      (seq 0 n).

(** [np.diag(m)] of a square matrix. *)
Definition diag (m : matrix) : list T :=
  map (fun a => nth a (nth a m []) (of_Z 0)) (seq 0 (length m)).

(** [rss / (res.fun.size - res.x.size)] with [rss = 2 * res.cost]. *)
Definition residual_variance (res : OptimizeResult) : T :=
  let rss := mul (of_Z 2) (res_cost res) in
  div rss (of_Z (Z.of_nat (length (res_fun res)) - Z.of_nat (length (res_x res)))).

(** [threshold = np.finfo(float).eps * max(res.jac.shape) * s[0]] *)
Definition threshold_of (jac : matrix) (s0 : T) : T :=
  let '(m, n) := shape jac in
  mul (mul eps (of_Z (Z.of_nat (Nat.max m n)))) s0.

(** [def error_analysis(res)] *)
Definition error_analysis (svd : svd_fn) (res : OptimizeResult)
  : result (list T * T) :=
  let s_sq := residual_variance res in
  ' (_, s, VT) <- svd (res_jac res) ;;
  s0 <- index s 0 ;;
  let threshold := threshold_of (res_jac res) s0 in
  let n := length (hd [] VT) in
  let s := filter (fun si => gtb si threshold) s in
  let VT := firstn (length s) VT in
  if Nat.eqb (length VT) (length s)
  then let pcov := pcov_of n VT s s_sq in
       Ok (map np_sqrt (diag pcov), s_sq)
  else Err ValueError.

(** The pseudo-inverse of [J^T J] from the decomposition [J = U S VT],
    entry [(a, b)]: the sum of [VT[j][a] / s[j]^2 * VT[j][b]] over the
    singular values [s[j]] that exceed the threshold. *)
Definition pinv_gram_entry (VT : matrix) (s : list T) (threshold : T)
           (a b : nat) : T :=
  let kept := filter (fun vs => gtb (snd vs) threshold) (combine VT s) in
  fold_left add
    (map (fun vs => mul (div (nth a (fst vs) (of_Z 0)) (mul (snd vs) (snd vs)))
                        (nth b (fst vs) (of_Z 0)))
         kept)
    (of_Z 0).

(** The standard errors as the claim words them: the square roots of the
    diagonal of the pseudo-inverse scaled by the residual variance. *)
Definition standard_errors (VT : matrix) (s : list T) (threshold s_sq : T)
  : list T :=
  map (fun a => np_sqrt (mul (pinv_gram_entry VT s threshold a a) s_sq))
      (seq 0 (length (hd [] VT))).

(** Singular values in non-increasing order. *)
Fixpoint non_increasing (s : list T) : bool :=
  match s with
  | a :: (b :: _) as s' => negb (ltb a b) && non_increasing s'
  | _ => true
  end.
End Defs.

Arguments OptimizeResult T : clear implicits.
Arguments matrix T : clear implicits.
Arguments svd_fn T : clear implicits.
End ErrorAnalysis.

(** ** The notebook cells as programs *)

Module Notebook.
Import Truncation ErrorAnalysis.
Section Defs.
Context {T : Type} `{NumOps T} `{Transcendental T}.

(** One row of the combined dataframe: the index [conc] and the columns
    ['t', 'F', 'errF']. *)
Record frame_row : Type := {
  row_conc : T;
  row_t : T;
  row_F : T;
  row_errF : T
}.

Definition dataframe : Type := list frame_row.

(** The object [data.loc[label]]: the row as a Series when the label
    occurs once in the index, the rows as a DataFrame when it occurs
    several times. *)
Inductive selected : Type :=
| Series (r : frame_row)
| Frame (block : dataframe).

(** What [print] and the display hooks receive. *)
Inductive value : Type :=
| VStr (s : string)
| VBool (b : bool)
| VNum (v : T)
| VArr (a : list T)
| VFrame (d : dataframe).

(** The library calls with an effect or an external answer.  [LoadTxt conc]
    is [np.loadtxt('data/fluorescence/quencher_{:1.1f}.txt'.format(conc),
    skiprows=9)] and answers with the data lines of the file. *)
Inductive call : Type -> Type :=
| LoadTxt (conc : T) : call (list (T * T))
| Errorbar (x y yerr : list T) (label : option T) : call unit
| Plot (x y : list T) (label : option T) : call unit
| FillBetween (x lower upper : list T) : call unit
| Hist (data : list T) (first last : T) : call unit
| Decorate (what : string) : call unit
| ToPickle (data : dataframe) (path : string) : call unit
| ToCsv (data : dataframe) (path : string) : call unit
| Display (items : list value) : call unit
| Print (items : list value) : call unit
| LeastSquares (fn : list T -> result (list T)) (x0 lower upper : list T)
    : call (OptimizeResult T).

(** A cell: it returns, stops on an exception, or makes a library call and
    goes on with the answer. *)
Inductive prog (A : Type) : Type :=
| Ret (a : A)
| Raise (e : exn)
| Do {X : Type} (c : call X) (k : X -> prog A).

Arguments Ret {A} a.
Arguments Raise {A} e.
Arguments Do {A X} c k.

Fixpoint pbind {A B} (p : prog A) (f : A -> prog B) : prog B :=
  match p with
  | Ret a => f a
  | Raise e => Raise e
  | Do c k => Do c (fun x => pbind (k x) f)
  end.

Definition lift {A} (r : result A) : prog A :=
  match r with
  | Ok a => Ret a
  | Err e => Raise e
  end.

Definition perform {X} (c : call X) : prog X := Do c Ret.

(** [for a in l: state = body(a, state)] *)
Fixpoint for_each {A S} (l : list A) (body : A -> S -> prog S) (s : S) : prog S :=
  match l with
  | [] => Ret s
  | a :: l' => pbind (body a s) (for_each l' body)
  end.

(** The environment: the answer of every library call, or the exception
    it raises. *)
Definition handler : Type := forall X, call X -> result X.

(** A call that was made, with its answer. *)
Inductive event : Type :=
| Ev {X : Type} (c : call X) (answer : result X).

(** Running a cell in an environment: the calls made, in order, and the
    outcome. *)
Fixpoint run {A} (h : handler) (p : prog A) : list event * result A :=
  match p with
  | Ret a => ([], Ok a)
  | Raise e => ([], Err e)
  | Do c k =>
      match h _ c with
      | Ok x => let (tr, out) := run h (k x) in (Ev c (Ok x) :: tr, out)
      | Err e => ([Ev c (Err e)], Err e)
      end
  end.

(** The files a trace writes, with what it writes to them. *)
Inductive file_format : Type := Pickle | Csv.

Definition write_of (e : event) : option (file_format * string * dataframe) :=
  match e with
  | Ev (ToPickle data path) _ => Some (Pickle, path, data)
  | Ev (ToCsv data path) _ => Some (Csv, path, data)
  | Ev _ _ => None
  end.

Fixpoint writes (tr : list event) : list (file_format * string * dataframe) :=
  match tr with
  | [] => []
  | e :: tr' =>
      match write_of e with
      | Some w => w :: writes tr'
      | None => writes tr'
      end
  end.

(** The calls that write a file, that run the optimizer, that read a
    data file. *)
Definition writes_file {X} (c : call X) : bool :=
  match c with
  | ToPickle _ _ | ToCsv _ _ => true
  | _ => false
  end.

Definition calls_optimizer {X} (c : call X) : bool :=
  match c with
  | LeastSquares _ _ _ _ => true
  | _ => false
  end.

Definition loads_file {X} (c : call X) : bool :=
  match c with
  | LoadTxt _ => true
  | _ => false
  end.

Definition is_load (e : event) : bool :=
  match e with Ev c _ => loads_file c end.

(** How many calls of a trace satisfy [test]. *)
Definition count_calls (test : forall X, call X -> bool) (tr : list event) : nat :=
  length (filter (fun e => match e with Ev c _ => test _ c end) tr).

(** A cell none of whose calls satisfies [test], whatever the answers. *)
Inductive never (test : forall X, call X -> bool) {A} : prog A -> Prop :=
| never_ret (a : A) : never test (Ret a)
| never_raise (e : exn) : never test (Raise e)
| never_do {X} (c : call X) (k : X -> prog A) :
    test X c = false -> (forall x, never test (k x)) -> never test (Do c k).

(** The result with its [success] flag replaced, and the environment whose
    optimizer reports [success = b] and is otherwise [h]. *)
Definition set_success (b : bool) (res : OptimizeResult T) : OptimizeResult T :=
  {| res_x := res_x res; res_cost := res_cost res; res_fun := res_fun res;
     res_jac := res_jac res; res_success := b |}.

Definition force_success (b : bool) (h : handler) : handler :=
  fun X c =>
    match c in call X return result X -> result X with
    | LeastSquares _ _ _ _ =>
        fun answer => match answer with
                      | Ok res => Ok (set_success b res)
                      | Err e => Err e
                      end
    | _ => fun answer => answer
    end (h X c).

(** The calls of a trace, without their answers. *)
Definition call_of (e : event) : {X : Type & call X} :=
  match e with Ev c _ => existT _ _ c end.
End Defs.

Arguments Ret {T A} a.
Arguments Raise {T A} e.
Arguments Do {T A X} c k.
Arguments frame_row T : clear implicits.
Arguments dataframe T : clear implicits.
Arguments selected T : clear implicits.
Arguments value T : clear implicits.
Arguments call T : clear implicits.
Arguments prog T : clear implicits.
Arguments handler T : clear implicits.
Arguments event T : clear implicits.

Declare Scope prog_scope.
Delimit Scope prog_scope with prog.
Notation "x <~ m ;; k" := (pbind m (fun x => k))
  (at level 61, m at next level, right associativity) : prog_scope.
Notation "' p <~ m ;; k" := (pbind m (fun x => let p := x in k))
  (at level 61, p pattern, m at next level, right associativity) : prog_scope.
Notation "m ;;; k" := (pbind m (fun _ => k))
  (at level 61, right associativity) : prog_scope.

Section Cells.
Context {T : Type} `{NumOps T} `{Transcendental T}.
Variable svd : svd_fn T.
Local Open Scope prog_scope.

(** [concs = [0.0,0.2,0.5,1.0,1.5]] *)
Definition concs : list T :=
  [lit 0 10; lit 2 10; lit 5 10; lit 10 10; lit 15 10].

Definition decorate (what : list string) : prog T unit :=
  for_each what (fun w _ => perform (Decorate w)) tt.

(** The first plotting cell: the five raw curves with their error bars. *)
Definition plot_raw_cell : prog T unit :=
  for_each concs (fun conc _ =>
    rows <~ perform (LoadTxt conc) ;;
    ' (t, F) <~ lift (loadtxt_columns rows) ;;
    perform (Errorbar t F (map np_sqrt F) (Some conc))) tt ;;;
  decorate ["legend"; "ylabel"; "xlabel"]%string.

(** The second plotting cell: boolean-mask truncation, times shifted by
    [d[0,0]]. *)
Definition plot_masked_cell : prog T unit :=
  for_each concs (fun conc _ =>
    rows <~ perform (LoadTxt conc) ;;
    d <~ lift (mask_truncate rows) ;;
    d00 <~ lift (index (map fst d) 0) ;;
    perform (Errorbar (map (fun ti => sub ti d00) (map fst d)) (map snd d)
                      (map np_sqrt (map snd d)) (Some conc))) tt ;;;
  decorate ["legend"; "ylabel"; "xlabel"; "show"]%string.

(** [np.c_[t, F, errF]]: three columns of one length side by side. *)
Definition c_ (t F errF : list T) : result (list (T * T * T)) :=
  if Nat.eqb (length F) (length t) && Nat.eqb (length errF) (length t)
  then Ok (combine (combine t F) errF)
  else Err ValueError.

(** The body of the loop that builds the dataframe, after the load:
    truncate at the peak, shift the times by [t[0]], add the [errF] column
    and index the rows by [conc]. *)
Definition curve_frame (conc : T) (rows : list (T * T)) : result (dataframe T) :=
  ' (t, F) <- slice_truncate rows ;;
  t0 <- index t 0 ;;
  let t := map (fun ti => sub ti t0) t in
  cols <- c_ t F (map np_sqrt F) ;;
  Ok (map (fun c => {| row_conc := conc; row_t := fst (fst c);
                       row_F := snd (fst c); row_errF := snd c |}) cols).

(** The dataframe row made of a data line, for the curve of concentration
    [conc] whose first kept time is [t0]. *)
Definition frame_of (conc t0 : T) (r : T * T) : frame_row T :=
  {| row_conc := conc; row_t := sub (fst r) t0;
     row_F := snd r; row_errF := np_sqrt (snd r) |}.

(** One turn of the loop that builds the dataframe:
    [data = data.append(d)]. *)
Definition build_body (conc : T) (data : dataframe T) : prog T (dataframe T) :=
  rows <~ perform (LoadTxt conc) ;;
  d <~ lift (curve_frame conc rows) ;;
  Ret (data ++ d).

(** The cell that builds the combined dataframe and saves it. *)
Definition build_cell : prog T (dataframe T) :=
  data <~ for_each concs build_body [] ;;
  perform (ToPickle data "data/fluorescence.p") ;;;
  perform (ToCsv data "data/fluorescence.csv") ;;;
  perform (Display [VFrame (firstn 5 data)]) ;;;
  Ret data.

(** [data.loc[label]] on the combined dataframe, whose index repeats: the
    rows indexed by [label], in order.  A single row comes back as a
    Series, several as a DataFrame, none raises [KeyError]. *)
Definition data_loc (data : dataframe T) (label : T) : result (selected T) :=
  match filter (fun r => eqb (row_conc r) label) data with
  | [] => Err KeyError
  | [r] => Ok (Series r)
  | block => Ok (Frame block)
  end.

(** The rows that a selection holds. *)
Definition rows_of (sel : selected T) : dataframe T :=
  match sel with
  | Series r => [r]
  | Frame block => block
  end.

(** The rows of [data.loc[label]].  The fits do elementwise arithmetic on
    the columns of a selection and [np.append] the outcome, which take the
    scalar of a Series as an array of one element: so they are modelled on
    the rows, a Series counting as its one row. *)
Definition loc (data : dataframe T) (label : T) : result (dataframe T) :=
  sel <- data_loc data label ;;
  Ok (rows_of sel).

Definition columns : list (frame_row T -> T) := [row_t; row_F; row_errF].

(** [args = [data.loc[0.0][col] for col in ['t','F','errF']]], each entry in
    its one-dimensional form. *)
Definition single_args (data : dataframe T) : result (list (list T)) :=
  mapM (fun col => block <- loc data (lit 0 10) ;; Ok (map col block)) columns.

(** The plots that follow the fit in its cell: the data and the fitted
    curve [exp_decay(args[0], res['x'])]. *)
Definition plot_fit (args : list (list T)) (res : OptimizeResult T) : prog T unit :=
  x <~ lift (index args 0) ;;
  y <~ lift (index args 1) ;;
  yerr <~ lift (index args 2) ;;
  perform (Errorbar x y yerr None) ;;;
  fit <~ lift (SingleFit.exp_decay x (res_x res)) ;;
  perform (Plot x fit None) ;;;
  decorate ["yscale"; "ylabel"; "xlabel"]%string.

(** The cell that fits the first curve and plots the fit. *)
Definition fit_cell (data : dataframe T) : prog T (list (list T) * OptimizeResult T) :=
  args <~ lift (single_args data) ;;
  res <~ perform (LeastSquares (fun param => SingleFit.residuals param args)
                    [of_Z 3000; of_Z 150] [of_Z 6; of_Z 150] [of_Z 3500; of_Z 200]) ;;
  plot_fit args res ;;;
  Ret (args, res).

(** [print('Is one of the convergence criteria satisfied?', res.success)] *)
Definition success_cell (res : OptimizeResult T) : prog T unit :=
  perform (Print [VStr "Is one of the convergence criteria satisfied?";
                  VBool (res_success res)]).

(** [print('The best-fit parameters are',res.x[0],'and',res.x[1])] *)
Definition parameters_cell (res : OptimizeResult T) : prog T unit :=
  x0 <~ lift (index (res_x res) 0) ;;
  x1 <~ lift (index (res_x res) 1) ;;
  perform (Print [VStr "The best-fit parameters are"; VNum x0; VStr "and"; VNum x1]).

(** [display.Markdown(table % tuple(values))] for a table with [slots]
    conversion specifiers. *)
Definition markdown_table (slots : nat) (values : list T) : prog T unit :=
  if Nat.eqb (length values) slots
  then perform (Display [VStr "table"; VArr values])
  else Raise TypeError.

Definition table_cell (res : OptimizeResult T) : prog T unit :=
  markdown_table 2 (res_x res).

(** [print('The residual variance is', 2 * res.cost / (res.fun.size - res.x.size))] *)
Definition variance_cell (res : OptimizeResult T) : prog T unit :=
  perform (Print [VStr "The residual variance is"; VNum (residual_variance res)]).

(** [np.linspace(start, stop, num)] for [num >= 2]. *)
Definition linspace (start stop : T) (num : nat) : list T :=
  let step := div (sub stop start) (of_Z (Z.of_nat (num - 1))) in
  map (fun i => add (mul (of_Z (Z.of_nat i)) step) start) (seq 0 (num - 1)) ++ [stop].

(** The histogram of the residuals against the standard Gaussian. *)
Definition histogram_cell (res : OptimizeResult T) : prog T unit :=
  lo <~ lift (np_min (res_fun res)) ;;
  hi <~ lift (np_max (res_fun res)) ;;
  let bins := linspace lo (add hi (of_Z 1)) 100 in
  perform (Plot bins
             (map (fun b => div (np_exp (div (mul (neg b) b) (of_Z 2)))
                                (np_sqrt (mul (of_Z 2) np_pi))) bins)
             None) ;;;
  perform (Hist (res_fun res) lo (add hi (of_Z 1))) ;;;
  decorate ["xlabel"; "ylabel"; "legend"]%string.

(** [p_and_err = np.repeat(res.x, 2); p_and_err[1::2] = errors] *)
Definition interleave (x errors : list T) : result (list T) :=
  if Nat.eqb (length errors) (length x)
  then Ok (flat_map (fun xe => [fst xe; snd xe]) (combine x errors))
  else match errors with
       | [e] => Ok (flat_map (fun xi => [xi; e]) x)
       | _ => Err ValueError
       end.

(** The cell that shows the parameters with their uncertainties. *)
Definition errors_cell (res : OptimizeResult T) : prog T unit :=
  first <~ lift (error_analysis svd res) ;;
  p_and_err <~ lift (interleave (res_x res) (fst first)) ;;
  second <~ lift (error_analysis svd res) ;;
  perform (Print [VStr "Reduced chi squared:"; VNum (snd second)]) ;;;
  markdown_table 4 p_and_err.

(** [args = [ [data.loc[conc][col] for conc in concs] for col in ['t','F','errF'] ]],
    each entry in its one-dimensional form. *)
Definition global_args (data : dataframe T) : result (list (list (list T))) :=
  mapM (fun col =>
          mapM (fun conc => block <- loc data conc ;; Ok (map col block)) concs)
       columns.

(** [lbound = [0, 0, 0] + [0]*5; ubound = [4000, 200, 1, 1e-5] + [3]*4] *)
Definition lbound : list T := repeat (of_Z 0) 3 ++ repeat (of_Z 0) 5.

Definition ubound : list T :=
  [of_Z 4000; of_Z 200; of_Z 1; lit 1 100000] ++ repeat (of_Z 3) 4.

Fixpoint enumerate_from {A} (i : nat) (l : list A) : list (nat * A) :=
  match l with
  | [] => []
  | a :: l' => (i, a) :: enumerate_from (S i) l'
  end.

(** What follows the global fit in its cell: the five fitted curves over
    the error bands, and the reduced chi squared. *)
Definition plot_global_fit (args : list (list (list T))) (res : OptimizeResult T)
  : prog T unit :=
  let p := res_x res in
  for_each (enumerate_from 0 (skipn 3 p)) (fun im _ =>
    let i := fst im in
    p0 <~ lift (index p 0) ;;
    p1 <~ lift (index p 1) ;;
    p2 <~ lift (index p 2) ;;
    allx <~ lift (index args 0) ;;
    x <~ lift (index allx i) ;;
    ally <~ lift (index args 1) ;;
    y <~ lift (index ally i) ;;
    allyerr <~ lift (index args 2) ;;
    yerr <~ lift (index allyerr i) ;;
    lower <~ lift (broadcast2 sub y yerr) ;;
    upper <~ lift (broadcast2 add y yerr) ;;
    perform (FillBetween x lower upper) ;;;
    conc <~ lift (index concs i) ;;
    perform (Plot x (GlobalFit.decay x (p0, p1, p2, snd im)) (Some conc))) tt ;;;
  decorate ["yscale"; "legend"; "ylabel"; "xlabel"]%string ;;;
  e <~ lift (error_analysis svd res) ;;
  perform (Print [VStr "Reduced chi squared:"; VNum (snd e)]).

(** The cell that runs the global fit. *)
Definition global_fit_cell (args : list (list (list T))) : prog T (OptimizeResult T) :=
  res <~ perform (LeastSquares (fun p => GlobalFit.residuals p args)
                    GlobalFit.param0 lbound ubound) ;;
  plot_global_fit args res ;;;
  Ret res.

(** What one turn of the loop of [build_cell] adds in environment [h]. *)
Definition load_frame (h : handler T) (conc : T) : result (dataframe T) :=
  rows <- h _ (LoadTxt conc) ;;
  curve_frame conc rows.

(** The cell that tabulates the eight parameters and prints the table. *)
Definition results_cell (res : OptimizeResult T) : prog T unit :=
  e <~ lift (error_analysis svd res) ;;
  if Nat.eqb (length (res_x res)) 8 && Nat.eqb (length (fst e)) 8
  then perform (Display [VStr "table"; VArr (res_x res); VArr (fst e)]) ;;;
       perform (Print [VStr "latex"; VArr (res_x res); VArr (fst e)])
  else Raise ValueError.
End Cells.

(** An environment on binary64 data: every file holds [peak_example], the
    optimizer returns its start vector, every other call succeeds. *)
Definition example_env : handler float :=
  fun X c =>
    match c in call _ X return result X with
    | LoadTxt _ => Ok peak_example
    | LeastSquares _ x0 _ _ =>
        Ok {| res_x := x0; res_cost := 0%float; res_fun := [];
              res_jac := []; res_success := false |}
    | _ => Ok tt
    end.

(** The dataframe that the saving cell builds in [example_env]. *)
Definition example_data : dataframe float :=
  Eval vm_compute in
    match snd (run example_env build_cell) with
    | Ok data => data
    | Err _ => []
    end.
End Notebook.

(** ** What [loc] hands back *)

Module Selection.
Import Notebook.
Section Defs.
Context {T : Type} `{NumOps T}.

(** The object [sel[col]]: a scalar of a Series, a column of a DataFrame. *)
Inductive item : Type :=
| Scalar (v : T)
| Column (a : list T).

Definition getitem (col : frame_row T -> T) (sel : selected T) : item :=
  match sel with
  | Series r => Scalar (col r)
  | Frame block => Column (map col block)
  end.

(** The one-dimensional form of an item ([np.atleast_1d]). *)
Definition values (i : item) : list T :=
  match i with
  | Scalar v => [v]
  | Column a => a
  end.

(** [args = [data.loc[0.0][col] for col in ['t','F','errF']]], the objects. *)
Definition single_args_items (data : dataframe T) : result (list item) :=
  mapM (fun col => sel <- data_loc data (lit 0 10) ;; Ok (getitem col sel)) columns.

(** [args = [ [data.loc[conc][col] for conc in concs] for col in ['t','F','errF'] ]],
    the objects. *)
Definition global_args_items (data : dataframe T) : result (list (list item)) :=
  mapM (fun col =>
          mapM (fun conc => sel <- data_loc data conc ;; Ok (getitem col sel)) concs)
       columns.
End Defs.

Arguments item T : clear implicits.
End Selection.

(** ** Reading a data file *)

Module TextFile.
Section Defs.
Context {T : Type}.

(** Python's [float(token)]: the value of a numeric token, or nothing. *)
Variable float_of_string : list ascii -> option T.

(** The characters that [str.split()] treats as white space, in the
    Latin-1 range in which [loadtxt] decodes a file. *)
Definition is_space (c : ascii) : bool :=
  let n := nat_of_ascii c in
  (Nat.leb 9 n && Nat.leb n 13) || (Nat.leb 28 n && Nat.leb n 32)
  || Nat.eqb n 133 || Nat.eqb n 160.

Definition is_hash (c : ascii) : bool := Nat.eqb (nat_of_ascii c) 35.

(** [line.split('#', 1)[0]]: the line up to its comment. *)
Fixpoint strip_comment (line : list ascii) : list ascii :=
  match line with
  | [] => []
  | c :: line' => if is_hash c then [] else c :: strip_comment line'
  end.

(** [line.split()]: the maximal runs of characters that are not white
    space; [cur] is the run being read, last character first. *)
Fixpoint tokens_from (cur : list ascii) (line : list ascii) : list (list ascii) :=
  match line with
  | [] => match cur with [] => [] | _ => [rev cur] end
  | c :: line' =>
      if is_space c
      then match cur with
           | [] => tokens_from [] line'
           | _ => rev cur :: tokens_from [] line'
           end
      else tokens_from (c :: cur) line'
  end.

Definition split_line (line : list ascii) : list (list ascii) :=
  tokens_from [] (strip_comment line).

Definition is_blank (toks : list (list ascii)) : bool :=
  match toks with [] => true | _ => false end.

(** The value of a token; a token that is not a number raises
    [ValueError]. *)
Definition convert (tok : list ascii) : result T :=
  match float_of_string tok with
  | Some v => Ok v
  | None => Err ValueError
  end.

(** Modelled from the spec: [np.loadtxt] is NumPy code, which is not part
    of the sources.  [np.loadtxt(fname, skiprows=skiprows)] on the lines of
    the file: the first [skiprows] lines are dropped unread, lines without a token are
    passed over, and every other line must have as many tokens as the first
    of them, each a number. *)
Definition loadtxt (skiprows : nat) (lines : list (list ascii))
  : result (list (list T)) :=
  let retained :=
    filter (fun toks => negb (is_blank toks))
           (map split_line (skipn skiprows lines)) in
  let ncols := length (hd [] retained) in
  mapM (fun toks =>
          if Nat.eqb (length toks) ncols then mapM convert toks
          else Err ValueError)
       retained.

(** The array of a file with two values on every line, by rows. *)
Definition rows_of_pairs (values : list (T * T)) : list (list T) :=
  map (fun v => [fst v; snd v]) values.





Definition tab : ascii := ascii_of_nat 9.

(** The number a string of decimal digits denotes, for running the reader
    on integer data. *)
Fixpoint digits_from (acc : Z) (tok : list ascii) : option Z :=
  match tok with
  | [] => Some acc
  | c :: tok' =>
      let n := nat_of_ascii c in
      if Nat.leb 48 n && Nat.leb n 57
      then digits_from (10 * acc + Z.of_nat (n - 48)) tok'
      else None
  end.

Definition Z_of_digits (tok : list ascii) : option Z :=
  match tok with
  | [] => None
  | _ => digits_from 0 tok
  end.

(** A line of a tab-separated file with two fields. *)
Definition tsv_line (fields : list ascii * list ascii) : list ascii :=
  fst fields ++ tab :: snd fields.

End Defs.
End TextFile.

(** ** Dropping rows and columns of a dataframe *)

Module Pandas.

(** A cell of the emissions table: a float (possibly NaN) or [None]. *)
Inductive cell : Type :=
| Num (v : float)
| NoneCell.

(** A dataframe with country names as index and years as columns, by
    rows. *)
Record DataFrame : Type := {
  df_index : list string;
  df_columns : list Z;
  df_values : list (list cell)
}.

(** The objects of the interpreter: a name such as [df] holds the address
    of a dataframe, and two names may hold the same address. *)
Definition heap : Type := list DataFrame.

Definition mentions_row (labels : list string) (l : string) : bool :=
  existsb (String.eqb l) labels.

Definition mentions_column (labels : list Z) (c : Z) : bool :=
  existsb (Z.eqb c) labels.

(** The elements of [l] at the positions where [keep] holds. *)
Definition select {A} (keep : list bool) (l : list A) : list A :=
  map fst (filter snd (combine l keep)).

(** Modelled from the spec: [DataFrame.drop] is pandas code, which is not
    part of the sources.  Dropping along the index removes the rows whose
    label is listed; a listed label that the index lacks raises
    [KeyError]. *)
Definition drop_rows (labels : list string) (df : DataFrame) : result DataFrame :=
  if forallb (fun l => existsb (String.eqb l) (df_index df)) labels
  then let keep := map (fun l => negb (mentions_row labels l)) (df_index df) in
       Ok {| df_index := select keep (df_index df);
             df_columns := df_columns df;
             df_values := select keep (df_values df) |}
  else Err KeyError.

(** Modelled from the spec: the same along the columns. *)
Definition drop_columns (labels : list Z) (df : DataFrame) : result DataFrame :=
  if forallb (fun c => existsb (Z.eqb c) (df_columns df)) labels
  then let keep := map (fun c => negb (mentions_column labels c)) (df_columns df) in
       Ok {| df_index := df_index df;
             df_columns := select keep (df_columns df);
             df_values := map (select keep) (df_values df) |}
  else Err KeyError.

(** The dataframe without the listed rows and columns. *)
Definition dropped (index_labels : list string) (column_labels : list Z)
           (df : DataFrame) : result DataFrame :=
  df' <- drop_rows index_labels df ;;
  drop_columns column_labels df'.

Fixpoint update {A} (l : list A) (i : nat) (a : A) : list A :=
  match l, i with
  | [], _ => []
  | _ :: l', O => a :: l'
  | x :: l', S i' => x :: update l' i' a
  end.

(** Modelled from the spec: [self.drop(index=..., columns=..., inplace=...)]
    on the object at address [self].  Without [inplace] the result is a new
    object and the heap is otherwise untouched; with [inplace=True] the
    object at [self] is replaced and the call returns [None]. *)
Definition drop (hp : heap) (self : nat)
           (index_labels : list string) (column_labels : list Z)
           (inplace : bool) : result (heap * option nat) :=
  df <- index hp self ;;
  out <- dropped index_labels column_labels df ;;
  if inplace then Ok (update hp self out, None)
  else Ok (hp ++ [out], Some (length hp)).

(** The table of the lecture before the first [drop]: emissions per
    capita, with the empty column 2020. *)
Definition emissions : DataFrame :=
  {| df_index := ["Estonia"; "Italy"; "Luxembourg"; "Netherlands"; "Sweden";
                  "Germany"]%string;
     df_columns := [2014; 2016; 2006; 2020]%Z;
     df_values :=
       [[Num 16.1; Num 15.0; Num 13.8; NoneCell];
        [Num 7.1; Num 7.2; Num 10.0; NoneCell];
        [Num 21.5; Num 19.8; Num 29.7; NoneCell];
        [Num 11.7; Num 12.2; Num 13.5; NoneCell];
        [Num 5.8; Num 5.6; Num 7.6; NoneCell];
        [Num 11.4; Num 11.4; Num 12.4; NoneCell]]%float |}.
End Pandas.

(** ** The Moore-Penrose conditions, in exact arithmetic *)

Module MoorePenrose.
Local Open Scope R_scope.

(** The sum of a list, accumulated from the left as [np.dot] is modelled. *)
Definition sum (l : list R) : R := fold_left Rplus l 0.

(** The product of two [n]-by-[n] matrices given by their entries. *)
Definition mat_mul (n : nat) (A B : nat -> nat -> R) (a b : nat) : R :=
  sum (map (fun x => A a x * B x b) (seq 0 n)).

(** The four conditions that make [P] the Moore-Penrose inverse of [G]. *)
Definition moore_penrose (n : nat) (G P : nat -> nat -> R) : Prop :=
  forall a b,
    mat_mul n (mat_mul n G P) G a b = G a b /\
    mat_mul n (mat_mul n P G) P a b = P a b /\
    mat_mul n G P a b = mat_mul n G P b a /\
    mat_mul n P G a b = mat_mul n P G b a.

(** The inner product of the first [n] coordinates. *)
Definition vdot (n : nat) (v w : list R) : R :=
  sum (map (fun x => nth x v 0 * nth x w 0) (seq 0 n)).

(** Vectors of unit length, orthogonal to one another. *)
Inductive orthonormal (n : nat) : list (list R) -> Prop :=
| orthonormal_nil : orthonormal n []
| orthonormal_cons (v : list R) (vs : list (list R)) :
    vdot n v v = 1 ->
    (forall w, In w vs -> vdot n v w = 0) ->
    orthonormal n vs ->
    orthonormal n (v :: vs).

(** [J^T J], entry [(a, b)]: the inner product of two columns of [J]. *)
Definition gram_entry (J : list (list R)) (a b : nat) : R :=
  ErrorAnalysis.dot (ErrorAnalysis.column a J) (ErrorAnalysis.column b J).

(** The matrix [sum_j f(s_j) p_j q_j^T] of a list of triples
    [(p_j, q_j, s_j)]. *)
Definition rank_one_sum (f : R -> R) (K : list (list R * list R * R))
           (a b : nat) : R :=
  sum (map (fun t => f (snd t) * nth a (fst (fst t)) 0 * nth b (snd (fst t)) 0) K).

(** The decomposition [J = U S VT] in its thin form: entry by entry,
    [J[i][a]] is the sum over [j] of [U[i][j] * s[j] * VT[j][a]]; here [U]
    is given by its columns. *)
Definition decomposes (J : list (list R)) (Ucols : list (list R)) (s : list R)
           (VT : list (list R)) : Prop :=
  length Ucols = length s /\ length VT = length s /\
  forall i a,
    nth a (nth i J []) 0 =
    rank_one_sum (fun sj => sj) (combine (combine Ucols VT) s) i a.

(** Quadruples [(p, q, r, s)]: the matrices [sum f(s) p q^T] and
    [sum g(s) q r^T] multiply to [sum f(s) g(s) p r^T] when the [q] are
    orthonormal. *)
Definition quad : Type := (list R * list R * list R * R)%type.

Definition qp (t : quad) : list R := fst (fst (fst t)).
Definition qq (t : quad) : list R := snd (fst (fst t)).
Definition qr (t : quad) : list R := snd (fst t).
Definition qs (t : quad) : R := snd t.

Definition left_sum (f : R -> R) (Q : list quad) (a x : nat) : R :=
  sum (map (fun t => f (qs t) * nth a (qp t) 0 * nth x (qq t) 0) Q).

Definition right_sum (g : R -> R) (Q : list quad) (x b : nat) : R :=
  sum (map (fun t => g (qs t) * nth x (qq t) 0 * nth b (qr t) 0) Q).

Definition outer_sum (h : R -> R) (Q : list quad) (a b : nat) : R :=
  sum (map (fun t => h (qs t) * nth a (qp t) 0 * nth b (qr t) 0) Q).

(** The quadruples of a symmetric sum [sum f(s) v v^T]. *)
Definition sym_quads (K : list (list R * R)) : list quad :=
  map (fun vs => (fst vs, fst vs, fst vs, snd vs)) K.
End MoorePenrose.

(** ** A key for the comparisons of binary64 *)

Module FloatKey.

(** A key that orders the values that are not NaN: the sign class first,
    then exponent and mantissa, reversed for negative values. *)
Definition key (f : spec_float) : Z * Z * Z :=
  match f with
  | S754_nan => (0, 0, 0)
  | S754_infinity true => (-2, 0, 0)
  | S754_infinity false => (2, 0, 0)
  | S754_zero _ => (0, 0, 0)
  | S754_finite false m e => (1, e, Zpos m)
  | S754_finite true m e => (-1, - e, Zneg m)
  end%Z.

Definition cmp3 (k k' : Z * Z * Z) : comparison :=
  let '(a, b, c) := k in
  let '(a', b', c') := k' in
  match (a ?= a')%Z with
  | Eq => match (b ?= b')%Z with
          | Eq => (c ?= c')%Z
          | r => r
          end
  | r => r
  end.

Definition not_nan (f : spec_float) : bool :=
  match f with S754_nan => false | _ => true end.

(** The lexicographic order that [cmp3] decides. *)
Definition lt3 (k k' : Z * Z * Z) : Prop :=
  let '(a, b, c) := k in
  let '(a', b', c') := k' in
  (a < a' \/ (a = a' /\ (b < b' \/ (b = b' /\ c < c'))))%Z.
End FloatKey.

(** ** Data files for running the cells on binary64 *)

Module Scenario.
Import Notebook.

(** An environment in which every data file holds [rows], the optimizer
    returns its start vector and every other call succeeds. *)
Definition env_of (rows : list (float * float)) : handler float :=
  fun X c =>
    match c in call _ X return result X with
    | LoadTxt _ => Ok rows
    | LeastSquares _ x0 _ _ =>
        Ok {| ErrorAnalysis.res_x := x0; ErrorAnalysis.res_cost := 0%float;
              ErrorAnalysis.res_fun := []; ErrorAnalysis.res_jac := [];
              ErrorAnalysis.res_success := false |}
    | _ => Ok tt
    end.

(** A curve on which two rows share the maximum count, and one whose counts
    rise to the last row. *)
Definition tied_example : list (float * float) :=
  [(0.0, 1.0); (0.1, 5.0); (0.2, 5.0); (0.3, 2.0)]%float.

Definition rising_example : list (float * float) :=
  [(0.0, 1.0); (0.1, 2.0); (0.2, 3.0)]%float.


(** A result whose Jacobian is the zero 3-by-2 matrix, and a decomposition
    of that matrix: no singular value exceeds the threshold. *)
Definition zero_jac_result : ErrorAnalysis.OptimizeResult float :=
  {| ErrorAnalysis.res_x := [5; 7]%float;
     ErrorAnalysis.res_cost := 8%float;
     ErrorAnalysis.res_fun := [0; 0; 4]%float;
     ErrorAnalysis.res_jac := [[0; 0]; [0; 0]; [0; 0]]%float;
     ErrorAnalysis.res_success := true |}.

Definition zero_jac_svd : ErrorAnalysis.svd_fn float :=
  fun _ => Ok ([[1; 0]; [0; 1]; [0; 0]], [0; 0], [[1; 0]; [0; 1]])%float.
End Scenario.

(** ** The sign freedom of a singular value decomposition *)

Module SignChoice.

(** A decomposition stays one when a singular vector and its partner
    change sign together: the rows of [VT] marked in [signs], negated. *)
Definition flip_rows (signs : list bool) (VT : list (list R)) : list (list R) :=
  zip_with (fun (sg : bool) (v : list R) => if sg then map Ropp v else v) signs VT.
End SignChoice.

(** ** The key of [encrypt] and [decrypt] *)

Module Keygen.
Local Open Scope Z_scope.

(** A Python [str] is a sequence of code points, a [bytes] object a
    sequence of numbers below 256. *)
Definition str : Type := list Z.
Definition bytes : Type := list Z.

(** The UTF-8 encoding of one code point.  A surrogate cannot be encoded:
    [UnicodeEncodeError], which is a [ValueError]; what is not a code point
    is given the same answer. *)
Definition utf8_char (c : Z) : result bytes :=
  if c <? 0 then Err ValueError
  else if c <? 128 then Ok [c]
  else if c <? 2048 then Ok [192 + c / 64; 128 + c mod 64]
  else if (55296 <=? c) && (c <? 57344) then Err ValueError
  else if c <? 65536
       then Ok [224 + c / 4096; 128 + (c / 64) mod 64; 128 + c mod 64]
  else if c <? 1114112
       then Ok [240 + c / 262144; 128 + (c / 4096) mod 64;
                128 + (c / 64) mod 64; 128 + c mod 64]
  else Err ValueError.

(** [x.encode()] *)
Definition encode (x : str) : result bytes :=
  bs <- mapM utf8_char x ;; Ok (concat bs).

(** [x.encode() + b' '*(32 - len(x))]: a repetition count below zero gives
    the empty [bytes]. *)
Definition padded (x : str) : result bytes :=
  b <- encode x ;; Ok (b ++ repeat 32 (32 - length x)%nat).

(** The URL-safe alphabet: [A-Z], [a-z], [0-9], [-] and [_]. *)
Definition alphabet (i : Z) : Z :=
  if i <? 26 then 65 + i
  else if i <? 52 then 97 + (i - 26)
  else if i <? 62 then 48 + (i - 52)
  else if i =? 62 then 45
  else 95.

(** [base64.urlsafe_b64encode]: three bytes give four characters, and a
    last group of one or two bytes is filled up with [=]. *)
Fixpoint urlsafe_b64encode (bs : bytes) : bytes :=
  match bs with
  | [] => []
  | [a] => [alphabet (a / 4); alphabet (a mod 4 * 16); 61; 61]
  | [a; b] =>
      [alphabet (a / 4); alphabet (a mod 4 * 16 + b / 16);
       alphabet (b mod 16 * 4); 61]
  | a :: b :: c :: rest =>
      alphabet (a / 4) :: alphabet (a mod 4 * 16 + b / 16)
        :: alphabet (b mod 16 * 4 + c / 64) :: alphabet (c mod 64)
        :: urlsafe_b64encode rest
  end.

(** [keygen = lambda x : base64.urlsafe_b64encode(x.encode() + b' '*(32 - len(x)))] *)
Definition keygen (x : str) : result bytes :=
  kb <- padded x ;; Ok (urlsafe_b64encode kb).

Definition is_byte (b : Z) : Prop := 0 <= b < 256.

(** The code points of a string literal of Rocq, for examples. *)
Definition of_string (s : string) : str :=
  map (fun c => Z.of_nat (nat_of_ascii c)) (list_ascii_of_string s).
End Keygen.

(** * Properties *)

(** ** Generic facts *)

Lemma index_nth_error {A} (l : list A) i a :
  nth_error l i = Some a -> index l i = Ok a.
Proof. unfold index. intros ->. reflexivity. Qed.

Lemma index_lt {A} (l : list A) i (d : A) :
  i < length l -> index l i = Ok (nth i l d).
Proof.
  intros Hi. apply index_nth_error. apply nth_error_nth'. exact Hi.
Qed.

Lemma mapM_Forall2 {A B} (f : A -> result B) :
  forall (l : list A) (bs : list B),
    mapM f l = Ok bs -> Forall2 (fun a b => f a = Ok b) l bs.
Proof.
  induction l as [|a l IH]; intros bs Hm; cbn [mapM] in Hm.
  - injection Hm as <-. constructor.
  - destruct (f a) as [b|e] eqn:Hb; [|discriminate Hm]. cbn [bind] in Hm.
    destruct (mapM f l) as [bs'|e]; [|discriminate Hm]. cbn [bind] in Hm.
    injection Hm as <-. constructor; [exact Hb|]. apply IH. reflexivity.
Qed.

Lemma mapM_ok_length {A B} (f : A -> result B) :
  forall (l : list A) (bs : list B), mapM f l = Ok bs -> length bs = length l.
Proof.
  induction l as [|a l IH]; intros bs Hm; cbn [mapM] in Hm.
  - injection Hm as <-. reflexivity.
  - destruct (f a) as [b|e]; [|discriminate Hm]. cbn [bind] in Hm.
    destruct (mapM f l) as [bs'|e] eqn:Hl; [|discriminate Hm]. cbn [bind] in Hm.
    injection Hm as <-. cbn [length]. f_equal. apply IH. reflexivity.
Qed.

Lemma Forall2_nth_error {A B} (R : A -> B -> Prop) :
  forall (l : list A) (l' : list B) (i : nat) (a : A),
    Forall2 R l l' -> nth_error l i = Some a ->
    exists b, nth_error l' i = Some b /\ R a b.
Proof.
  intros l l' i a HF. revert i.
  induction HF as [|x y l l' Hxy HF IH]; intros [|i] Hi; cbn in Hi; try discriminate.
  - injection Hi as ->. exists y. split; [reflexivity|exact Hxy].
  - exact (IH i Hi).
Qed.

Lemma float_literals :
  lit 4 100 = 0.04%float /\ lit 5 10 = 0.5%float /\ lit 2 10 = 0.2%float.
Proof. vm_compute. repeat split. Qed.

(** ** The comparisons of binary64 *)

Module FloatOrder.
Import FloatKey.

Lemma SFcompare_key (f g : spec_float) :
  not_nan f = true -> not_nan g = true ->
  SFcompare f g = Some (cmp3 (key f) (key g)).
Proof.
  destruct f as [[]| [] | |[] m e], g as [[]|[]| |[] m' e'];
    try discriminate; intros _ _; try reflexivity; cbn [SFcompare key cmp3].
  rewrite Z.compare_opp, (Z.compare_antisym e e').
  change (Z.neg m ?= Z.neg m')%Z with (CompOpp (m ?= m')%positive).
  change (Pos.compare_cont Eq m m') with (m ?= m')%positive.
  destruct (e ?= e')%Z; reflexivity.
Qed.

Lemma SFcompare_nan (f g : spec_float) :
  not_nan f = false \/ not_nan g = false -> SFcompare f g = None.
Proof.
  destruct f as [[]| [] | |[] m e], g as [[]|[]| |[] m' e'];
    intros [C|C]; try discriminate C; reflexivity.
Qed.

Lemma cmp3_spec (k k' : Z * Z * Z) :
  match cmp3 k k' with
  | Lt => lt3 k k'
  | Eq => k = k'
  | Gt => lt3 k' k
  end.
Proof.
  destruct k as [[a b] c], k' as [[a' b'] c']. unfold cmp3, lt3.
  destruct (Z.compare_spec a a'); [|lia|lia].
  destruct (Z.compare_spec b b'); [|lia|lia].
  destruct (Z.compare_spec c c'); [congruence|lia|lia].
Qed.

Lemma cmp3_antisym (k k' : Z * Z * Z) : cmp3 k' k = CompOpp (cmp3 k k').
Proof.
  destruct k as [[a b] c], k' as [[a' b'] c']. unfold cmp3.
  rewrite (Z.compare_antisym a a'), (Z.compare_antisym b b'),
    (Z.compare_antisym c c').
  destruct (a ?= a')%Z, (b ?= b')%Z, (c ?= c')%Z; reflexivity.
Qed.

Lemma lt3_irrefl k : ~ lt3 k k.
Proof. destruct k as [[a b] c]. unfold lt3. lia. Qed.

Lemma lt3_trans k1 k2 k3 : lt3 k1 k2 -> lt3 k2 k3 -> lt3 k1 k3.
Proof.
  destruct k1 as [[a1 b1] c1], k2 as [[a2 b2] c2], k3 as [[a3 b3] c3].
  unfold lt3. lia.
Qed.

Lemma lt3_total k1 k2 : lt3 k1 k2 \/ k1 = k2 \/ lt3 k2 k1.
Proof.
  pose proof (cmp3_spec k1 k2). destruct (cmp3 k1 k2); auto.
Qed.

(** [x < y] on values that are not NaN is the order of the keys. *)
Lemma SFltb_key (f g : spec_float) :
  not_nan f = true -> not_nan g = true ->
  (SFltb f g = true <-> lt3 (key f) (key g)).
Proof.
  intros Nf Ng. unfold SFltb. rewrite (SFcompare_key f g Nf Ng).
  pose proof (cmp3_spec (key f) (key g)) as Hc.
  destruct (cmp3 (key f) (key g)); split; intros Hl; try discriminate Hl;
    try reflexivity.
  - rewrite Hc in Hl. elim (lt3_irrefl _ Hl).
  - exact Hc.
  - elim (lt3_irrefl _ (lt3_trans _ _ _ Hl Hc)).
Qed.

Lemma SFltb_not_nan (f g : spec_float) :
  SFltb f g = true -> not_nan f = true /\ not_nan g = true.
Proof.
  unfold SFltb. intros Hl.
  destruct (not_nan f) eqn:Nf, (not_nan g) eqn:Ng; try (split; reflexivity);
    rewrite SFcompare_nan in Hl by (rewrite ?Nf, ?Ng; auto); discriminate Hl.
Qed.

Lemma SFeqb_refl_not_nan (f : spec_float) :
  SFeqb f f = true <-> not_nan f = true.
Proof.
  unfold SFeqb. destruct (not_nan f) eqn:Nf.
  - rewrite (SFcompare_key f f Nf Nf).
    pose proof (cmp3_spec (key f) (key f)) as Hc.
    destruct (cmp3 (key f) (key f)); try (elim (lt3_irrefl _ Hc)).
    split; reflexivity.
  - rewrite SFcompare_nan by auto. split; discriminate.
Qed.

#[global] Instance float_laws : OrderLaws float.
Proof.
  split; unfold number; cbn [ltb leb eqb float_ops].
  - intros x. rewrite FloatAxioms.ltb_spec.
    destruct (SFltb (Prim2SF x) (Prim2SF x)) eqn:Hl; [|reflexivity].
    destruct (SFltb_not_nan _ _ Hl) as [Nx _].
    apply (SFltb_key _ _ Nx Nx) in Hl. elim (lt3_irrefl _ Hl).
  - intros x y z. rewrite !FloatAxioms.ltb_spec. intros Hxy Hyz.
    destruct (SFltb_not_nan _ _ Hxy) as [Nx Ny].
    destruct (SFltb_not_nan _ _ Hyz) as [_ Nz].
    apply (SFltb_key _ _ Nx Nz).
    apply (SFltb_key _ _ Nx Ny) in Hxy. apply (SFltb_key _ _ Ny Nz) in Hyz.
    exact (lt3_trans _ _ _ Hxy Hyz).
  - intros x y z. rewrite !FloatAxioms.eqb_spec, !FloatAxioms.ltb_spec, !SFeqb_refl_not_nan.
    intros Nx Ny Nz Hxy Hyz.
    destruct (SFltb (Prim2SF x) (Prim2SF z)) eqn:Hxz; [|reflexivity].
    apply (SFltb_key _ _ Nx Nz) in Hxz.
    assert (Cxy : ~ lt3 (key (Prim2SF x)) (key (Prim2SF y))).
    { intros C. apply (SFltb_key _ _ Nx Ny) in C. congruence. }
    assert (Cyz : ~ lt3 (key (Prim2SF y)) (key (Prim2SF z))).
    { intros C. apply (SFltb_key _ _ Ny Nz) in C. congruence. }
    exfalso.
    destruct (lt3_total (key (Prim2SF x)) (key (Prim2SF y))) as [L|[E|L]];
      [exact (Cxy L)| |].
    + rewrite E in Hxz. exact (Cyz Hxz).
    + exact (Cyz (lt3_trans _ _ _ L Hxz)).
  - intros x y. rewrite !FloatAxioms.eqb_spec, FloatAxioms.leb_spec,
      FloatAxioms.ltb_spec, !SFeqb_refl_not_nan.
    intros Nx Ny. unfold SFleb, SFltb.
    rewrite (SFcompare_key _ _ Nx Ny), (SFcompare_key _ _ Ny Nx),
      (cmp3_antisym (key (Prim2SF x)) (key (Prim2SF y))).
    destruct (cmp3 (key (Prim2SF x)) (key (Prim2SF y))); reflexivity.
  - intros x y. rewrite !FloatAxioms.eqb_spec, !FloatAxioms.ltb_spec,
      !SFeqb_refl_not_nan.
    intros Nx Ny. unfold SFeqb, SFltb.
    rewrite (SFcompare_key _ _ Nx Ny), (SFcompare_key _ _ Ny Nx),
      (cmp3_antisym (key (Prim2SF x)) (key (Prim2SF y))).
    destruct (cmp3 (key (Prim2SF x)) (key (Prim2SF y))); reflexivity.
Qed.
End FloatOrder.

(** ** The global residual function *)

Module GlobalFitFacts.
Import GlobalFit.
Section Facts.
Context {T : Type} `{NumOps T} `{Transcendental T}.

(** The loop over [enumerate(ms)] started at counter [i] appends the
    residual vectors of curves [i, i+1, ...] to the accumulator, provided
    [ms] is the tail [p[3+i:]]. *)
Lemma residuals_loop_mapM (p : list T) allx ally allyerr :
  forall ms i acc,
    (forall j, j < length ms -> nth_error p (3 + i + j) = nth_error ms j) ->
    residuals_loop p [allx; ally; allyerr] i ms acc =
    (rs <- mapM (curve_residuals p allx ally allyerr) (seq i (length ms)) ;;
     Ok (acc ++ concat rs)).
Proof.
  induction ms as [|m ms IH]; intros i acc Htail.
  - simpl. rewrite app_nil_r. reflexivity.
  - assert (Hm : index p (3 + i) = Ok m).
    { apply index_nth_error. specialize (Htail 0 (Nat.lt_0_succ _)).
      rewrite Nat.add_0_r in Htail. exact Htail. }
    cbn [residuals_loop length seq mapM].
    unfold curve_residuals at 1. rewrite Hm.
    destruct (index p 0) as [p0|]; [|reflexivity].
    destruct (index p 1) as [p1|]; [|reflexivity].
    destruct (index p 2) as [p2|]; [|reflexivity].
    cbn [bind index nth_error].
    destruct (index ally i) as [y|]; [|reflexivity].
    destruct (index allx i) as [x|]; [|reflexivity].
    cbn [bind].
    destruct (broadcast2 sub y (decay x (p0, p1, p2, m))) as [num|]; [|reflexivity].
    cbn [bind].
    destruct (index allyerr i) as [yerr|]; [|reflexivity].
    cbn [bind].
    destruct (broadcast2 div num yerr) as [r|]; [|reflexivity].
    cbn [bind].
    rewrite IH.
    + destruct (mapM _ (seq (S i) (length ms))) as [rs|]; [|reflexivity].
      cbn [bind concat]. rewrite app_assoc. reflexivity.
    + intros j Hj. specialize (Htail (S j) (proj1 (Nat.succ_lt_mono _ _) Hj)).
      cbn [nth_error] in Htail. rewrite <- Htail. f_equal. lia.
Qed.

Lemma broadcast2_same_length {A B C} (f : A -> B -> C) a b :
  length a = length b -> broadcast2 f a b = Ok (zip_with f a b).
Proof.
  intros E. unfold broadcast2. rewrite E, Nat.eqb_refl. reflexivity.
Qed.

Lemma zip_with_length {A B C} (f : A -> B -> C) a :
  forall b, length a = length b -> length (zip_with f a b) = length a.
Proof.
  induction a as [|x a IH]; intros [|y b] E; simpl in *; try congruence.
  f_equal. apply IH. congruence.
Qed.

Lemma zip_zip_pointwise (param : T * T * T * T) :
  forall x y yerr,
    zip_with div (zip_with sub y (decay x param)) yerr =
    pointwise_residuals param x y yerr.
Proof.
  induction x as [|xi x IH]; intros [|yi y] [|ei e]; simpl; try reflexivity.
  f_equal. apply IH.
Qed.

(** On arrays of one common length the residual vector of a curve is the
    point-by-point quotient. *)
Lemma curve_residuals_pointwise (p : list T) allx ally allyerr i p0 p1 p2 m x y yerr :
  index p 0 = Ok p0 -> index p 1 = Ok p1 -> index p 2 = Ok p2 ->
  index p (3 + i) = Ok m ->
  index allx i = Ok x -> index ally i = Ok y -> index allyerr i = Ok yerr ->
  length y = length x -> length yerr = length x ->
  curve_residuals p allx ally allyerr i =
  Ok (pointwise_residuals (p0, p1, p2, m) x y yerr).
Proof.
  intros E0 E1 E2 Em Ex Ey Ee Ly Le.
  unfold curve_residuals. rewrite E0, E1, E2, Em, Ey, Ex, Ee. cbn [bind].
  rewrite broadcast2_same_length by (unfold decay; rewrite length_map; exact Ly).
  cbn [bind].
  rewrite broadcast2_same_length
    by (rewrite zip_with_length; unfold decay; rewrite ?length_map; congruence).
  rewrite zip_zip_pointwise. reflexivity.
Qed.

Lemma residuals_concat (p : list T) allx ally allyerr :
  length p = 8 ->
  residuals p [allx; ally; allyerr] =
  (rs <- mapM (curve_residuals p allx ally allyerr) [0; 1; 2; 3; 4] ;;
   Ok (concat rs)).
Proof.
  intros Lp. unfold residuals.
  rewrite residuals_loop_mapM.
  - rewrite length_skipn, Lp. reflexivity.
  - intros j _. rewrite nth_error_skipn. reflexivity.
Qed.

Lemma residuals_pointwise (p : list T) allx ally allyerr (d : T) :
  length p = 8 -> length allx = 5 -> length ally = 5 -> length allyerr = 5 ->
  (forall i, i < 5 ->
     length (nth i ally []) = length (nth i allx []) /\
     length (nth i allyerr []) = length (nth i allx [])) ->
  residuals p [allx; ally; allyerr] =
  Ok (concat (map (fun i =>
        pointwise_residuals
          (nth 0 p d, nth 1 p d, nth 2 p d, nth (3 + i) p d)
          (nth i allx []) (nth i ally []) (nth i allyerr []))
      [0; 1; 2; 3; 4])).
Proof.
  intros Lp Lx Ly Le Hshape. rewrite residuals_concat by exact Lp.
  assert (Hcurve : forall i, i < 5 ->
    curve_residuals p allx ally allyerr i =
    Ok (pointwise_residuals
          (nth 0 p d, nth 1 p d, nth 2 p d, nth (3 + i) p d)
          (nth i allx []) (nth i ally []) (nth i allyerr []))).
  { intros i Hi. destruct (Hshape i Hi) as [Sy Se].
    apply curve_residuals_pointwise;
      try (apply index_lt; lia); assumption. }
  cbn [mapM map].
  rewrite !Hcurve by lia. reflexivity.
Qed.

(** The three argument lists built from the dataframe hold, at position
    [i], the columns of the block of the [i]-th concentration. *)
Lemma global_args_by_concentration
      (data : Notebook.dataframe T) (allx ally allyerr : list (list T)) :
  Notebook.global_args data = Ok [allx; ally; allyerr] ->
  length allx = 5 /\ length ally = 5 /\ length allyerr = 5 /\
  forall i conc,
    nth_error Notebook.concs i = Some conc ->
    exists block,
      Notebook.loc data conc = Ok block /\
      nth_error allx i = Some (map Notebook.row_t block) /\
      nth_error ally i = Some (map Notebook.row_F block) /\
      nth_error allyerr i = Some (map Notebook.row_errF block).
Proof.
  unfold Notebook.global_args, Notebook.columns. cbn [mapM]. intros E.
  destruct (mapM (fun conc => block <- Notebook.loc data conc ;;
                               Ok (map Notebook.row_t block)) Notebook.concs)
    as [a|e] eqn:Ha; [|discriminate E].
  destruct (mapM (fun conc => block <- Notebook.loc data conc ;;
                               Ok (map Notebook.row_F block)) Notebook.concs)
    as [b|e] eqn:Hb; [|discriminate E].
  destruct (mapM (fun conc => block <- Notebook.loc data conc ;;
                               Ok (map Notebook.row_errF block)) Notebook.concs)
    as [c|e] eqn:Hc; [|discriminate E].
  cbn [bind] in E. injection E as <- <- <-.
  split; [exact (mapM_ok_length _ _ _ Ha)|].
  split; [exact (mapM_ok_length _ _ _ Hb)|].
  split; [exact (mapM_ok_length _ _ _ Hc)|].
  intros i conc Hi.
  destruct (Forall2_nth_error _ _ _ i conc (mapM_Forall2 _ _ _ Ha) Hi) as (va & Hva & Ea).
  destruct (Forall2_nth_error _ _ _ i conc (mapM_Forall2 _ _ _ Hb) Hi) as (vb & Hvb & Eb).
  destruct (Forall2_nth_error _ _ _ i conc (mapM_Forall2 _ _ _ Hc) Hi) as (vc & Hvc & Ec).
  cbn beta in Ea, Eb, Ec.
  destruct (Notebook.loc data conc) as [block|e]; [|discriminate Ea].
  cbn [bind] in Ea, Eb, Ec. injection Ea as <-. injection Eb as <-. injection Ec as <-.
  exists block. repeat split; assumption.
Qed.
End Facts.
End GlobalFitFacts.

(** C1: with a parameter vector of length 8 and three lists of five arrays,
    the global [residuals] returns the concatenation, for i = 0..4 in this
    order, of the weighted residual vectors
    [(ally[i] - decay(allx[i], (p[0], p[1], p[2], p[3+i]))) / allyerr[i]]:
    the first three parameters are shared and curve [i] gets the single extra
    parameter [p[3+i]].  When the three arrays of every curve have one
    length, the call succeeds and the vector is the point-by-point quotient.
    Position [i] is the [i]-th concentration of [concs]: the argument lists
    that the notebook builds hold there the columns of that block. *)
Theorem residuals_global_five_curves
  {T : Type} `{NumOps T} `{Transcendental T}
  (p : list T) (allx ally allyerr : list (list T)) (d : T) :
  length p = 8 -> length allx = 5 -> length ally = 5 -> length allyerr = 5 ->
  GlobalFit.residuals p [allx; ally; allyerr] =
    (rs <- mapM (GlobalFit.curve_residuals p allx ally allyerr) [0; 1; 2; 3; 4] ;;
     Ok (concat rs))
  /\
  ((forall i, i < 5 ->
      length (nth i ally []) = length (nth i allx []) /\
      length (nth i allyerr []) = length (nth i allx [])) ->
   GlobalFit.residuals p [allx; ally; allyerr] =
     Ok (concat (map (fun i =>
           GlobalFit.pointwise_residuals
             (nth 0 p d, nth 1 p d, nth 2 p d, nth (3 + i) p d)
             (nth i allx []) (nth i ally []) (nth i allyerr []))
         [0; 1; 2; 3; 4])))
  /\
  (forall data,
     Notebook.global_args data = Ok [allx; ally; allyerr] ->
     forall i conc,
       nth_error Notebook.concs i = Some conc ->
       exists block,
         Notebook.loc data conc = Ok block /\
         nth_error allx i = Some (map Notebook.row_t block) /\
         nth_error ally i = Some (map Notebook.row_F block) /\
         nth_error allyerr i = Some (map Notebook.row_errF block)).
Proof.
  intros Lp Lx Ly Le. split; [|split].
  - apply GlobalFitFacts.residuals_concat. exact Lp.
  - intros Hshape. apply GlobalFitFacts.residuals_pointwise; assumption.
  - intros data Hargs.
    exact (proj2 (proj2 (proj2
             (GlobalFitFacts.global_args_by_concentration data allx ally allyerr Hargs)))).
Qed.

(** The theorem at a concrete input over the reals: the start vector
    [param0] and five two-point curves. *)
Lemma residuals_global_five_curves_witness :
  let p : list R := GlobalFit.param0 in
  let xs : list (list R) := repeat [0%R; 1%R] 5 in
  let ys : list (list R) := repeat [3000%R; 2900%R] 5 in
  let es : list (list R) := repeat [50%R; 50%R] 5 in
  GlobalFit.residuals p [xs; ys; es] =
    (rs <- mapM (GlobalFit.curve_residuals p xs ys es) [0; 1; 2; 3; 4] ;;
     Ok (concat rs)).
Proof.
  intros p xs ys es.
  exact (proj1 (residuals_global_five_curves p xs ys es 0%R
                  eq_refl eq_refl eq_refl eq_refl)).
Defined.

(** ** The single-curve residual function and the objective *)

Module SingleFitFacts.
Import SingleFit.
Section Facts.
Context {T : Type} `{NumOps T} `{Transcendental T}.

Lemma zip_zip_weighted (p0 p1 : T) :
  forall x y yerr,
    zip_with div (zip_with sub y (map (exp_decay1 p0 p1) x)) yerr =
    weighted_pointwise p0 p1 x y yerr.
Proof.
  induction x as [|xi x IH]; intros [|yi y] [|ei e]; simpl; try reflexivity.
  f_equal. apply IH.
Qed.

Lemma sum_sq_weighted_from (p0 p1 : T) :
  forall x y yerr acc,
    fold_left (fun a ri => add a (mul ri ri))
              (weighted_pointwise p0 p1 x y yerr) acc =
    weighted_RSS_from acc p0 p1 x y yerr.
Proof.
  induction x as [|xi x IH]; intros [|yi y] [|ei e] acc; simpl; try reflexivity.
  apply IH.
Qed.
End Facts.

(** Over the reals the model function at [x = 0] is its amplitude. *)
Lemma exp_decay1_at_0 (p0 p1 : R) : exp_decay1 p0 p1 0%R = p0.
Proof.
  unfold exp_decay1. simpl.
  replace (- 0 / p1)%R with 0%R by (unfold Rdiv; rewrite Ropp_0, Rmult_0_l; reflexivity).
  rewrite exp_0. lra.
Qed.
End SingleFitFacts.

(** C4 as stated fails: the vector handed to the optimizer is not
    [y - f(x, beta)].  On two points at [x = 0] with counts 4 and 1 and
    errors 2 and 1, the vectors differ at [beta1 = (1, 1)], and the two sums
    of squares rank [beta1] and [beta2 = (3, 1)] in opposite orders. *)
Lemma objective_unweighted_counterexample :
  SingleFit.residuals [1; 1]%R [[0; 0]; [4; 1]; [2; 1]]%R <>
  SingleFit.unweighted_residuals [1; 1]%R [0; 0]%R [4; 1]%R
  /\
  exists r1 r2 u1 u2 : list R,
    SingleFit.residuals [1; 1]%R [[0; 0]; [4; 1]; [2; 1]]%R = Ok r1 /\
    SingleFit.residuals [3; 1]%R [[0; 0]; [4; 1]; [2; 1]]%R = Ok r2 /\
    SingleFit.unweighted_residuals [1; 1]%R [0; 0]%R [4; 1]%R = Ok u1 /\
    SingleFit.unweighted_residuals [3; 1]%R [0; 0]%R [4; 1]%R = Ok u2 /\
    (sum_sq r1 < sum_sq r2)%R /\ (sum_sq u2 < sum_sq u1)%R.
Proof.
  assert (W : forall p0 : R,
    SingleFit.residuals [p0; 1%R] [[0; 0]; [4; 1]; [2; 1]]%R =
    Ok [((4 - p0) / 2)%R; ((1 - p0) / 1)%R]).
  { intros p0. unfold SingleFit.residuals, SingleFit.exp_decay.
    cbn -[SingleFit.exp_decay1].
    rewrite !SingleFitFacts.exp_decay1_at_0. reflexivity. }
  assert (U : forall p0 : R,
    SingleFit.unweighted_residuals [p0; 1%R] [0; 0]%R [4; 1]%R =
    Ok [(4 - p0)%R; (1 - p0)%R]).
  { intros p0. unfold SingleFit.unweighted_residuals, SingleFit.exp_decay.
    cbn -[SingleFit.exp_decay1].
    rewrite !SingleFitFacts.exp_decay1_at_0. reflexivity. }
  split.
  - rewrite W, U. intros E. injection E as E1 _. lra.
  - exists [((4 - 1) / 2)%R; ((1 - 1) / 1)%R], [((4 - 3) / 2)%R; ((1 - 3) / 1)%R],
           [(4 - 1)%R; (1 - 1)%R], [(4 - 3)%R; (1 - 3)%R].
    split; [apply W|]. split; [apply W|]. split; [apply U|]. split; [apply U|].
    split; unfold sum_sq; simpl; lra.
Qed.

(** C4, amended: the residual vector handed to the optimizer is weighted by
    the error on y, [(y_i - f(x_i, beta)) / yerr_i], for the single curve
    and for each of the five curves of the global fit, so the sum of squares
    being minimised is the weighted RSS, the sum of
    [((y_i - f(x_i, beta)) / yerr_i)^2]. *)
Theorem residuals_are_weighted
  {T : Type} `{NumOps T} `{Transcendental T}
  (param x y yerr : list T) (p0 p1 : T) :
  index param 0 = Ok p0 -> index param 1 = Ok p1 ->
  length y = length x -> length yerr = length x ->
  SingleFit.residuals param [x; y; yerr] =
    Ok (SingleFit.weighted_pointwise p0 p1 x y yerr)
  /\ sum_sq (SingleFit.weighted_pointwise p0 p1 x y yerr) =
     SingleFit.weighted_RSS p0 p1 x y yerr
  /\ forall (p : list T) (allx ally allyerr : list (list T)) (d : T),
       length p = 8 -> length allx = 5 -> length ally = 5 -> length allyerr = 5 ->
       (forall i, i < 5 ->
          length (nth i ally []) = length (nth i allx []) /\
          length (nth i allyerr []) = length (nth i allx [])) ->
       GlobalFit.residuals p [allx; ally; allyerr] =
       Ok (concat (map (fun i =>
             GlobalFit.pointwise_residuals
               (nth 0 p d, nth 1 p d, nth 2 p d, nth (3 + i) p d)
               (nth i allx []) (nth i ally []) (nth i allyerr []))
           [0; 1; 2; 3; 4])).
Proof.
  intros E0 E1 Ly Le. split; [|split].
  - unfold SingleFit.residuals, SingleFit.exp_decay.
    cbn [index nth_error bind]. rewrite E0, E1. cbn [bind].
    rewrite GlobalFitFacts.broadcast2_same_length by (rewrite length_map; exact Ly).
    cbn [bind].
    rewrite GlobalFitFacts.broadcast2_same_length
      by (rewrite GlobalFitFacts.zip_with_length; rewrite ?length_map; congruence).
    rewrite SingleFitFacts.zip_zip_weighted. reflexivity.
  - unfold sum_sq, SingleFit.weighted_RSS.
    apply SingleFitFacts.sum_sq_weighted_from.
  - intros p allx ally allyerr d. apply GlobalFitFacts.residuals_pointwise.
Qed.

(** The single-curve start vector [x0 = [3000, 150]] on a three-point
    curve over the reals. *)
Lemma residuals_are_weighted_witness :
  SingleFit.residuals [3000; 150]%R [[0; 1; 2]; [2900; 2800; 2700]; [50; 50; 50]]%R =
  Ok (SingleFit.weighted_pointwise 3000%R 150%R
        [0; 1; 2]%R [2900; 2800; 2700]%R [50; 50; 50]%R).
Proof.
  exact (proj1 (residuals_are_weighted
                  [3000; 150]%R [0; 1; 2]%R [2900; 2800; 2700]%R [50; 50; 50]%R
                  3000%R 150%R eq_refl eq_refl eq_refl eq_refl)).
Defined.

(** ** Truncation at the intensity peak *)

Module TruncationFacts.
Import Truncation.
Section Facts.
Context {T : Type} `{OrderLaws T}.

Lemma ltb_asym (x y : T) : ltb x y = true -> ltb y x = false.
Proof.
  intros Hxy. destruct (ltb y x) eqn:Hyx; [|reflexivity].
  rewrite <- (ltb_irrefl x). symmetry. exact (ltb_trans _ _ _ Hxy Hyx).
Qed.

Lemma all_numbers_app (a b : list T) :
  all_numbers (a ++ b) = true <-> all_numbers a = true /\ all_numbers b = true.
Proof. unfold all_numbers. rewrite forallb_app. apply andb_true_iff. Qed.

Lemma all_numbers_nth (a : list T) i x :
  all_numbers a = true -> nth_error a i = Some x -> number x.
Proof.
  unfold all_numbers. rewrite forallb_forall. intros Ha Hx.
  apply Ha. eapply nth_error_In. exact Hx.
Qed.

Lemma first_max_unique (a : list T) k k' m m' :
  first_max a k m -> first_max a k' m' -> k = k'.
Proof.
  intros (Hk & Hmax & Hfirst) (Hk' & Hmax' & Hfirst').
  destruct (Nat.lt_trichotomy k k') as [L|[E|L]]; [|exact E|].
  - specialize (Hfirst' _ _ L Hk). specialize (Hmax _ _ Hk'). congruence.
  - specialize (Hfirst _ _ L Hk'). specialize (Hmax' _ _ Hk). congruence.
Qed.

(** The scan keeps the invariant "[mp] is the first maximum of the part
    already read" and so ends on the first maximum of the whole array. *)
Lemma argmax_scan_correct :
  forall (a pre : list T) (mp : T) (best : nat),
    all_numbers (pre ++ a) = true ->
    first_max pre best mp ->
    exists m, first_max (pre ++ a) (argmax_scan mp best (length pre) a) m.
Proof.
  induction a as [|x a IH]; intros pre mp best Hnum Hinv.
  - exists mp. rewrite app_nil_r. exact Hinv.
  - destruct Hinv as (Hbest & Hmax & Hfirst).
    assert (Nx : number x).
    { eapply all_numbers_nth with (i := length pre); [exact Hnum|].
      rewrite nth_error_app2, Nat.sub_diag by lia. reflexivity. }
    assert (Nmp : number mp).
    { eapply all_numbers_nth with (i := best); [exact Hnum|].
      rewrite nth_error_app1 by (apply nth_error_Some; congruence). exact Hbest. }
    assert (Npre : forall j y, nth_error pre j = Some y -> number y).
    { intros j y Hy. eapply all_numbers_nth with (i := j); [exact Hnum|].
      rewrite nth_error_app1 by (apply nth_error_Some; congruence). exact Hy. }
    replace (pre ++ x :: a) with ((pre ++ [x]) ++ a) in *
      by (rewrite <- app_assoc; reflexivity).
    cbn [argmax_scan]. rewrite (leb_ltb x mp Nx Nmp), negb_involutive.
    replace (S (length pre)) with (length (pre ++ [x]))
      by (rewrite length_app; simpl; lia).
    destruct (ltb mp x) eqn:Hlt.
    + unfold isnan. rewrite Nx. cbn [negb].
      replace (length pre) with (length (pre ++ [x]) - 1) at 1
        by (rewrite length_app; simpl; lia).
      replace (length (pre ++ [x]) - 1) with (length pre)
        by (rewrite length_app; simpl; lia).
      apply IH; [exact Hnum|]. split; [|split].
      * rewrite nth_error_app2, Nat.sub_diag by lia. reflexivity.
      * intros j y Hy. destruct (Nat.lt_ge_cases j (length pre)) as [L|G].
        -- rewrite nth_error_app1 in Hy by exact L.
           destruct (ltb x y) eqn:Hxy; [|reflexivity].
           rewrite <- (Hmax _ _ Hy). symmetry. exact (ltb_trans _ _ _ Hlt Hxy).
        -- rewrite nth_error_app2 in Hy by exact G.
           destruct (j - length pre) as [|n]; simpl in Hy.
           ++ injection Hy as <-. apply ltb_irrefl.
           ++ destruct n; discriminate.
      * intros j y L Hy. rewrite nth_error_app1 in Hy by exact L.
        destruct (ltb y x) eqn:Hyx; [reflexivity|].
        rewrite <- Hlt. symmetry.
        exact (ltb_negtrans mp y x Nmp (Npre _ _ Hy) Nx (Hmax _ _ Hy) Hyx).
    + apply IH; [exact Hnum|]. split; [|split].
      * rewrite nth_error_app1 by (apply nth_error_Some; congruence). exact Hbest.
      * intros j y Hy. destruct (Nat.lt_ge_cases j (length pre)) as [L|G].
        -- rewrite nth_error_app1 in Hy by exact L. exact (Hmax _ _ Hy).
        -- rewrite nth_error_app2 in Hy by exact G.
           destruct (j - length pre) as [|n]; simpl in Hy.
           ++ injection Hy as <-. exact Hlt.
           ++ destruct n; discriminate.
      * intros j y L Hy.
        assert (Lb : best < length pre) by (apply nth_error_Some; congruence).
        rewrite nth_error_app1 in Hy by lia. exact (Hfirst _ _ L Hy).
Qed.

(** [argmax] of a non-empty array without NaN is the index of the first
    maximum. *)
Lemma argmax_first_max (a : list T) :
  a <> [] -> all_numbers a = true ->
  exists k m, argmax a = Ok k /\ first_max a k m.
Proof.
  destruct a as [|x a]; [congruence|]. intros _ Hnum.
  assert (Nx : number x).
  { eapply all_numbers_nth with (i := 0); [exact Hnum|reflexivity]. }
  unfold argmax, isnan. rewrite Nx. cbn [negb].
  destruct (argmax_scan_correct a [x] x 0) as [m Hm].
  - exact Hnum.
  - split; [reflexivity|]. split.
    + intros [|[|j]] y Hy; simpl in Hy; try discriminate.
      injection Hy as <-. apply ltb_irrefl.
    + intros j y L. lia.
  - exists (argmax_scan x 0 1 a), m. split; [reflexivity|exact Hm].
Qed.

Lemma maximum_number (a b : T) :
  number a -> number b -> maximum a b = if ltb a b then b else a.
Proof.
  intros Na Nb. unfold maximum, isnan.
  rewrite (leb_ltb b a Nb Na), Na. cbn [negb]. rewrite orb_false_r.
  destruct (ltb a b); reflexivity.
Qed.

Lemma fold_maximum_spec :
  forall (l : list T) (acc : T),
    number acc -> all_numbers l = true ->
    let m := fold_left maximum l acc in
    number m /\ (m = acc \/ In m l) /\ ltb m acc = false /\
    (forall x, In x l -> ltb m x = false).
Proof.
  induction l as [|x l IH]; intros acc Nacc Hnum; cbn [fold_left].
  - repeat split; auto using ltb_irrefl. intros x [].
  - apply andb_true_iff in Hnum. destruct Hnum as [Nx Hnum].
    fold (all_numbers l) in Hnum. change (number x) in Nx.
    rewrite (maximum_number acc x Nacc Nx).
    destruct (ltb acc x) eqn:Hlt.
    + destruct (IH x Nx Hnum) as (Nm & Hin & Hx & Hall).
      split; [exact Nm|]. split; [right; destruct Hin; [left; congruence|right; assumption]|].
      split.
      * destruct (ltb (fold_left maximum l x) acc) eqn:C; [|reflexivity].
        rewrite <- Hx. symmetry. exact (ltb_trans _ _ _ C Hlt).
      * intros y [<-|Hy]; [exact Hx|exact (Hall _ Hy)].
    + destruct (IH acc Nacc Hnum) as (Nm & Hin & Hacc & Hall).
      split; [exact Nm|]. split; [destruct Hin; [left|right; right]; assumption|].
      split; [exact Hacc|].
      intros y [<-|Hy]; [|exact (Hall _ Hy)].
      exact (ltb_negtrans _ acc _ Nm Nacc Nx Hacc Hlt).
Qed.

(** [max] of a non-empty array without NaN is an element that nothing
    exceeds. *)
Lemma np_max_spec (a : list T) :
  a <> [] -> all_numbers a = true ->
  exists m, np_max a = Ok m /\ number m /\ In m a /\
            (forall x, In x a -> ltb m x = false).
Proof.
  destruct a as [|x a]; [congruence|]. intros _ Hnum.
  apply andb_true_iff in Hnum. destruct Hnum as [Nx Hnum].
  destruct (fold_maximum_spec a x Nx Hnum) as (Nm & Hin & Hx & Hall).
  exists (fold_left maximum a x). split; [reflexivity|]. split; [exact Nm|].
  split; [destruct Hin; [left; congruence|right; assumption]|].
  intros y [<-|Hy]; [exact Hx|exact (Hall _ Hy)].
Qed.

(** Two maxima compare equal. *)
Lemma maxima_eqb (a : list T) (m m' : T) :
  number m -> number m' -> In m a -> In m' a ->
  (forall x, In x a -> ltb m x = false) ->
  (forall x, In x a -> ltb m' x = false) ->
  eqb m m' = true.
Proof.
  intros Nm Nm' Hin Hin' Hmax Hmax'.
  rewrite (eqb_ltb m m' Nm Nm'), (Hmax _ Hin'), (Hmax' _ Hin). reflexivity.
Qed.

Lemma filter_single {A} (p : A -> bool) :
  forall (l : list A) (k : nat) (x : A),
    length (filter p l) = 1 -> nth_error l k = Some x -> p x = true ->
    filter p l = [x].
Proof.
  induction l as [|y l IH]; intros k x Hlen Hk Hp.
  - destruct k; discriminate.
  - cbn [filter] in *. destruct k as [|k]; cbn [nth_error] in Hk.
    + injection Hk as ->. rewrite Hp in *. cbn [length] in Hlen.
      destruct (filter p l); [reflexivity|discriminate].
    + destruct (p y) eqn:Hy.
      * cbn [length] in Hlen.
        assert (Hin : In x (filter p l)).
        { apply filter_In. split; [eapply nth_error_In; exact Hk|exact Hp]. }
        destruct (filter p l); [destruct Hin|discriminate].
      * exact (IH k x Hlen Hk Hp).
Qed.

Lemma filter_map_length {A B} (f : A -> B) (p : B -> bool) (l : list A) :
  length (filter p (map f l)) = length (filter (fun a => p (f a)) l).
Proof.
  induction l as [|a l IH]; [reflexivity|].
  cbn [map filter]. destruct (p (f a)); cbn [length]; rewrite IH; reflexivity.
Qed.

Lemma mask_select {A} (f : A -> bool) (l : list A) :
  map fst (filter snd (combine l (map f l))) = filter f l.
Proof.
  induction l as [|a l IH]; [reflexivity|].
  cbn [map combine filter snd]. destruct (f a); cbn [map fst]; rewrite IH; reflexivity.
Qed.

Lemma increasing_head (t0 : T) (l : list T) :
  increasing (t0 :: l) = true -> forall x, In x l -> ltb t0 x = true.
Proof.
  revert t0. induction l as [|t1 l IH]; intros t0 Hinc x Hx; [destruct Hx|].
  cbn [increasing] in Hinc. apply andb_true_iff in Hinc. destruct Hinc as [H01 Hinc].
  destruct Hx as [<-|Hx]; [exact H01|].
  exact (ltb_trans _ _ _ H01 (IH t1 Hinc x Hx)).
Qed.

Lemma increasing_tail (t0 : T) (l : list T) :
  increasing (t0 :: l) = true -> increasing l = true.
Proof.
  destruct l as [|t1 l]; [reflexivity|].
  cbn [increasing]. intros Hinc. apply andb_true_iff in Hinc. apply Hinc.
Qed.

Lemma filter_all {A} (p : A -> bool) (l : list A) :
  (forall x, In x l -> p x = true) -> filter p l = l.
Proof.
  induction l as [|a l IH]; intros Hall; [reflexivity|].
  cbn [filter]. rewrite (Hall a (or_introl eq_refl)).
  f_equal. apply IH. intros x Hx. apply Hall. right. exact Hx.
Qed.

Lemma filter_none {A} (p : A -> bool) (l : list A) :
  (forall x, In x l -> p x = false) -> filter p l = [].
Proof.
  induction l as [|a l IH]; intros Hall; [reflexivity|].
  cbn [filter]. rewrite (Hall a (or_introl eq_refl)).
  apply IH. intros x Hx. apply Hall. right. exact Hx.
Qed.

(** In a series with increasing times, the rows later than row [k] are
    those after it, and the rows earlier than row [k] are those before. *)
Lemma later_rows :
  forall (d : list (T * T)) (k : nat) (r : T * T),
    increasing (map fst d) = true -> nth_error d k = Some r ->
    filter (fun r' => gtb (fst r') (fst r)) d = skipn (S k) d.
Proof.
  unfold gtb.
  induction d as [|r0 d IH]; intros k r Hinc Hk; [destruct k; discriminate|].
  cbn [map] in Hinc. destruct k as [|k]; cbn [nth_error] in Hk.
  - injection Hk as ->. cbn [filter skipn]. rewrite ltb_irrefl.
    apply filter_all. intros x Hx.
    apply (increasing_head _ _ Hinc). apply in_map. exact Hx.
  - cbn [filter]. 
    assert (Hr0 : ltb (fst r0) (fst r) = true).
    { apply (increasing_head _ _ Hinc). apply in_map.
      eapply nth_error_In. exact Hk. }
    rewrite (ltb_asym _ _ Hr0).
    exact (IH k r (increasing_tail _ _ Hinc) Hk).
Qed.

Lemma earlier_rows :
  forall (d : list (T * T)) (k : nat) (r : T * T),
    increasing (map fst d) = true -> nth_error d k = Some r ->
    filter (fun r' => ltb (fst r') (fst r)) d = firstn k d /\
    filter (fun r' => negb (ltb (fst r') (fst r))) d = skipn k d.
Proof.
  induction d as [|r0 d IH]; intros k r Hinc Hk; [destruct k; discriminate|].
  cbn [map] in Hinc. destruct k as [|k]; cbn [nth_error] in Hk.
  - injection Hk as ->. cbn [filter firstn skipn]. rewrite ltb_irrefl. cbn [negb].
    assert (Hlater : forall x, In x d -> ltb (fst x) (fst r) = false).
    { intros x Hx. apply ltb_asym.
      apply (increasing_head _ _ Hinc). apply in_map. exact Hx. }
    split.
    + apply filter_none. exact Hlater.
    + f_equal. apply filter_all. intros x Hx. rewrite (Hlater x Hx). reflexivity.
  - cbn [filter firstn skipn].
    assert (Hr0 : ltb (fst r0) (fst r) = true).
    { apply (increasing_head _ _ Hinc). apply in_map.
      eapply nth_error_In. exact Hk. }
    rewrite Hr0. cbn [negb].
    destruct (IH k r (increasing_tail _ _ Hinc) Hk) as [E1 E2].
    rewrite E1, E2. split; reflexivity.
Qed.

Lemma combine_fst_snd {A B} (l : list (A * B)) :
  combine (map fst l) (map snd l) = l.
Proof.
  induction l as [|[a b] l IH]; [reflexivity|]. cbn. rewrite IH. reflexivity.
Qed.

Lemma combine_skipn {A B} :
  forall (k : nat) (a : list A) (b : list B),
    combine (skipn k a) (skipn k b) = skipn k (combine a b).
Proof.
  induction k as [|k IH]; intros a b; [reflexivity|].
  destruct a as [|x a]; [reflexivity|].
  destruct b as [|y b]; [cbn; destruct (skipn k a); reflexivity|].
  cbn. apply IH.
Qed.

Lemma loadtxt_unpack_ok (rows : list (T * T)) :
  2 <= length rows -> loadtxt_unpack rows = Ok (map fst rows, map snd rows).
Proof.
  destruct rows as [|r0 [|r1 rows]]; cbn [length]; intros L; try lia. reflexivity.
Qed.

(** The argmax slice keeps the rows from the first maximum onward. *)
Lemma slice_truncate_skipn (rows : list (T * T)) :
  2 <= length rows -> all_numbers (map snd rows) = true ->
  exists k m,
    argmax (map snd rows) = Ok k /\ first_max (map snd rows) k m /\
    slice_truncate rows = Ok (skipn k (map fst rows), skipn k (map snd rows)) /\
    rows_of (skipn k (map fst rows), skipn k (map snd rows)) = skipn k rows.
Proof.
  intros L Hnum.
  destruct (argmax_first_max (map snd rows)) as (k & m & Hk & Hm).
  - destruct rows; [cbn in L; lia|discriminate].
  - exact Hnum.
  - exists k, m. split; [exact Hk|]. split; [exact Hm|]. split.
    + unfold slice_truncate. rewrite (loadtxt_unpack_ok rows L).
      cbn [bind]. rewrite Hk. reflexivity.
    + unfold rows_of. cbn [fst snd]. rewrite combine_skipn, combine_fst_snd.
      reflexivity.
Qed.

(** With increasing times and a single maximum, the boolean mask keeps the
    rows after the maximum. *)
Lemma mask_truncate_skipn (rows : list (T * T)) (k : nat) (m : T) :
  2 <= length rows -> all_numbers (map snd rows) = true ->
  increasing (map fst rows) = true -> single_peak (map snd rows) = true ->
  first_max (map snd rows) k m ->
  mask_truncate rows = Ok (skipn (S k) rows).
Proof.
  intros L Hnum Hinc Hsingle (Hk & Hmax & _).
  assert (Hne : map snd rows <> []) by (destruct rows; [cbn in L; lia|discriminate]).
  destruct (np_max_spec (map snd rows) Hne Hnum) as (mx & Emx & Nmx & Hin & Hall).
  unfold single_peak in Hsingle. rewrite Emx in Hsingle.
  apply Nat.eqb_eq in Hsingle. rewrite filter_map_length in Hsingle.
  destruct (nth_error rows k) as [r|] eqn:Hr;
    [|rewrite nth_error_map, Hr in Hk; discriminate].
  assert (Er : snd r = m).
  { rewrite nth_error_map, Hr in Hk. cbn in Hk. congruence. }
  assert (Nm : number m).
  { eapply all_numbers_nth; [exact Hnum|exact Hk]. }
  assert (Hpeak : eqb (snd r) mx = true).
  { rewrite Er. apply (maxima_eqb (map snd rows)); auto.
    - eapply nth_error_In. exact Hk.
    - intros x Hx. destruct (In_nth_error _ _ Hx) as [jx Hjx]. exact (Hmax _ _ Hjx). }
  pose proof (filter_single (fun r' => eqb (snd r') mx) rows k r Hsingle Hr Hpeak) as Hfilter.
  unfold mask_truncate, loadtxt_2d, row.
  destruct (Nat.ltb_spec (length rows) 2) as [C|_]; [lia|].
  cbn [bind]. rewrite Emx. cbn [bind]. rewrite Hfilter. cbn [map].
  unfold broadcast2. rewrite length_map. cbn [length].
  destruct (Nat.eqb_spec (length rows) 1) as [C|_]; [lia|].
  destruct rows as [|r0 [|r1 rows']]; cbn [length] in L; try lia.
  cbn [map]. cbn [bind].
  unfold boolean_index. change (gtb (fst r0) (fst r) :: gtb (fst r1) (fst r)
      :: map (fun x => gtb x (fst r)) (map fst rows'))
    with (map (fun x => gtb x (fst r)) (map fst (r0 :: r1 :: rows'))).
  rewrite !length_map, Nat.eqb_refl, map_map.
  rewrite (mask_select (fun r' => gtb (fst r') (fst r))).
  f_equal. exact (later_rows _ k r Hinc Hr).
Qed.
End Facts.
End TruncationFacts.

(** C2: the boolean-mask cell breaks the claim.  On [peak_example] the
    maximum count is at row 1.  The argmax slice keeps rows 1 and 2, as the
    claim and the comment of both cells say; the mask compares the times
    with the peak time by a strict [>] and keeps row 2 only, so the row of
    the intensity peak is removed, and the time that the cell then takes as
    zero is that of the row after the peak. *)
Theorem mask_truncate_drops_peak_row :
  Truncation.argmax (map snd Truncation.peak_example) = Ok 1 /\
  Truncation.slice_truncate Truncation.peak_example =
    Ok ([0.1; 0.2]%float, [5.0; 3.0]%float) /\
  Truncation.mask_truncate Truncation.peak_example = Ok [(0.2, 3.0)%float] /\
  Truncation.mask_truncate Truncation.peak_example <>
    Ok (skipn 1 Truncation.peak_example).
Proof.
  split; [vm_compute; reflexivity|].
  split; [vm_compute; reflexivity|].
  split; [vm_compute; reflexivity|].
  vm_compute. intros E. discriminate E.
Qed.

(** X1: the argmax slice truncates at the peak.  For every dataset of at
    least two rows whose counts are numbers, it discards exactly the rows
    before the first row of maximum count and keeps every row from it
    onward; when the times increase these are the rows whose time precedes
    the peak time and the rows whose time does not.  The boolean mask, when
    moreover the maximum is attained once, loses the peak row as well. *)
Theorem truncation_discards_rows_before_peak
  {T : Type} `{OrderLaws T} (rows : list (T * T)) :
  2 <= length rows ->
  Truncation.all_numbers (map snd rows) = true ->
  exists (k : nat) (m : T),
    Truncation.first_max (map snd rows) k m /\
    (exists tF, Truncation.slice_truncate rows = Ok tF /\
                Truncation.rows_of tF = skipn k rows) /\
    (Truncation.increasing (map fst rows) = true ->
     (forall r, nth_error rows k = Some r ->
        firstn k rows = filter (fun r' => ltb (fst r') (fst r)) rows /\
        skipn k rows = filter (fun r' => negb (ltb (fst r') (fst r))) rows) /\
     (Truncation.single_peak (map snd rows) = true ->
        Truncation.mask_truncate rows = Ok (skipn (S k) rows))).
Proof.
  intros L Hnum.
  destruct (TruncationFacts.slice_truncate_skipn rows L Hnum)
    as (k & m & _ & Hm & Hslice & Hrows).
  exists k, m. split; [exact Hm|]. split.
  - eexists. split; [exact Hslice|exact Hrows].
  - intros Hinc. split.
    + intros r Hr.
      destruct (TruncationFacts.earlier_rows rows k r Hinc Hr) as [E1 E2].
      split; congruence.
    + intros Hsingle.
      exact (TruncationFacts.mask_truncate_skipn rows k m L Hnum Hinc Hsingle Hm).
Qed.

(** On binary64 data: [peak_example]. *)
Lemma truncation_discards_rows_before_peak_witness :
  exists (k : nat) (m : float),
    Truncation.first_max (map snd Truncation.peak_example) k m /\
    (exists tF, Truncation.slice_truncate Truncation.peak_example = Ok tF /\
                Truncation.rows_of tF = skipn k Truncation.peak_example) /\
    (Truncation.increasing (map fst Truncation.peak_example) = true ->
     (forall r, nth_error Truncation.peak_example k = Some r ->
        firstn k Truncation.peak_example =
          filter (fun r' => ltb (fst r') (fst r)) Truncation.peak_example /\
        skipn k Truncation.peak_example =
          filter (fun r' => negb (ltb (fst r') (fst r))) Truncation.peak_example) /\
     (Truncation.single_peak (map snd Truncation.peak_example) = true ->
        Truncation.mask_truncate Truncation.peak_example =
          Ok (skipn (S k) Truncation.peak_example))).
Proof.
  apply (truncation_discards_rows_before_peak Truncation.peak_example).
  - simpl. lia.
  - reflexivity.
Defined.

(** C8: the two truncations are not equivalent.  On [peak_example4] the
    maximum count is at row 2; the argmax slice keeps rows 2 and 3, the
    boolean mask keeps row 3 only. *)
Theorem mask_and_slice_differ :
  Truncation.mask_truncate Truncation.peak_example4 = Ok [(1.5, 6.0)%float] /\
  Truncation.slice_truncate Truncation.peak_example4 =
    Ok ([1.0; 1.5]%float, [9.0; 6.0]%float) /\
  forall tF, Truncation.slice_truncate Truncation.peak_example4 = Ok tF ->
    Truncation.mask_truncate Truncation.peak_example4 <> Ok (Truncation.rows_of tF).
Proof.
  split; [vm_compute; reflexivity|].
  split; [vm_compute; reflexivity|].
  intros tF E. vm_compute in E. injection E as <-.
  vm_compute. intros C. discriminate C.
Qed.

(** How far the two truncations are apart: for a dataset of at least two
    rows whose counts are numbers, whose times increase and whose maximum
    count is attained once, the argmax slice retains the row of the maximum
    followed by exactly the rows that the boolean mask retains. *)
Theorem slice_is_peak_then_mask
  {T : Type} `{OrderLaws T} (rows : list (T * T)) :
  2 <= length rows ->
  Truncation.all_numbers (map snd rows) = true ->
  Truncation.increasing (map fst rows) = true ->
  Truncation.single_peak (map snd rows) = true ->
  exists (peak : T * T) (rest : list (T * T)) tF,
    Truncation.slice_truncate rows = Ok tF /\
    Truncation.rows_of tF = peak :: rest /\
    Truncation.mask_truncate rows = Ok rest /\
    In peak rows /\ (forall r, In r rows -> ltb (snd peak) (snd r) = false).
Proof.
  intros L Hnum Hinc Hsingle.
  destruct (TruncationFacts.slice_truncate_skipn rows L Hnum)
    as (k & m & _ & Hm & Hslice & Hrows).
  pose proof (TruncationFacts.mask_truncate_skipn rows k m L Hnum Hinc Hsingle Hm)
    as Hmask.
  destruct Hm as (Hk & Hmax & _).
  rewrite nth_error_map in Hk.
  destruct (nth_error rows k) as [peak|] eqn:Hpeak; [|discriminate].
  cbn in Hk. injection Hk as Hk.
  exists peak, (skipn (S k) rows). eexists.
  split; [exact Hslice|]. split.
  - rewrite Hrows. clear - Hpeak. revert k Hpeak.
    induction rows as [|r rows IH]; intros [|k] Hk; try discriminate.
    + injection Hk as ->. reflexivity.
    + cbn [nth_error] in Hk. cbn [skipn]. rewrite (IH k Hk). reflexivity.
  - split; [exact Hmask|]. split; [eapply nth_error_In; exact Hpeak|].
    intros r Hr. rewrite Hk.
    destruct (In_nth_error _ _ Hr) as [j Hj].
    apply (Hmax j). rewrite nth_error_map, Hj. reflexivity.
Qed.

(** On binary64 data: [peak_example4]. *)
Lemma slice_is_peak_then_mask_witness :
  exists (peak : float * float) (rest : list (float * float)) tF,
    Truncation.slice_truncate Truncation.peak_example4 = Ok tF /\
    Truncation.rows_of tF = peak :: rest /\
    Truncation.mask_truncate Truncation.peak_example4 = Ok rest /\
    In peak Truncation.peak_example4 /\
    (forall r, In r Truncation.peak_example4 -> ltb (snd peak) (snd r) = false).
Proof.
  apply (slice_is_peak_then_mask Truncation.peak_example4).
  - simpl. lia.
  - reflexivity.
  - reflexivity.
  - reflexivity.
Defined.

(** ** The standard errors from the singular value decomposition *)

Module ErrorAnalysisFacts.
Import Truncation ErrorAnalysis.
Section Facts.
Context {T : Type} `{OrderLaws T}.

Lemma non_increasing_head (a : T) (s : list T) :
  non_increasing (a :: s) = true -> all_numbers (a :: s) = true ->
  forall b, In b s -> ltb a b = false.
Proof.
  revert a. induction s as [|c s IH]; intros a Hs Hnum b Hb; [destruct Hb|].
  cbn [non_increasing] in Hs. apply andb_true_iff in Hs. destruct Hs as [Hac Hs].
  apply negb_true_iff in Hac.
  cbn [all_numbers forallb] in Hnum.
  apply andb_true_iff in Hnum. destruct Hnum as [Na Hnum].
  pose proof Hnum as Hnum'.
  apply andb_true_iff in Hnum'. destruct Hnum' as [Nc Hnums].
  destruct Hb as [<-|Hb]; [exact Hac|].
  assert (Nb : number b).
  { unfold all_numbers in Hnums. rewrite forallb_forall in Hnums. exact (Hnums b Hb). }
  apply (ltb_negtrans a c b Na Nc Nb Hac).
  exact (IH c Hs Hnum b Hb).
Qed.

(** Below the threshold once, below it ever after: the singular values
    that exceed the threshold form a prefix, so truncating [VT] to as many
    rows selects the matching singular vectors. *)
Lemma kept_values_prefix (thr : T) :
  forall (s : list T) (VT : list (list T)),
    number thr -> non_increasing s = true -> all_numbers s = true ->
    filter (fun vs => gtb (snd vs) thr) (combine VT s) =
    combine (firstn (length (filter (fun si => gtb si thr) s)) VT)
            (filter (fun si => gtb si thr) s).
Proof.
  unfold gtb.
  induction s as [|a s IH]; intros VT Nt Hs Hnum.
  - destruct VT; reflexivity.
  - destruct VT as [|v VT].
    { cbn [combine filter]. rewrite firstn_nil. reflexivity. }
    cbn [combine filter snd].
    assert (Hs' : non_increasing s = true).
    { destruct s as [|b s]; [reflexivity|].
      cbn [non_increasing] in Hs. apply andb_true_iff in Hs. apply Hs. }
    pose proof Hnum as Hnum0.
    cbn [all_numbers forallb] in Hnum. apply andb_true_iff in Hnum.
    destruct Hnum as [Na Hnum].
    destruct (ltb thr a) eqn:Hta.
    + cbn [length firstn combine]. f_equal. exact (IH VT Nt Hs' Hnum).
    + assert (Hnone : forall b, In b s -> ltb thr b = false).
      { intros b Hb.
        assert (Nb : number b).
        { unfold all_numbers in Hnum. rewrite forallb_forall in Hnum. exact (Hnum b Hb). }
        apply (ltb_negtrans thr a b Nt Na Nb Hta).
        exact (non_increasing_head a s Hs Hnum0 b Hb). }
      rewrite (TruncationFacts.filter_none (fun si => ltb thr si) s Hnone).
      cbn [length firstn combine].
      apply TruncationFacts.filter_none.
      intros [v' b] Hin. cbn [snd]. apply Hnone.
      eapply in_combine_r. exact Hin.
Qed.

Lemma kept_length_le (thr : T) (s : list T) :
  length (filter (fun si => gtb si thr) s) <= length s.
Proof.
  induction s as [|a s IH]; [reflexivity|].
  cbn [filter]. destruct (gtb a thr); cbn [length]; lia.
Qed.
End Facts.

Section Algebra.
Context {T : Type} `{NumOps T}.

Lemma dot_columns (n a b : nat) :
  a < n ->
  forall (VT : list (list T)) (s : list T),
    Forall (fun v => length v = n) VT ->
    zip_with mul (column a (scale_rows VT s)) (column b VT) =
    map (fun vs => mul (div (nth a (fst vs) (of_Z 0)) (mul (snd vs) (snd vs)))
                       (nth b (fst vs) (of_Z 0)))
        (combine VT s).
Proof.
  intros La.
  induction VT as [|v VT IH]; intros [|sj s] Hrows; try reflexivity.
  inversion Hrows as [|v' VT' Lv Hrows']; subst.
  cbn [scale_rows zip_with column map combine fst snd].
  f_equal.
  - rewrite (nth_indep _ (of_Z 0) (div (of_Z 0) (mul sj sj)))
      by (rewrite length_map; exact La).
    rewrite (map_nth (fun vi => div vi (mul sj sj))). reflexivity.
  - apply IH. exact Hrows'.
Qed.

Lemma diag_pcov (n : nat) (VT : list (list T)) (s : list T) (s_sq : T) :
  diag (pcov_of n VT s s_sq) =
  map (fun a => mul (dot (column a (scale_rows VT s)) (column a VT)) s_sq)
      (seq 0 n).
Proof.
  unfold diag, pcov_of. rewrite length_map, length_seq.
  apply map_ext_in. intros a Ha. apply in_seq in Ha.
  set (f := fun a0 => map (fun b => mul (dot (column a0 (scale_rows VT s))
                                             (column b VT)) s_sq) (seq 0 n)).
  rewrite (nth_indep _ [] (f 0)) by (rewrite length_map, length_seq; lia).
  rewrite (map_nth f), seq_nth by lia. cbn [Nat.add]. unfold f.
  set (g := fun b => mul (dot (column a (scale_rows VT s)) (column b VT)) s_sq).
  rewrite (nth_indep _ (of_Z 0) (g 0)) by (rewrite length_map, length_seq; lia).
  rewrite (map_nth g), seq_nth by lia. reflexivity.
Qed.
End Algebra.
End ErrorAnalysisFacts.

(** ** The pseudo-inverse satisfies the Moore-Penrose conditions *)

Module MoorePenroseFacts.
Import MoorePenrose.
Local Open Scope R_scope.

Lemma fold_plus_acc (l : list R) (acc : R) :
  fold_left Rplus l acc = acc + sum l.
Proof.
  unfold sum. revert acc. induction l as [|x l IH]; intros acc; cbn [fold_left].
  - ring.
  - rewrite (IH (acc + x)), (IH (0 + x)). ring.
Qed.

Lemma sum_cons (x : R) (l : list R) : sum (x :: l) = x + sum l.
Proof. unfold sum at 1. cbn [fold_left]. rewrite fold_plus_acc. ring. Qed.

Lemma sum_nil : sum [] = 0.
Proof. reflexivity. Qed.

Lemma sum_map_ext {A} (f g : A -> R) (l : list A) :
  (forall x, In x l -> f x = g x) -> sum (map f l) = sum (map g l).
Proof.
  intros E. f_equal. apply map_ext_in. exact E.
Qed.

Lemma sum_map_plus {A} (f g : A -> R) (l : list A) :
  sum (map (fun x => f x + g x) l) = sum (map f l) + sum (map g l).
Proof.
  induction l as [|x l IH]; cbn [map]; rewrite ?sum_nil, ?sum_cons, ?IH; ring.
Qed.

Lemma sum_map_scal {A} (k : R) (f : A -> R) (l : list A) :
  sum (map (fun x => k * f x) l) = k * sum (map f l).
Proof.
  induction l as [|x l IH]; cbn [map]; rewrite ?sum_nil, ?sum_cons, ?IH; ring.
Qed.

Lemma sum_map_zero {A} (f : A -> R) (l : list A) :
  (forall x, In x l -> f x = 0) -> sum (map f l) = 0.
Proof.
  induction l as [|x l IH]; intros Z; cbn [map]; rewrite ?sum_nil, ?sum_cons.
  - reflexivity.
  - rewrite (Z x (or_introl eq_refl)), IH; [ring|].
    intros y Hy. apply Z. right. exact Hy.
Qed.

Lemma vdot_sym (n : nat) (v w : list R) : vdot n v w = vdot n w v.
Proof. unfold vdot. apply sum_map_ext. intros x _. ring. Qed.

Lemma contract_right (n : nat) (g : R -> R) (v : list R) (b : nat) :
  forall Q : list quad,
    (forall w, In w (map qq Q) -> vdot n v w = 0) ->
    sum (map (fun x => nth x v 0 * right_sum g Q x b) (seq 0 n)) = 0.
Proof.
  induction Q as [|t Q IH]; intros Hv.
  - apply sum_map_zero. intros x _. unfold right_sum. cbn [map]. rewrite sum_nil. ring.
  - rewrite (sum_map_ext _
      (fun x => (g (qs t) * nth b (qr t) 0) * (nth x v 0 * nth x (qq t) 0)
                + nth x v 0 * right_sum g Q x b)).
    + rewrite sum_map_plus, sum_map_scal.
      fold (vdot n v (qq t)). rewrite (Hv (qq t) (or_introl eq_refl)).
      rewrite IH; [ring|]. intros w Hw. apply Hv. right. exact Hw.
    + intros x _. unfold right_sum. cbn [map]. rewrite sum_cons. ring.
Qed.

Lemma contract_left (n : nat) (f : R -> R) (v : list R) (a : nat) :
  forall Q : list quad,
    (forall w, In w (map qq Q) -> vdot n v w = 0) ->
    sum (map (fun x => left_sum f Q a x * nth x v 0) (seq 0 n)) = 0.
Proof.
  induction Q as [|t Q IH]; intros Hv.
  - apply sum_map_zero. intros x _. unfold left_sum. cbn [map]. rewrite sum_nil. ring.
  - rewrite (sum_map_ext _
      (fun x => (f (qs t) * nth a (qp t) 0) * (nth x v 0 * nth x (qq t) 0)
                + left_sum f Q a x * nth x v 0)).
    + rewrite sum_map_plus, sum_map_scal.
      fold (vdot n v (qq t)). rewrite (Hv (qq t) (or_introl eq_refl)).
      rewrite IH; [ring|]. intros w Hw. apply Hv. right. exact Hw.
    + intros x _. unfold left_sum. cbn [map]. rewrite sum_cons. ring.
Qed.

Lemma product_of_sums (n : nat) (f g : R -> R) (a b : nat) :
  forall Q : list quad,
    orthonormal n (map qq Q) ->
    sum (map (fun x => left_sum f Q a x * right_sum g Q x b) (seq 0 n)) =
    outer_sum (fun s => f s * g s) Q a b.
Proof.
  induction Q as [|t Q IH]; intros Ho.
  - unfold outer_sum. cbn [map]. rewrite sum_nil.
    apply sum_map_zero. intros x _. unfold left_sum. cbn [map]. rewrite sum_nil. ring.
  - cbn [map] in Ho. inversion Ho as [|v vs Hunit Horth Hrest]; subst.
    rewrite (sum_map_ext _
      (fun x => ((f (qs t) * g (qs t) * nth a (qp t) 0 * nth b (qr t) 0)
                 * (nth x (qq t) 0 * nth x (qq t) 0)
                 + (f (qs t) * nth a (qp t) 0) * (nth x (qq t) 0 * right_sum g Q x b))
                + ((g (qs t) * nth b (qr t) 0) * (left_sum f Q a x * nth x (qq t) 0)
                   + left_sum f Q a x * right_sum g Q x b))).
    + rewrite !sum_map_plus, !sum_map_scal.
      fold (vdot n (qq t) (qq t)). rewrite Hunit.
      rewrite (contract_right n g (qq t) b Q Horth).
      rewrite (contract_left n f (qq t) a Q Horth).
      rewrite (IH Hrest).
      unfold outer_sum. cbn [map]. rewrite sum_cons. ring.
    + intros x _. unfold left_sum, right_sum. cbn [map]. rewrite !sum_cons. ring.
Qed.
Lemma outer_sum_ext (h h' : R -> R) (Q : list quad) (a b : nat) :
  (forall t, In t Q -> h (qs t) = h' (qs t)) ->
  outer_sum h Q a b = outer_sum h' Q a b.
Proof.
  intros E. unfold outer_sum. apply sum_map_ext. intros t Ht.
  rewrite (E t Ht). reflexivity.
Qed.

Lemma mat_mul_ext (n : nat) (A A' B B' : nat -> nat -> R) (a b : nat) :
  (forall x y, A x y = A' x y) -> (forall x y, B x y = B' x y) ->
  mat_mul n A B a b = mat_mul n A' B' a b.
Proof.
  intros EA EB. unfold mat_mul. apply sum_map_ext. intros x _.
  rewrite EA, EB. reflexivity.
Qed.

Lemma sym_left (f : R -> R) (K : list (list R * R)) (a b : nat) :
  left_sum f (sym_quads K) a b = outer_sum f (sym_quads K) a b.
Proof.
  unfold left_sum, outer_sum, sym_quads. rewrite !map_map. reflexivity.
Qed.

Lemma sym_right (f : R -> R) (K : list (list R * R)) (a b : nat) :
  right_sum f (sym_quads K) a b = outer_sum f (sym_quads K) a b.
Proof.
  unfold right_sum, outer_sum, sym_quads. rewrite !map_map. reflexivity.
Qed.

Lemma sym_outer_sym (f : R -> R) (K : list (list R * R)) (a b : nat) :
  outer_sum f (sym_quads K) a b = outer_sum f (sym_quads K) b a.
Proof.
  unfold outer_sum, sym_quads. rewrite !map_map.
  apply sum_map_ext. intros vs _. cbn [qs qp qr fst snd]. ring.
Qed.

Lemma sym_product (n : nat) (f g : R -> R) (K : list (list R * R)) (a b : nat) :
  orthonormal n (map fst K) ->
  mat_mul n (outer_sum f (sym_quads K)) (outer_sum g (sym_quads K)) a b =
  outer_sum (fun s => f s * g s) (sym_quads K) a b.
Proof.
  intros Ho. unfold mat_mul.
  rewrite <- (product_of_sums n f g a b (sym_quads K)).
  - apply sum_map_ext. intros x _. rewrite sym_left, sym_right. reflexivity.
  - unfold sym_quads. rewrite map_map. exact Ho.
Qed.

(** The core: for orthonormal [v_j] and non-zero [s_j], the matrix
    [sum v_j v_j^T / s_j^2] is the Moore-Penrose inverse of
    [sum s_j^2 v_j v_j^T]. *)
Lemma moore_penrose_of_sums (n : nat) (K : list (list R * R)) :
  orthonormal n (map fst K) ->
  (forall vs, In vs K -> snd vs <> 0) ->
  moore_penrose n (outer_sum (fun s => s * s) (sym_quads K))
                  (outer_sum (fun s => / (s * s)) (sym_quads K)).
Proof.
  intros Ho Hnz.
  set (G := outer_sum (fun s => s * s) (sym_quads K)).
  set (P := outer_sum (fun s => / (s * s)) (sym_quads K)).
  set (E := outer_sum (fun _ => 1) (sym_quads K)).
  assert (Hq : forall t, In t (sym_quads K) -> qs t <> 0).
  { intros t Ht. unfold sym_quads in Ht. apply in_map_iff in Ht.
    destruct Ht as (vs & <- & Hvs). exact (Hnz vs Hvs). }
  assert (GP : forall a b, mat_mul n G P a b = E a b).
  { intros a b. unfold G, P. rewrite (sym_product n _ _ K a b Ho).
    apply outer_sum_ext. intros t Ht. field. exact (Hq t Ht). }
  assert (PG : forall a b, mat_mul n P G a b = E a b).
  { intros a b. unfold G, P. rewrite (sym_product n _ _ K a b Ho).
    apply outer_sum_ext. intros t Ht. field. exact (Hq t Ht). }
  intros a b. split; [|split; [|split]].
  - rewrite (mat_mul_ext n _ E G G a b GP (fun _ _ => eq_refl)).
    unfold E, G. rewrite (sym_product n _ _ K a b Ho).
    apply outer_sum_ext. intros t _. ring.
  - rewrite (mat_mul_ext n _ E P P a b PG (fun _ _ => eq_refl)).
    unfold E, P. rewrite (sym_product n _ _ K a b Ho).
    apply outer_sum_ext. intros t _. ring.
  - rewrite !GP. apply sym_outer_sym.
  - rewrite !PG. apply sym_outer_sym.
Qed.
Lemma moore_penrose_ext (n : nat) (G G' P P' : nat -> nat -> R) :
  (forall a b, G a b = G' a b) -> (forall a b, P a b = P' a b) ->
  moore_penrose n G' P' -> moore_penrose n G P.
Proof.
  intros EG EP Hmp a b. destruct (Hmp a b) as (H1 & H2 & H3 & H4).
  assert (GP : forall x y, mat_mul n G P x y = mat_mul n G' P' x y)
    by (intros x y; apply mat_mul_ext; assumption).
  assert (PG : forall x y, mat_mul n P G x y = mat_mul n P' G' x y)
    by (intros x y; apply mat_mul_ext; assumption).
  rewrite (mat_mul_ext n _ _ G G' a b GP EG), (mat_mul_ext n _ _ P P' a b PG EP).
  rewrite !GP, !PG, EG, EP. repeat split; assumption.
Qed.

Lemma sum_map_filter {A} (f : A -> R) (p : A -> bool) (l : list A) :
  (forall x, In x l -> p x = false -> f x = 0) ->
  sum (map f (filter p l)) = sum (map f l).
Proof.
  induction l as [|x l IH]; intros Z; [reflexivity|].
  cbn [filter map]. rewrite sum_cons.
  assert (IH' : sum (map f (filter p l)) = sum (map f l)).
  { apply IH. intros y Hy. apply Z. right. exact Hy. }
  destruct (p x) eqn:Hp.
  - cbn [map]. rewrite sum_cons, IH'. reflexivity.
  - rewrite IH', (Z x (or_introl eq_refl) Hp). ring.
Qed.

Lemma kept_vectors_incl {A} (p : list R * A -> bool) :
  forall (VT : list (list R)) (s : list A) (w : list R),
    In w (map fst (filter p (combine VT s))) -> In w VT.
Proof.
  intros VT s w Hw. apply in_map_iff in Hw. destruct Hw as ([v x] & <- & Hv).
  apply filter_In in Hv. destruct Hv as [Hv _].
  exact (in_combine_l _ _ _ _ Hv).
Qed.

Lemma orthonormal_kept {A} (n : nat) (p : list R * A -> bool) :
  forall (VT : list (list R)) (s : list A),
    orthonormal n VT -> orthonormal n (map fst (filter p (combine VT s))).
Proof.
  intros VT s Ho. revert s.
  induction Ho as [|v vs Hunit Horth Hrest IH]; intros [|x s]; try constructor.
  cbn [combine filter]. destruct (p (v, x)).
  - cbn [map fst]. constructor; [exact Hunit| |apply IH].
    intros w Hw. apply Horth. exact (kept_vectors_incl p vs s w Hw).
  - apply IH.
Qed.

(** The pseudo-inverse of the code, over the reals, as a sum of rank-one
    terms. *)
Lemma pinv_gram_outer (VT : list (list R)) (s : list R) (thr : R) (a b : nat) :
  ErrorAnalysis.pinv_gram_entry VT s thr a b =
  outer_sum (fun sj => / (sj * sj))
            (sym_quads (filter (fun vs => gtb (snd vs) thr) (combine VT s))) a b.
Proof.
  unfold ErrorAnalysis.pinv_gram_entry, outer_sum, sym_quads.
  rewrite map_map. cbn [add of_Z R_ops]. fold (sum (map
    (fun vs : list R * R =>
       mul (div (nth a (fst vs) 0) (mul (snd vs) (snd vs))) (nth b (fst vs) 0))
    (filter (fun vs => gtb (snd vs) thr) (combine VT s)))).
  apply sum_map_ext. intros vs _. cbn [mul div R_ops qs qp qr fst snd].
  unfold Rdiv. ring.
Qed.

Lemma map_seq_nth {A} (f : A -> R) (d : A) (l : list A) :
  map f l = map (fun i => f (nth i l d)) (seq 0 (length l)).
Proof.
  induction l as [|x l IH]; [reflexivity|].
  cbn [length seq map nth]. f_equal.
  rewrite <- seq_shift, map_map. exact IH.
Qed.

Lemma zip_columns (J : list (list R)) (a b : nat) :
  zip_with Rmult (ErrorAnalysis.column a J) (ErrorAnalysis.column b J) =
  map (fun row => nth a row 0 * nth b row 0) J.
Proof.
  unfold ErrorAnalysis.column.
  induction J as [|row J IH]; [reflexivity|].
  cbn [map zip_with of_Z R_ops]. rewrite <- IH. reflexivity.
Qed.

Lemma combine3_fst {A B C} :
  forall (u : list A) (v : list B) (s : list C),
    length u = length s -> length v = length s ->
    map (fun t => fst (fst t)) (combine (combine u v) s) = u /\
    map (fun t => (snd (fst t), snd t)) (combine (combine u v) s) = combine v s.
Proof.
  induction u as [|x u IH]; intros [|y v] [|z s] Lu Lv; cbn in *;
    try discriminate; try (split; reflexivity).
  destruct (IH v s) as [E1 E2]; try congruence.
  rewrite E1, E2. split; reflexivity.
Qed.

(** [J^T J] from the decomposition [J = U S VT] with orthonormal columns
    of [U]: the sum of [s_j^2 v_j v_j^T]. *)
Lemma gram_outer (J Ucols VT : list (list R)) (s : list R) (a b : nat) :
  decomposes J Ucols s VT -> orthonormal (length J) Ucols ->
  gram_entry J a b = outer_sum (fun sj => sj * sj) (sym_quads (combine VT s)) a b.
Proof.
  intros (Lu & Lv & HJ) Ho.
  set (K3 := combine (combine Ucols VT) s).
  set (Q := map (fun t : list R * list R * R =>
                   (snd (fst t), fst (fst t), snd (fst t), snd t)) K3).
  destruct (combine3_fst Ucols VT s Lu Lv) as [EU EV]. fold K3 in EU, EV.
  unfold gram_entry, ErrorAnalysis.dot. cbn [add mul of_Z R_ops].
  rewrite zip_columns. fold (sum (map (fun row => nth a row 0 * nth b row 0) J)).
  rewrite (map_seq_nth _ [] J).
  rewrite (sum_map_ext _ (fun i => left_sum (fun sj => sj) Q a i *
                                   right_sum (fun sj => sj) Q i b)).
  - rewrite (product_of_sums (length J) _ _ a b Q).
    + unfold outer_sum, Q, sym_quads. rewrite !map_map. rewrite <- EV, map_map.
      reflexivity.
    + unfold Q. rewrite map_map. cbn [qq fst snd]. rewrite EU. exact Ho.
  - intros i _. rewrite !HJ. fold K3.
    unfold rank_one_sum, left_sum, right_sum, Q. rewrite !map_map.
    f_equal.
    + apply sum_map_ext. intros t _. cbn [qs qp qq fst snd]. ring.
Qed.
(** Over the reals, for a correct decomposition and a threshold that
    separates the zero singular values from the others, the entries that
    [error_analysis] sums make the Moore-Penrose inverse of [J^T J]. *)
Lemma pinv_gram_moore_penrose
      (J Ucols VT : list (list R)) (s : list R) (thr : R) (n : nat) :
  decomposes J Ucols s VT ->
  orthonormal (length J) Ucols -> orthonormal n VT ->
  (forall sj, In sj s -> if gtb sj thr then sj <> 0 else sj = 0) ->
  moore_penrose n (gram_entry J) (ErrorAnalysis.pinv_gram_entry VT s thr).
Proof.
  intros Hdec HoU HoV Hthr.
  set (kept := filter (fun vs : list R * R => gtb (snd vs) thr) (combine VT s)).
  apply (moore_penrose_ext n _ (outer_sum (fun sj => sj * sj) (sym_quads kept))
                             _ (outer_sum (fun sj => / (sj * sj)) (sym_quads kept))).
  - intros a b. rewrite (gram_outer J Ucols VT s a b Hdec HoU).
    unfold outer_sum, sym_quads, kept. rewrite !map_map. symmetry.
    apply sum_map_filter. intros vs Hvs Hp. cbn [qs qp qr fst snd].
    specialize (Hthr (snd vs) (in_combine_r _ _ _ _
                 (eq_ind _ (fun x => In x (combine VT s)) Hvs _
                         (surjective_pairing vs)))).
    rewrite Hp in Hthr. rewrite Hthr. ring.
  - intros a b. apply pinv_gram_outer.
  - apply moore_penrose_of_sums.
    + apply orthonormal_kept. exact HoV.
    + intros vs Hvs. apply filter_In in Hvs. destruct Hvs as [Hin Hp].
      specialize (Hthr (snd vs) (in_combine_r _ _ _ _
                   (eq_ind _ (fun x => In x (combine VT s)) Hin _
                           (surjective_pairing vs)))).
      rewrite Hp in Hthr. exact Hthr.
Qed.
(** The conditions at work: the 3-by-2 matrix with rows (2, 0), (0, 1) and
    (0, 0), decomposed with singular values 2 and 1. *)
Example moore_penrose_example :
  moore_penrose 2
    (gram_entry [[2; 0]; [0; 1]; [0; 0]])
    (ErrorAnalysis.pinv_gram_entry [[1; 0]; [0; 1]] [2; 1] 0).
Proof.
  apply (pinv_gram_moore_penrose [[2; 0]; [0; 1]; [0; 0]]
           [[1; 0; 0]; [0; 1; 0]] [[1; 0]; [0; 1]] [2; 1] 0 2).
  - split; [reflexivity|]. split; [reflexivity|].
    intros i a. unfold rank_one_sum, sum.
    destruct i as [|[|[|[|i]]]], a as [|[|[|a]]]; cbn; ring.
  - constructor; [unfold vdot, sum; cbn; ring| |].
    + intros w [<-|[]]. unfold vdot, sum. cbn. ring.
    + constructor; [unfold vdot, sum; cbn; ring| |constructor].
      intros w [].
  - constructor; [unfold vdot, sum; cbn; ring| |].
    + intros w [<-|[]]. unfold vdot, sum. cbn. ring.
    + constructor; [unfold vdot, sum; cbn; ring| |constructor].
      intros w [].
  - intros sj [<-|[<-|[]]]; cbn [gtb ltb R_ops];
      destruct (Rlt_dec _ _); lra.
Qed.
End MoorePenroseFacts.

(** C3: [error_analysis(res)] returns the pair (standard errors, [s_sq])
    with [s_sq = 2*res.cost / (res.fun.size - res.x.size)], the standard
    errors being the square roots of the diagonal of [pcov], and [pcov] the
    pseudo-inverse of [J^T J] obtained from the singular value decomposition
    of [res.jac] by keeping the singular values that exceed
    [eps * max(jac.shape) * s[0]], scaled by [s_sq].  The decomposition is
    scipy's: its contract is assumed.  That the entries so summed are those
    of the Moore-Penrose inverse is a fact of exact arithmetic: over the
    reals they satisfy the four Moore-Penrose conditions against [J^T J]
    whenever [J = U S VT] with orthonormal columns of [U] and rows of [VT]
    and the threshold separates the zero singular values from the others. *)
Theorem error_analysis_pseudo_inverse
  {T : Type} `{OrderLaws T}
  (svd : ErrorAnalysis.svd_fn T) (res : ErrorAnalysis.OptimizeResult T)
  (U VT : ErrorAnalysis.matrix T) (s0 : T) (s' : list T) :
  svd (ErrorAnalysis.res_jac res) = Ok (U, s0 :: s', VT) ->
  length VT = length (s0 :: s') ->
  Forall (fun v => length v = length (hd [] VT)) VT ->
  ErrorAnalysis.non_increasing (s0 :: s') = true ->
  Truncation.all_numbers
    (ErrorAnalysis.threshold_of (ErrorAnalysis.res_jac res) s0 :: s0 :: s') = true ->
  let s_sq := div (mul (of_Z 2) (ErrorAnalysis.res_cost res))
                  (of_Z (Z.of_nat (length (ErrorAnalysis.res_fun res)) -
                         Z.of_nat (length (ErrorAnalysis.res_x res)))) in
  let threshold :=
    mul (mul eps (of_Z (Z.of_nat (Nat.max (length (ErrorAnalysis.res_jac res))
                                          (length (hd [] (ErrorAnalysis.res_jac res)))))))
        s0 in
  ErrorAnalysis.error_analysis svd res =
    Ok (ErrorAnalysis.standard_errors VT (s0 :: s') threshold s_sq, s_sq)
  /\
  (forall (J Ucols VTr : list (list R)) (sr : list R) (thr : R) (n : nat),
     MoorePenrose.decomposes J Ucols sr VTr ->
     MoorePenrose.orthonormal (length J) Ucols ->
     MoorePenrose.orthonormal n VTr ->
     (forall sj, In sj sr -> if gtb sj thr then sj <> 0%R else sj = 0%R) ->
     MoorePenrose.moore_penrose n (MoorePenrose.gram_entry J)
       (ErrorAnalysis.pinv_gram_entry VTr sr thr)).
Proof.
  intros Hsvd Hlen Hrows Hsorted Hnum s_sq threshold.
  split; [|exact MoorePenroseFacts.pinv_gram_moore_penrose].
  assert (Ethr : ErrorAnalysis.threshold_of (ErrorAnalysis.res_jac res) s0 = threshold)
    by reflexivity.
  rewrite Ethr in Hnum.
  cbn [Truncation.all_numbers forallb] in Hnum.
  apply andb_true_iff in Hnum. destruct Hnum as [Nthr Hnum].
  unfold ErrorAnalysis.error_analysis. rewrite Hsvd.
  cbn [bind index nth_error]. rewrite Ethr.
  fold s_sq.
  change (ErrorAnalysis.residual_variance res) with s_sq.
  set (kept := filter (fun si => gtb si threshold) (s0 :: s')).
  assert (Lkept : length (firstn (length kept) VT) = length kept).
  { rewrite length_firstn, Hlen. apply Nat.min_l.
    apply ErrorAnalysisFacts.kept_length_le. }
  rewrite Lkept, Nat.eqb_refl.
  f_equal. f_equal.
  rewrite ErrorAnalysisFacts.diag_pcov, map_map.
  unfold ErrorAnalysis.standard_errors.
  apply map_ext_in. intros a Ha. apply in_seq in Ha.
  f_equal. f_equal.
  unfold ErrorAnalysis.dot, ErrorAnalysis.pinv_gram_entry.
  rewrite (ErrorAnalysisFacts.dot_columns (length (hd [] VT))).
  - f_equal. f_equal. symmetry.
    apply ErrorAnalysisFacts.kept_values_prefix; assumption.
  - lia.
  - apply Forall_forall. intros v Hv. rewrite Forall_forall in Hrows.
    apply Hrows. rewrite <- (firstn_skipn (length kept) VT).
    apply in_or_app. left. exact Hv.
Qed.

(** The theorem on binary64 data: a 3-by-2 Jacobian with singular values 2
    and 1 and the identity as right singular vectors; the residual variance
    is 16 and the standard errors are [sqrt(16/4)] and [sqrt(16/1)]. *)
Lemma error_analysis_pseudo_inverse_witness :
  let svd : ErrorAnalysis.svd_fn float :=
    fun _ => Ok ([[1; 0]; [0; 1]; [0; 0]], [2; 1], [[1; 0]; [0; 1]])%float in
  let res : ErrorAnalysis.OptimizeResult float :=
    {| ErrorAnalysis.res_x := [5; 7]%float;
       ErrorAnalysis.res_cost := 8%float;
       ErrorAnalysis.res_fun := [0; 0; 4]%float;
       ErrorAnalysis.res_jac := [[2; 0]; [0; 1]; [0; 0]]%float;
       ErrorAnalysis.res_success := true |} in
  ErrorAnalysis.error_analysis svd res = Ok ([2; 4]%float, 16%float).
Proof.
  intros svd res.
  destruct (error_analysis_pseudo_inverse svd res
              [[1; 0]; [0; 1]; [0; 0]]%float [[1; 0]; [0; 1]]%float 2%float [1%float])
    as [W _].
  - reflexivity.
  - reflexivity.
  - repeat constructor.
  - vm_compute. reflexivity.
  - vm_compute. reflexivity.
  - rewrite W. vm_compute. reflexivity.
Defined.

(** ** Running the notebook cells *)

Module NotebookFacts.
Import Truncation ErrorAnalysis Notebook.
Section Facts.
Context {T : Type} `{NumOps T}.
Local Open Scope prog_scope.

Lemma run_pbind {A B} (h : handler T) (p : prog T A) (f : A -> prog T B) :
  run h (pbind p f) =
  match run h p with
  | (tr, Ok a) => let (tr', out) := run h (f a) in (tr ++ tr', out)
  | (tr, Err e) => (tr, Err e)
  end.
Proof.
  induction p as [a|e|X c k IH]; cbn [pbind run].
  - destruct (run h (f a)). reflexivity.
  - reflexivity.
  - destruct (h X c) as [x|e]; [|reflexivity].
    rewrite IH. destruct (run h (k x)) as [tr [a|e]].
    + destruct (run h (f a)). reflexivity.
    + reflexivity.
Qed.

Lemma run_lift {A} (h : handler T) (r : result A) :
  run h (lift r) = ([], r).
Proof. destruct r; reflexivity. Qed.

Lemma run_perform {X} (h : handler T) (c : call T X) :
  run h (perform c) = ([Ev c (h X c)], h X c).
Proof. unfold perform. cbn [run]. destruct (h X c); reflexivity. Qed.

Lemma never_pbind test {A B} (p : prog T A) (f : A -> prog T B) :
  never test p -> (forall a, never test (f a)) -> never test (pbind p f).
Proof.
  induction 1 as [a|e|X c k Hc Hk IH]; intros Hf; cbn [pbind].
  - apply Hf.
  - constructor.
  - constructor; [exact Hc|]. intros x. apply IH. exact Hf.
Qed.

Lemma never_lift test {A} (r : result A) : never test (lift (T := T) r).
Proof. destruct r; constructor. Qed.

Lemma never_for_each test {A S} (l : list A) (body : A -> S -> prog T S) :
  (forall a s, never test (body a s)) -> forall s, never test (for_each l body s).
Proof.
  intros Hbody. induction l as [|a l IH]; intros s; cbn [for_each].
  - constructor.
  - apply never_pbind; [apply Hbody|exact IH].
Qed.

Lemma never_perform test {X} (c : call T X) :
  test X c = false -> never test (perform c).
Proof. intros Hc. constructor; [exact Hc|]. intros x. constructor. Qed.

Lemma never_count test {A} (h : handler T) (p : prog T A) :
  never test p -> count_calls test (fst (run h p)) = 0.
Proof.
  unfold count_calls.
  induction 1 as [a|e|X c k Hc Hk IH]; cbn [run]; try reflexivity.
  destruct (h X c) as [x|e].
  - specialize (IH x). destruct (run h (k x)) as [tr out].
    cbn [fst filter] in *. rewrite Hc. exact IH.
  - cbn [fst filter]. rewrite Hc. reflexivity.
Qed.

Lemma never_writes {A} (h : handler T) (p : prog T A) :
  never (@writes_file T) p -> writes (fst (run h p)) = [].
Proof.
  induction 1 as [a|e|X c k Hc Hk IH]; cbn [run]; try reflexivity.
  assert (Hw : forall answer, write_of (Ev c answer) = None).
  { intros answer. destruct c; try reflexivity; discriminate Hc. }
  destruct (h X c) as [x|e].
  - specialize (IH x). destruct (run h (k x)) as [tr out].
    cbn [fst writes] in *. rewrite Hw. exact IH.
  - cbn [fst writes]. rewrite Hw. reflexivity.
Qed.

(** A cell that does not call the optimizer runs the same whatever
    [success] the optimizer would report. *)
Lemma never_force_success {A} (b : bool) (h : handler T) (p : prog T A) :
  never (@calls_optimizer T) p -> run (force_success b h) p = run h p.
Proof.
  induction 1 as [a|e|X c k Hc Hk IH]; cbn [run]; try reflexivity.
  assert (Hh : force_success b h X c = h X c).
  { unfold force_success. destruct c; try reflexivity; discriminate Hc. }
  rewrite Hh. destruct (h X c) as [x|e]; [|reflexivity].
  rewrite IH. reflexivity.
Qed.

(** *** The cell that builds and saves the dataframe *)

Lemma run_build_body (h : handler T) (conc : T) (data : dataframe T) :
  run h (build_body conc data) =
  ([Ev (LoadTxt conc) (h _ (LoadTxt conc))],
   d <- load_frame h conc ;; Ok (data ++ d)).
Proof.
  unfold build_body, load_frame.
  rewrite run_pbind, run_perform.
  destruct (h _ (LoadTxt conc)) as [rows|e]; [|reflexivity].
  rewrite run_pbind, run_lift. cbn [bind].
  destruct (curve_frame conc rows) as [d|e]; reflexivity.
Qed.

(** The loop makes one load per concentration, in order, until one fails,
    and appends the frames to the dataframe it started from. *)
Lemma run_build_loop (h : handler T) :
  forall (cs : list T) (data : dataframe T),
    snd (run h (for_each cs build_body data)) =
      (fs <- mapM (load_frame h) cs ;; Ok (data ++ concat fs)) /\
    forallb is_load (fst (run h (for_each cs build_body data))) = true.
Proof.
  induction cs as [|c cs IH]; intros data; cbn [for_each mapM].
  - cbn. rewrite app_nil_r. split; reflexivity.
  - rewrite run_pbind, run_build_body.
    destruct (load_frame h c) as [d|e]; cbn [bind].
    + destruct (IH (data ++ d)) as [Hout Htr].
      destruct (run h (for_each cs build_body (data ++ d))) as [tr out].
      cbn [fst snd] in *. split.
      * rewrite Hout. destruct (mapM (load_frame h) cs) as [fs|e]; cbn [bind concat].
        -- rewrite app_assoc. reflexivity.
        -- reflexivity.
      * cbn [app forallb is_load]. exact Htr.
    + split; reflexivity.
Qed.

Lemma writes_loads (tr : list (event T)) :
  forallb is_load tr = true -> writes tr = [].
Proof.
  induction tr as [|e tr IH]; [reflexivity|].
  cbn [forallb writes]. intros Hl. apply andb_true_iff in Hl. destruct Hl as [He Hl].
  destruct e as [X c answer]. destruct c; try discriminate He.
  cbn [write_of]. exact (IH Hl).
Qed.

Lemma writes_app (tr tr' : list (event T)) :
  writes (tr ++ tr') = writes tr ++ writes tr'.
Proof.
  induction tr as [|e tr IH]; [reflexivity|].
  cbn [app writes]. destruct (write_of e); cbn [app]; rewrite IH; reflexivity.
Qed.

Lemma combine_columns (conc t0 : T) (l : list (T * T)) :
  map (fun c => {| row_conc := conc; row_t := fst (fst c);
                   row_F := snd (fst c); row_errF := snd c |})
      (combine (combine (map (fun ti => sub ti t0) (map fst l)) (map snd l))
               (map np_sqrt (map snd l))) =
  map (frame_of conc t0) l.
Proof.
  induction l as [|[ti Fi] l IH]; [reflexivity|].
  cbn [map combine fst snd]. rewrite IH. reflexivity.
Qed.

(** A frame is the tail of its file from some row on, with the times
    shifted by the time of that row. *)
Lemma curve_frame_rows (conc : T) (rows : list (T * T)) (d : dataframe T) :
  curve_frame conc rows = Ok d ->
  exists k r0 rest,
    skipn k rows = r0 :: rest /\ argmax (map snd rows) = Ok k /\
    d = map (frame_of conc (fst r0)) (r0 :: rest).
Proof.
  unfold curve_frame, slice_truncate. intros Hd.
  destruct (loadtxt_unpack rows) as [[t F]|e] eqn:Hload; [|discriminate Hd].
  assert (t = map fst rows /\ F = map snd rows) as [-> ->].
  { unfold loadtxt_unpack in Hload.
    destruct rows as [|r0 [|r1 rows]]; try discriminate Hload.
    injection Hload as <- <-. split; reflexivity. }
  cbn [bind] in Hd.
  destruct (argmax (map snd rows)) as [k|e] eqn:Hk; [|discriminate Hd].
  cbn [bind] in Hd. rewrite !skipn_map in Hd.
  destruct (skipn k rows) as [|r0 rest] eqn:Hskip; [discriminate Hd|].
  cbn [map index nth_error bind] in Hd.
  unfold c_ in Hd. cbn [length] in Hd. rewrite !length_map, Nat.eqb_refl in Hd.
  cbn [andb bind] in Hd. injection Hd as <-.
  exists k, r0, rest. split; [exact Hskip|]. split; [reflexivity|].
  exact (combine_columns conc (fst r0) (r0 :: rest)).
Qed.

(** The trace of the saving cell: the loads of the loop, then, if all of
    them succeeded, [to_pickle], [to_csv] and the display of [head()], each
    attempted only if the one before returned. *)
Lemma run_build_cell (h : handler T) :
  exists loads,
    forallb is_load loads = true /\
    match mapM (load_frame h) concs with
    | Err e => run h build_cell = (loads, Err e)
    | Ok fs =>
        let data := concat fs in
        let pickle := ToPickle data "data/fluorescence.p" in
        let csv := ToCsv data "data/fluorescence.csv" in
        let head := Display [VFrame (firstn 5 data)] in
        run h build_cell =
        match h _ pickle with
        | Err e => (loads ++ [Ev pickle (Err e)], Err e)
        | Ok u1 =>
            match h _ csv with
            | Err e => (loads ++ [Ev pickle (Ok u1); Ev csv (Err e)], Err e)
            | Ok u2 =>
                match h _ head with
                | Err e =>
                    (loads ++ [Ev pickle (Ok u1); Ev csv (Ok u2); Ev head (Err e)],
                     Err e)
                | Ok u3 =>
                    (loads ++ [Ev pickle (Ok u1); Ev csv (Ok u2); Ev head (Ok u3)],
                     Ok data)
                end
            end
        end
    end.
Proof.
  destruct (run_build_loop h concs []) as [Hout Hloads].
  exists (fst (run h (for_each concs build_body []))).
  split; [exact Hloads|].
  unfold build_cell. rewrite run_pbind.
  destruct (run h (for_each concs build_body [])) as [loads out].
  cbn [fst snd] in *. subst out.
  destruct (mapM (load_frame h) concs) as [fs|e]; cbn [bind app]; [|reflexivity].
  cbn zeta.
  rewrite run_pbind, run_perform.
  destruct (h _ (ToPickle (concat fs) "data/fluorescence.p")) as [u1|e]; [|reflexivity].
  rewrite run_pbind, run_perform.
  destruct (h _ (ToCsv (concat fs) "data/fluorescence.csv")) as [u2|e]; [|reflexivity].
  rewrite run_pbind, run_perform.
  destruct (h _ (Display [VFrame (firstn 5 (concat fs))])) as [u3|e]; reflexivity.
Qed.

(** What a completed run of the saving cell returns. *)
Lemma run_build_cell_ok (h : handler T) (tr : list (event T)) (data : dataframe T) :
  run h build_cell = (tr, Ok data) ->
  exists fs loads,
    mapM (load_frame h) concs = Ok fs /\ data = concat fs /\
    forallb is_load loads = true /\
    tr = loads ++ [Ev (ToPickle data "data/fluorescence.p") (Ok tt);
                   Ev (ToCsv data "data/fluorescence.csv") (Ok tt);
                   Ev (Display [VFrame (firstn 5 data)]) (Ok tt)].
Proof.
  destruct (run_build_cell h) as (loads & Hloads & Hrun).
  destruct (mapM (load_frame h) concs) as [fs|e]; [|rewrite Hrun; discriminate].
  cbn zeta in Hrun. rewrite Hrun.
  destruct (h _ (ToPickle _ _)) as [[]|e]; [|discriminate].
  destruct (h _ (ToCsv _ _)) as [[]|e]; [|discriminate].
  destruct (h _ (Display _)) as [[]|e]; [|discriminate].
  intros E. injection E as <- <-.
  exists fs, loads. repeat split. exact Hloads.
Qed.
End Facts.

Section FitPattern.
Context {T : Type} `{NumOps T}.
Local Open Scope prog_scope.

Lemma count_calls_app test (tr tr' : list (event T)) :
  count_calls test (tr ++ tr') = count_calls test tr + count_calls test tr'.
Proof. unfold count_calls. rewrite filter_app, length_app. reflexivity. Qed.

(** A cell of the shape "call the optimizer, go on with [k res], return
    [ret res]", where [k] neither calls the optimizer nor reads the flag:
    the optimizer is called once, and the run makes the same calls and
    ends the same way whatever [success] is reported. *)
Lemma run_fit_then {A} (h : handler T) (b : bool)
      (fn : list T -> result (list T)) (x0 lower upper : list T)
      (k : OptimizeResult T -> prog T unit) (ret : OptimizeResult T -> A) :
  (forall res, never (@calls_optimizer T) (k res)) ->
  (forall res, k (set_success b res) = k res) ->
  let p := res <~ perform (LeastSquares fn x0 lower upper) ;; k res ;;; Ret (ret res) in
  count_calls (@calls_optimizer T) (fst (run h p)) = 1 /\
  map call_of (fst (run (force_success b h) p)) = map call_of (fst (run h p)) /\
  match snd (run h p), snd (run (force_success b h) p) with
  | Ok a, Ok a' => exists res, a = ret res /\ a' = ret (set_success b res)
  | Err e, Err e' => e' = e
  | _, _ => False
  end.
Proof.
  intros Hnever Hflag p. unfold p.
  rewrite !run_pbind, !run_perform.
  change (force_success b h _ (LeastSquares fn x0 lower upper))
    with (match h _ (LeastSquares fn x0 lower upper) with
          | Ok res => Ok (set_success b res)
          | Err e => Err e
          end).
  destruct (h _ (LeastSquares fn x0 lower upper)) as [res|e].
  - rewrite !run_pbind, Hflag, (never_force_success b h _ (Hnever res)).
    pose proof (never_count _ h _ (Hnever res)) as Hcount.
    destruct (run h (k res)) as [tr [[]|e]]; cbn [fst snd run app] in *.
    + rewrite app_nil_r. split; [|split].
      * change (Ev (LeastSquares fn x0 lower upper) (Ok res) :: tr)
          with ([Ev (LeastSquares fn x0 lower upper) (Ok res)] ++ tr).
        rewrite count_calls_app, Hcount. reflexivity.
      * reflexivity.
      * exists res. split; reflexivity.
    + split; [|split].
      * change (Ev (LeastSquares fn x0 lower upper) (Ok res) :: tr)
          with ([Ev (LeastSquares fn x0 lower upper) (Ok res)] ++ tr).
        rewrite count_calls_app, Hcount. reflexivity.
      * reflexivity.
      * reflexivity.
  - cbn [fst snd]. repeat split.
Qed.
End FitPattern.

(** Decomposing a cell into its calls. *)
Ltac never_solve :=
  repeat first
    [ apply never_lift
    | apply never_ret
    | apply never_raise
    | apply never_perform; reflexivity
    | apply never_pbind; [|intros]
    | apply never_for_each; intros
    | match goal with
      | |- never _ (if ?b then _ else _) => destruct b
      | |- never _ (let (_, _) := ?p in _) => destruct p
      | |- never _ (decorate _) => unfold decorate
      end ].

Section Cells.
Context {T : Type} `{NumOps T} `{Transcendental T}.
Variable svd : svd_fn T.

(** Only the saving cell writes files. *)
Lemma plotting_cells_never_write :
  never (@writes_file T) plot_raw_cell /\
  never (@writes_file T) plot_masked_cell.
Proof.
  split; [unfold plot_raw_cell|unfold plot_masked_cell]; never_solve.
Qed.

Lemma fit_cells_never_write (data : dataframe T) (args : list (list (list T))) :
  never (@writes_file T) (fit_cell data) /\
  never (@writes_file T) (global_fit_cell svd args).
Proof.
  split; [unfold fit_cell, plot_fit|unfold global_fit_cell, plot_global_fit];
    never_solve.
Qed.

Lemma result_cells_never_write (res : OptimizeResult T) :
  never (@writes_file T) (success_cell res) /\
  never (@writes_file T) (parameters_cell res) /\
  never (@writes_file T) (table_cell res) /\
  never (@writes_file T) (variance_cell res) /\
  never (@writes_file T) (histogram_cell res) /\
  never (@writes_file T) (errors_cell svd res) /\
  never (@writes_file T) (results_cell svd res).
Proof.
  unfold success_cell, parameters_cell, table_cell, variance_cell,
    histogram_cell, errors_cell, results_cell, markdown_table.
  repeat split; never_solve.
Qed.

(** After the optimizer has returned, no cell calls it again. *)
Lemma after_fit_never_fits (args : list (list T)) (gargs : list (list (list T)))
      (res : OptimizeResult T) :
  never (@calls_optimizer T) (plot_fit args res) /\
  never (@calls_optimizer T) (plot_global_fit svd gargs res) /\
  never (@calls_optimizer T) (success_cell res) /\
  never (@calls_optimizer T) (parameters_cell res) /\
  never (@calls_optimizer T) (table_cell res) /\
  never (@calls_optimizer T) (variance_cell res) /\
  never (@calls_optimizer T) (histogram_cell res) /\
  never (@calls_optimizer T) (errors_cell svd res) /\
  never (@calls_optimizer T) (results_cell svd res).
Proof.
  unfold plot_fit, plot_global_fit, success_cell, parameters_cell, table_cell,
    variance_cell, histogram_cell, errors_cell, results_cell, markdown_table.
  repeat split; never_solve.
Qed.
End Cells.
End NotebookFacts.


Module FrameFacts.
Section Facts.
Context {T : Type} `{OrderLaws T}.

End Facts.
End FrameFacts.




(** C6: a completed run of the saving cell makes its [loadtxt] calls, builds
    the combined dataframe out of the five truncated and shifted frames, in
    concentration order, each row indexed by its concentration, and only
    then writes two files: the pickle and the CSV dump of that one
    dataframe.  A run that stops early has written a prefix of the two, and
    no other cell of the pipeline writes a file. *)
Theorem persisted_outputs
  {T : Type} `{NumOps T}
  (h : Notebook.handler T) (tr : list (Notebook.event T))
  (data : Notebook.dataframe T) :
  Notebook.run h Notebook.build_cell = (tr, Ok data) ->
  (exists fs loads,
     Forall2 (fun conc d =>
                exists rows k r0 rest,
                  h _ (Notebook.LoadTxt conc) = Ok rows /\
                  Truncation.argmax (map snd rows) = Ok k /\
                  skipn k rows = r0 :: rest /\
                  d = map (Notebook.frame_of conc (fst r0)) (r0 :: rest))
             Notebook.concs fs /\
     data = concat fs /\
     forallb Notebook.is_load loads = true /\
     tr = loads ++
          [Notebook.Ev (Notebook.ToPickle data "data/fluorescence.p") (Ok tt);
           Notebook.Ev (Notebook.ToCsv data "data/fluorescence.csv") (Ok tt);
           Notebook.Ev (Notebook.Display [Notebook.VFrame (firstn 5 data)]) (Ok tt)]) /\
  Notebook.writes tr =
    [(Notebook.Pickle, "data/fluorescence.p"%string, data);
     (Notebook.Csv, "data/fluorescence.csv"%string, data)] /\
  (forall h' : Notebook.handler T,
     exists n data',
       Notebook.writes (fst (Notebook.run h' Notebook.build_cell)) =
       firstn n [(Notebook.Pickle, "data/fluorescence.p"%string, data');
                 (Notebook.Csv, "data/fluorescence.csv"%string, data')]) /\
  (forall (transcendental : Transcendental T) (svd : ErrorAnalysis.svd_fn T)
          (h' : Notebook.handler T) d args res,
     Notebook.writes (fst (Notebook.run h' Notebook.plot_raw_cell)) = [] /\
     Notebook.writes (fst (Notebook.run h' Notebook.plot_masked_cell)) = [] /\
     Notebook.writes (fst (Notebook.run h' (Notebook.fit_cell d))) = [] /\
     Notebook.writes (fst (Notebook.run h' (Notebook.success_cell res))) = [] /\
     Notebook.writes (fst (Notebook.run h' (Notebook.parameters_cell res))) = [] /\
     Notebook.writes (fst (Notebook.run h' (Notebook.table_cell res))) = [] /\
     Notebook.writes (fst (Notebook.run h' (Notebook.variance_cell res))) = [] /\
     Notebook.writes (fst (Notebook.run h' (Notebook.histogram_cell res))) = [] /\
     Notebook.writes (fst (Notebook.run h' (Notebook.errors_cell svd res))) = [] /\
     Notebook.writes (fst (Notebook.run h' (Notebook.global_fit_cell svd args))) = [] /\
     Notebook.writes (fst (Notebook.run h' (Notebook.results_cell svd res))) = []).
Proof.
  intros Hrun.
  destruct (NotebookFacts.run_build_cell_ok h tr data Hrun)
    as (fs & loads & Hfs & Hdata & Hloads & Htr).
  split; [|split; [|split]].
  - exists fs, loads. split; [|repeat split; assumption].
    pose proof (mapM_Forall2 _ _ _ Hfs) as Hload.
    clear - Hload. induction Hload as [|c d cs fs' Hd Hrest IH]; constructor.
    + unfold Notebook.load_frame in Hd.
      destruct (h _ (Notebook.LoadTxt c)) as [rows|e] eqn:Hrows; [|discriminate Hd].
      cbn [bind] in Hd.
      destruct (NotebookFacts.curve_frame_rows c rows d Hd)
        as (k & r0 & rest & Hskip & Hk & ->).
      exists rows, k, r0, rest. repeat split; assumption.
    + exact IH.
  - rewrite Htr, NotebookFacts.writes_app, (NotebookFacts.writes_loads _ Hloads).
    reflexivity.
  - intros h'.
    destruct (NotebookFacts.run_build_cell h') as (loads' & Hloads' & Hrun').
    destruct (mapM (Notebook.load_frame h') Notebook.concs) as [fs'|e].
    + exists (match h' _ (Notebook.ToPickle (concat fs') "data/fluorescence.p") with
              | Ok _ => 2 | Err _ => 1 end), (concat fs').
      cbn zeta in Hrun'. rewrite Hrun'.
      destruct (h' _ (Notebook.ToPickle _ _)) as [u1|e].
      * destruct (h' _ (Notebook.ToCsv _ _)) as [u2|e];
          [destruct (h' _ (Notebook.Display _)) as [u3|e]|];
          cbn [fst]; rewrite NotebookFacts.writes_app,
                       (NotebookFacts.writes_loads _ Hloads'); reflexivity.
      * cbn [fst]. rewrite NotebookFacts.writes_app,
                     (NotebookFacts.writes_loads _ Hloads'). reflexivity.
    + exists 0, []. rewrite Hrun'. cbn [fst].
      rewrite (NotebookFacts.writes_loads _ Hloads'). reflexivity.
  - intros transcendental svd h' d args res.
    destruct (NotebookFacts.plotting_cells_never_write (T := T)) as (P1 & P2).
    destruct (NotebookFacts.fit_cells_never_write svd d args) as (F1 & F2).
    destruct (NotebookFacts.result_cells_never_write svd res)
      as (R1 & R2 & R3 & R4 & R5 & R6 & R7).
    repeat split; apply NotebookFacts.never_writes; assumption.
Qed.

(** The theorem on binary64 data, in [example_env]. *)
Lemma persisted_outputs_witness :
  Notebook.writes (fst (Notebook.run Notebook.example_env Notebook.build_cell)) =
    [(Notebook.Pickle, "data/fluorescence.p"%string, Notebook.example_data);
     (Notebook.Csv, "data/fluorescence.csv"%string, Notebook.example_data)].
Proof.
  refine (proj1 (proj2 (persisted_outputs
                          Notebook.example_env
                          (fst (Notebook.run Notebook.example_env Notebook.build_cell))
                          Notebook.example_data _))).
  vm_compute. reflexivity.
Defined.

(** C7: the cells handle no error.  Each fit calls the optimizer at most
    once; reporting [success = b] instead of what the optimizer reported
    changes neither the calls a fit cell makes nor how it ends (it returns
    the result it was given, or stops on the same exception); the flag is
    printed by one cell and read by no other. *)
Theorem no_error_handling
  {T : Type} `{NumOps T} `{Transcendental T}
  (svd : ErrorAnalysis.svd_fn T) (h : Notebook.handler T) (b : bool) :
  (forall data,
     let p := Notebook.fit_cell data in
     Notebook.count_calls (@Notebook.calls_optimizer T) (fst (Notebook.run h p)) <= 1 /\
     map Notebook.call_of (fst (Notebook.run (Notebook.force_success b h) p)) =
       map Notebook.call_of (fst (Notebook.run h p)) /\
     match snd (Notebook.run h p),
           snd (Notebook.run (Notebook.force_success b h) p) with
     | Ok (args, res), Ok (args', res') =>
         args' = args /\ res' = Notebook.set_success b res
     | Err e, Err e' => e' = e
     | _, _ => False
     end) /\
  (forall args,
     let p := Notebook.global_fit_cell svd args in
     Notebook.count_calls (@Notebook.calls_optimizer T) (fst (Notebook.run h p)) <= 1 /\
     map Notebook.call_of (fst (Notebook.run (Notebook.force_success b h) p)) =
       map Notebook.call_of (fst (Notebook.run h p)) /\
     match snd (Notebook.run h p),
           snd (Notebook.run (Notebook.force_success b h) p) with
     | Ok res, Ok res' => res' = Notebook.set_success b res
     | Err e, Err e' => e' = e
     | _, _ => False
     end) /\
  (forall res,
     let flag := Notebook.Print
                   [Notebook.VStr "Is one of the convergence criteria satisfied?";
                    Notebook.VBool (ErrorAnalysis.res_success res)] in
     Notebook.run h (Notebook.success_cell res) =
       ([Notebook.Ev flag (h _ flag)], h _ flag)) /\
  (forall res,
     Notebook.parameters_cell (Notebook.set_success b res) =
       Notebook.parameters_cell res /\
     Notebook.table_cell (Notebook.set_success b res) = Notebook.table_cell res /\
     Notebook.variance_cell (Notebook.set_success b res) =
       Notebook.variance_cell res /\
     Notebook.histogram_cell (Notebook.set_success b res) =
       Notebook.histogram_cell res /\
     Notebook.errors_cell svd (Notebook.set_success b res) =
       Notebook.errors_cell svd res /\
     Notebook.results_cell svd (Notebook.set_success b res) =
       Notebook.results_cell svd res).
Proof.
  split; [|split; [|split]].
  - intros data p. unfold p, Notebook.fit_cell.
    destruct (Notebook.single_args data) as [args|e];
      cbn [Notebook.lift Notebook.pbind].
    + pose proof (NotebookFacts.run_fit_then h b
                    (fun param => SingleFit.residuals param args)
                    [of_Z 3000; of_Z 150] [of_Z 6; of_Z 150] [of_Z 3500; of_Z 200]
                    (Notebook.plot_fit args) (fun res => (args, res))
                    (fun res => proj1 (NotebookFacts.after_fit_never_fits svd args [] res))
                    (fun res => eq_refl)) as (Hcount & Hcalls & Hout).
      cbn zeta in Hcount, Hcalls, Hout.
      split; [rewrite Hcount; apply Nat.le_refl|]. split; [exact Hcalls|].
      destruct (snd (Notebook.run h _)) as [[a r]|e],
               (snd (Notebook.run (Notebook.force_success b h) _)) as [[a' r']|e'];
        try exact Hout.
      destruct Hout as (res & E & E'). injection E as -> ->. injection E' as -> ->.
      split; reflexivity.
    + cbn. repeat split. apply Nat.le_0_l.
  - intros args p. unfold p, Notebook.global_fit_cell.
    pose proof (NotebookFacts.run_fit_then h b
                  (fun q => GlobalFit.residuals q args)
                  GlobalFit.param0 Notebook.lbound Notebook.ubound
                  (Notebook.plot_global_fit svd args) (fun res => res)
                  (fun res => proj1 (proj2 (NotebookFacts.after_fit_never_fits svd [] args res)))
                  (fun res => eq_refl)) as (Hcount & Hcalls & Hout).
    cbn zeta in Hcount, Hcalls, Hout.
    split; [rewrite Hcount; apply Nat.le_refl|]. split; [exact Hcalls|].
    destruct (snd (Notebook.run h _)) as [r|e],
             (snd (Notebook.run (Notebook.force_success b h) _)) as [r'|e'];
      try exact Hout.
    destruct Hout as (res & -> & ->). reflexivity.
  - intros res flag. unfold Notebook.success_cell.
    apply NotebookFacts.run_perform.
  - intros res. repeat split.
Qed.

(** ** Reading the tab-separated data files *)

Module TextFileFacts.
Import TextFile.
Section Facts.
Context {T : Type}.
Variable parse : list ascii -> option T.
















End Facts.
End TextFileFacts.



(** The reader on a file of nine header lines and two data lines, with
    decimal integers as numbers. *)
Example data_file_read_example :
  let line (s : string) := list_ascii_of_string s in
  let tsv (a b : string) := TextFile.tsv_line (line a, line b) in
  TextFile.loadtxt TextFile.Z_of_digits 9
    (repeat (line "# header"%string) 8 ++
     [line "t F"%string; tsv "0"%string "12"%string; tsv "1"%string "15"%string]) =
  Ok (TextFile.rows_of_pairs [(0, 12); (1, 15)]%Z).
Proof. vm_compute. reflexivity. Qed.

(** ** Dropping rows and columns *)

Module PandasFacts.
Import Pandas.

Lemma select_filter {A} (p : A -> bool) (l : list A) :
  select (map p l) l = filter p l.
Proof.
  unfold select. induction l as [|a l IH]; [reflexivity|].
  cbn [map combine filter snd]. destruct (p a); cbn [map fst]; rewrite IH; reflexivity.
Qed.

Lemma nth_error_update_same {A} (l : list A) (i : nat) (a : A) :
  i < length l -> nth_error (update l i a) i = Some a.
Proof.
  revert i. induction l as [|x l IH]; intros [|i] Hi; cbn in *; try lia.
  - reflexivity.
  - apply IH. lia.
Qed.

Lemma nth_error_update_other {A} (l : list A) (i j : nat) (a : A) :
  j <> i -> nth_error (update l i a) j = nth_error l j.
Proof.
  revert i j. induction l as [|x l IH]; intros [|i] [|j] Hij; cbn;
    try reflexivity; try congruence.
  apply IH. congruence.
Qed.

(** The notebook's four cells, replayed: two drops that return new tables
    while [df] still shows all six countries and four years, then the drop
    in place, after which [df] itself has lost Germany, 2014 and 2016. *)
Example drop_cells_replayed :
  let without_germany :=
    {| df_index := ["Estonia"; "Italy"; "Luxembourg"; "Netherlands"; "Sweden"]%string;
       df_columns := [2014; 2016; 2006; 2020]%Z;
       df_values := [[Num 16.1; Num 15.0; Num 13.8; NoneCell];
                     [Num 7.1; Num 7.2; Num 10.0; NoneCell];
                     [Num 21.5; Num 19.8; Num 29.7; NoneCell];
                     [Num 11.7; Num 12.2; Num 13.5; NoneCell];
                     [Num 5.8; Num 5.6; Num 7.6; NoneCell]]%float |} in
  let without_years :=
    {| df_index := df_index emissions;
       df_columns := [2006; 2020]%Z;
       df_values := [[Num 13.8; NoneCell]; [Num 10.0; NoneCell];
                     [Num 29.7; NoneCell]; [Num 13.5; NoneCell];
                     [Num 7.6; NoneCell]; [Num 12.4; NoneCell]]%float |} in
  let final :=
    {| df_index := ["Estonia"; "Italy"; "Luxembourg"; "Netherlands"; "Sweden"]%string;
       df_columns := [2006; 2020]%Z;
       df_values := [[Num 13.8; NoneCell]; [Num 10.0; NoneCell];
                     [Num 29.7; NoneCell]; [Num 13.5; NoneCell];
                     [Num 7.6; NoneCell]]%float |} in
  drop [emissions] 0 ["Germany"%string] [] false =
    Ok ([emissions; without_germany], Some 1) /\
  drop [emissions; without_germany] 0 [] [2014; 2016]%Z false =
    Ok ([emissions; without_germany; without_years], Some 2) /\
  drop [emissions; without_germany; without_years] 0
       ["Germany"%string] [2014; 2016]%Z true =
    Ok ([final; without_germany; without_years], None).
Proof. vm_compute. repeat split. Qed.
End PandasFacts.

(** C10: [drop] with [index] and/or [columns] labels and without [inplace]
    returns a new dataframe, without the listed rows and columns, and
    leaves the original object and every other one as they were; with
    [inplace=True] it returns [None] and it is the original object that
    has lost them. *)
Theorem drop_leaves_original_unless_inplace
  (hp : Pandas.heap) (self : nat) (df out : Pandas.DataFrame)
  (index_labels : list string) (column_labels : list Z) :
  nth_error hp self = Some df ->
  Pandas.dropped index_labels column_labels df = Ok out ->
  (Pandas.drop hp self index_labels column_labels false =
     Ok (hp ++ [out], Some (length hp)) /\
   nth_error (hp ++ [out]) self = Some df /\
   (forall a, a < length hp -> nth_error (hp ++ [out]) a = nth_error hp a) /\
   nth_error (hp ++ [out]) (length hp) = Some out) /\
  (Pandas.drop hp self index_labels column_labels true =
     Ok (Pandas.update hp self out, None) /\
   nth_error (Pandas.update hp self out) self = Some out /\
   (forall a, a <> self ->
      nth_error (Pandas.update hp self out) a = nth_error hp a)) /\
  (Pandas.df_index out =
     filter (fun l => negb (Pandas.mentions_row index_labels l)) (Pandas.df_index df) /\
   Pandas.df_columns out =
     filter (fun c => negb (Pandas.mentions_column column_labels c))
            (Pandas.df_columns df) /\
   Pandas.df_values out =
     map (Pandas.select
            (map (fun c => negb (Pandas.mentions_column column_labels c))
                 (Pandas.df_columns df)))
         (Pandas.select
            (map (fun l => negb (Pandas.mentions_row index_labels l))
                 (Pandas.df_index df))
            (Pandas.df_values df))).
Proof.
  intros Hself Hout.
  assert (Lself : self < length hp) by (apply nth_error_Some; congruence).
  assert (Hidx : index hp self = Ok df) by (apply index_nth_error; exact Hself).
  split; [|split].
  - unfold Pandas.drop. rewrite Hidx. cbn [bind]. rewrite Hout. cbn [bind].
    split; [reflexivity|]. split; [|split].
    + rewrite nth_error_app1 by exact Lself. exact Hself.
    + intros a La. apply nth_error_app1. exact La.
    + rewrite nth_error_app2, Nat.sub_diag by lia. reflexivity.
  - unfold Pandas.drop. rewrite Hidx. cbn [bind]. rewrite Hout. cbn [bind].
    split; [reflexivity|]. split.
    + apply PandasFacts.nth_error_update_same. exact Lself.
    + intros a Ha. apply PandasFacts.nth_error_update_other. exact Ha.
  - unfold Pandas.dropped, Pandas.drop_rows in Hout.
    destruct (forallb _ index_labels); [|discriminate Hout].
    cbn [bind] in Hout. unfold Pandas.drop_columns in Hout.
    cbn [Pandas.df_columns Pandas.df_index Pandas.df_values] in Hout.
    destruct (forallb _ column_labels); [|discriminate Hout].
    injection Hout as <-.
    cbn [Pandas.df_columns Pandas.df_index Pandas.df_values].
    rewrite !PandasFacts.select_filter. repeat split.
Qed.

(** The theorem on the lecture's table: Germany and the years 2014 and
    2016 are dropped from the only object of the heap. *)
Lemma drop_leaves_original_unless_inplace_witness :
  let out :=
    {| Pandas.df_index :=
         ["Estonia"; "Italy"; "Luxembourg"; "Netherlands"; "Sweden"]%string;
       Pandas.df_columns := [2006; 2020]%Z;
       Pandas.df_values :=
         [[Pandas.Num 13.8; Pandas.NoneCell]; [Pandas.Num 10.0; Pandas.NoneCell];
          [Pandas.Num 29.7; Pandas.NoneCell]; [Pandas.Num 13.5; Pandas.NoneCell];
          [Pandas.Num 7.6; Pandas.NoneCell]]%float |} in
  Pandas.drop [Pandas.emissions] 0 ["Germany"%string] [2014; 2016]%Z false =
    Ok ([Pandas.emissions; out], Some 1) /\
  nth_error [Pandas.emissions; out] 0 = Some Pandas.emissions.
Proof.
  intros out.
  destruct (drop_leaves_original_unless_inplace
              [Pandas.emissions] 0 Pandas.emissions out
              ["Germany"%string] [2014; 2016]%Z eq_refl eq_refl)
    as ((Hdrop & Hself & _) & _).
  split; [exact Hdrop|exact Hself].
Defined.

(** * Further properties of the cells *)

(** ** Edge cases of the two truncations *)

Module TruncationEdgeFacts.
Import Truncation.
Section Facts.
Context {T : Type} `{NumOps T}.

(** The scan returns an index it has seen. *)
Lemma argmax_scan_bound :
  forall (a : list T) (mp : T) (best i : nat),
    best < i -> argmax_scan mp best i a < i + length a.
Proof.
  induction a as [|x a IH]; intros mp best i Hb; cbn [argmax_scan length].
  - lia.
  - destruct (negb (leb x mp)).
    + destruct (isnan x); [lia|].
      specialize (IH x i (S i)). lia.
    + specialize (IH mp best (S i)). lia.
Qed.

Lemma argmax_lt (a : list T) (k : nat) : argmax a = Ok k -> k < length a.
Proof.
  destruct a as [|x a]; [discriminate|]. cbn [argmax length].
  intros E. injection E as <-.
  destruct (isnan x); [lia|].
  pose proof (argmax_scan_bound a x 0 1). lia.
Qed.

Lemma argmax_nonempty (a : list T) :
  a <> [] -> exists k, argmax a = Ok k /\ k < length a.
Proof.
  intros Ha. destruct (argmax a) as [k|e] eqn:E.
  - exists k. split; [reflexivity|apply argmax_lt; exact E].
  - destruct a; [congruence|discriminate E].
Qed.

(** On at least two rows the argmax slice returns, NaN or not. *)
Lemma slice_truncate_ok (rows : list (T * T)) :
  2 <= length rows ->
  exists k, argmax (map snd rows) = Ok k /\ k < length rows /\
            slice_truncate rows = Ok (skipn k (map fst rows), skipn k (map snd rows)).
Proof.
  intros L.
  destruct (argmax_nonempty (map snd rows)) as (k & Hk & Lk).
  - destruct rows; [cbn in L; lia|discriminate].
  - rewrite length_map in Lk. exists k. split; [exact Hk|]. split; [exact Lk|].
    unfold slice_truncate.
    destruct rows as [|r0 [|r1 rows]]; cbn [length] in L; try lia.
    cbn [loadtxt_unpack bind]. rewrite Hk. reflexivity.
Qed.
End Facts.
End TruncationEdgeFacts.

(** X2: when the maximum count is shared by several rows, but not by all,
    the boolean mask cannot be formed: the times of the peak rows do not
    broadcast against the column of times, and the cell stops with
    [ValueError].  The argmax slice of the same data returns. *)
Theorem mask_fails_on_tied_maxima
  {T : Type} `{NumOps T} (rows : list (T * T)) (m : T) :
  Truncation.np_max (map snd rows) = Ok m ->
  2 <= length (filter (fun r => eqb (snd r) m) rows) ->
  length (filter (fun r => eqb (snd r) m) rows) < length rows ->
  Truncation.mask_truncate rows = Err ValueError /\
  is_ok (Truncation.slice_truncate rows) = true.
Proof.
  intros Hm Htwo Hnotall. split.
  - unfold Truncation.mask_truncate, Truncation.loadtxt_2d, Truncation.row.
    destruct (Nat.ltb_spec (length rows) 2) as [C|_]; [lia|].
    cbn [bind]. rewrite Hm. cbn [bind].
    set (peaks := filter (fun r => eqb (snd r) m) rows) in *.
    unfold broadcast2. rewrite !length_map.
    destruct (Nat.eqb_spec (length rows) (length peaks)) as [C|_]; [lia|].
    destruct rows as [|r0 [|r1 rows']]; cbn [length] in *; try lia.
    destruct peaks as [|q0 [|q1 peaks']]; cbn [length] in Htwo; try lia.
    reflexivity.
  - destruct (TruncationEdgeFacts.slice_truncate_ok rows) as (k & _ & _ & ->);
      [lia|reflexivity].
Qed.

(** The theorem on binary64 data: rows 1 and 2 of [tied_example] share the
    maximum. *)
Lemma mask_fails_on_tied_maxima_witness :
  Truncation.mask_truncate Scenario.tied_example = Err ValueError /\
  is_ok (Truncation.slice_truncate Scenario.tied_example) = true.
Proof.
  apply (mask_fails_on_tied_maxima Scenario.tied_example 5%float).
  - reflexivity.
  - vm_compute. lia.
  - vm_compute. lia.
Defined.

(** X3: when the times increase and the single maximum is in the last row,
    the boolean mask keeps no row at all, and the plotting cell stops at
    [d[0,0]] with [IndexError], having loaded the first file and plotted
    nothing. *)
Theorem masked_plot_fails_when_peak_is_last
  {T : Type} `{OrderLaws T}
  (h : Notebook.handler T) (rows : list (T * T)) :
  h _ (Notebook.LoadTxt (lit 0 10)) = Ok rows ->
  2 <= length rows ->
  Truncation.all_numbers (map snd rows) = true ->
  Truncation.increasing (map fst rows) = true ->
  Truncation.single_peak (map snd rows) = true ->
  Truncation.argmax (map snd rows) = Ok (length rows - 1) ->
  Truncation.mask_truncate rows = Ok [] /\
  Notebook.run h Notebook.plot_masked_cell =
    ([Notebook.Ev (Notebook.LoadTxt (lit 0 10)) (Ok rows)], Err IndexError).
Proof.
  intros Hload L Hnum Hinc Hsingle Hlast.
  assert (Hmask : Truncation.mask_truncate rows = Ok []).
  { destruct (TruncationFacts.slice_truncate_skipn rows L Hnum)
      as (k & m & Hk & Hm & _).
    rewrite Hlast in Hk. injection Hk as Ek.
    rewrite (TruncationFacts.mask_truncate_skipn rows k m L Hnum Hinc Hsingle Hm).
    f_equal. apply skipn_all2. unfold Truncation.row. lia. }
  split; [exact Hmask|].
  unfold Notebook.plot_masked_cell, Notebook.concs.
  cbn [Notebook.for_each].
  rewrite !NotebookFacts.run_pbind, NotebookFacts.run_perform, Hload.
  rewrite !NotebookFacts.run_pbind, NotebookFacts.run_lift, Hmask.
  rewrite NotebookFacts.run_pbind, NotebookFacts.run_lift.
  reflexivity.
Qed.

(** The theorem on binary64 data: every file holds [rising_example]. *)
Lemma masked_plot_fails_when_peak_is_last_witness :
  Truncation.mask_truncate Scenario.rising_example = Ok [] /\
  Notebook.run (Scenario.env_of Scenario.rising_example) Notebook.plot_masked_cell =
    ([Notebook.Ev (Notebook.LoadTxt (lit 0 10)) (Ok Scenario.rising_example)],
     Err IndexError).
Proof.
  apply (masked_plot_fails_when_peak_is_last
           (Scenario.env_of Scenario.rising_example) Scenario.rising_example).
  - reflexivity.
  - simpl. lia.
  - reflexivity.
  - reflexivity.
  - reflexivity.
  - reflexivity.
Defined.

(** ** The saving cell: what it needs, what it stores *)

Module BuildFacts.
Import Truncation Notebook.
Section Facts.
Context {T : Type} `{NumOps T}.

Lemma skipn_cons_nth {A} (d : A) :
  forall (l : list A) (k : nat),
    k < length l -> skipn k l = nth k l d :: skipn (S k) l.
Proof.
  induction l as [|a l IH]; intros k Hk; cbn [length] in Hk; [lia|].
  destruct k as [|k]; [reflexivity|].
  cbn [skipn nth]. rewrite (IH k) by lia. reflexivity.
Qed.

(** The frame of a file with at least two rows. *)
Lemma curve_frame_ok (conc : T) (rows : list (T * T)) :
  2 <= length rows ->
  exists k r0 rest,
    argmax (map snd rows) = Ok k /\ skipn k rows = r0 :: rest /\
    curve_frame conc rows = Ok (map (frame_of conc (fst r0)) (r0 :: rest)).
Proof.
  intros L.
  destruct (TruncationEdgeFacts.slice_truncate_ok rows L) as (k & Hk & Lk & Hslice).
  destruct rows as [|r rows']; [cbn in L; lia|].
  exists k, (nth k (r :: rows') r), (skipn (S k) (r :: rows')).
  pose proof (skipn_cons_nth r (r :: rows') k Lk) as Hskip.
  split; [exact Hk|]. split; [exact Hskip|].
  unfold curve_frame. rewrite Hslice. cbn [bind].
  rewrite !skipn_map, Hskip.
  cbn [map index nth_error bind].
  unfold c_. cbn [length]. rewrite !length_map, Nat.eqb_refl. cbn [andb bind].
  f_equal.
  exact (NotebookFacts.combine_columns conc (fst (nth k (r :: rows') r))
           (nth k (r :: rows') r :: skipn (S k) (r :: rows'))).
Qed.

(** A loop of fallible steps fails as soon as one of them does. *)
Lemma mapM_fails {A B} (f : A -> result B) (l : list A) (a : A) (e0 : exn) :
  In a l -> f a = Err e0 -> exists e, mapM f l = Err e.
Proof.
  induction l as [|x l IH]; intros Hin Ha; [destruct Hin|].
  cbn [mapM]. destruct Hin as [->|Hin].
  - rewrite Ha. exists e0. reflexivity.
  - destruct (f x) as [b|e]; [|exists e; reflexivity].
    destruct (IH Hin Ha) as [e He]. rewrite He. exists e. reflexivity.
Qed.

(** The rows of a frame that carry a given label: all of them or none. *)
Lemma filter_frame (conc t0 label : T) (l : list (T * T)) :
  filter (fun r => eqb (row_conc r) label) (map (frame_of conc t0) l) =
  if eqb conc label then map (frame_of conc t0) l else [].
Proof.
  induction l as [|r l IH]; cbn [map filter frame_of row_conc].
  - destruct (eqb conc label); reflexivity.
  - rewrite IH. destruct (eqb conc label); reflexivity.
Qed.

Lemma load_frame_shape (h : handler T) (conc : T) (d : dataframe T) :
  load_frame h conc = Ok d ->
  exists t0 r0 rest, d = map (frame_of conc t0) (r0 :: rest).
Proof.
  unfold load_frame. destruct (h _ (LoadTxt conc)) as [rows|e]; [|discriminate].
  cbn [bind]. intros Hd.
  destruct (NotebookFacts.curve_frame_rows conc rows d Hd) as (k & r0 & rest & _ & _ & ->).
  exists (fst r0), r0, rest. reflexivity.
Qed.
End Facts.
End BuildFacts.

(** X4: the body of the loop that builds the dataframe needs two data
    rows.  A file without data rows stops it with [ValueError], a file with
    one row with [IndexError]; on two rows or more it always returns,
    whatever the values, and the frame is the file from the row of
    [F.argmax()] on, the times shifted by the time of that row. *)
Theorem curve_frame_needs_two_rows
  {T : Type} `{NumOps T} (conc : T) (rows : list (T * T)) :
  is_ok (Notebook.curve_frame conc rows) = Nat.leb 2 (length rows) /\
  Notebook.curve_frame conc [] = Err ValueError /\
  (forall r, Notebook.curve_frame conc [r] = Err IndexError) /\
  (forall d, Notebook.curve_frame conc rows = Ok d ->
     exists k r0 rest,
       Truncation.argmax (map snd rows) = Ok k /\
       skipn k rows = r0 :: rest /\
       d = map (Notebook.frame_of conc (fst r0)) (r0 :: rest)).
Proof.
  split; [|split; [reflexivity|split; [reflexivity|]]].
  - destruct (Nat.leb_spec 2 (length rows)) as [L|L].
    + destruct (BuildFacts.curve_frame_ok conc rows L) as (k & r0 & rest & _ & _ & ->).
      reflexivity.
    + destruct rows as [|r0 [|r1 rows]]; cbn [length] in L; try lia; reflexivity.
  - intros d Hd.
    destruct (NotebookFacts.curve_frame_rows conc rows d Hd)
      as (k & r0 & rest & Hskip & Hk & ->).
    exists k, r0, rest. repeat split; assumption.
Qed.

(** X5: the saving cell writes nothing unless all five files load.  If the
    load or the truncation of one file fails, the cell ends with an
    exception and its trace holds [loadtxt] calls only: neither
    [to_pickle] nor [to_csv] is attempted. *)
Theorem build_cell_all_or_nothing
  {T : Type} `{NumOps T} (h : Notebook.handler T) (c : T) (e0 : exn) :
  In c Notebook.concs ->
  Notebook.load_frame h c = Err e0 ->
  exists e,
    snd (Notebook.run h Notebook.build_cell) = Err e /\
    forallb Notebook.is_load (fst (Notebook.run h Notebook.build_cell)) = true /\
    Notebook.writes (fst (Notebook.run h Notebook.build_cell)) = [].
Proof.
  intros Hin Hc.
  destruct (BuildFacts.mapM_fails (Notebook.load_frame h) Notebook.concs c e0 Hin Hc)
    as [e He].
  destruct (NotebookFacts.run_build_cell h) as (loads & Hloads & Hrun).
  rewrite He in Hrun. rewrite Hrun. cbn [fst snd].
  exists e. split; [reflexivity|]. split; [exact Hloads|].
  apply NotebookFacts.writes_loads. exact Hloads.
Qed.

(** The theorem on binary64 data: every file is empty. *)
Lemma build_cell_all_or_nothing_witness :
  exists e,
    snd (Notebook.run (Scenario.env_of []) Notebook.build_cell) = Err e /\
    forallb Notebook.is_load
      (fst (Notebook.run (Scenario.env_of []) Notebook.build_cell)) = true /\
    Notebook.writes (fst (Notebook.run (Scenario.env_of []) Notebook.build_cell)) = [].
Proof.
  apply (build_cell_all_or_nothing (Scenario.env_of []) (lit 15 10) ValueError).
  - simpl. tauto.
  - reflexivity.
Defined.

Module BlockFacts.
Import Truncation Notebook.
Section Facts.
Context {T : Type} `{NumOps T}.

(** Filtering a concatenation of frames by a label, frame by frame. *)
Lemma filter_frames (label : T) :
  forall (cs : list T) (fs : list (dataframe T)),
    Forall2 (fun c f => exists t0 r0 rest, f = map (frame_of c t0) (r0 :: rest)) cs fs ->
    filter (fun r => eqb (row_conc r) label) (concat fs) =
    concat (map (fun cf => if eqb (fst cf) label then snd cf else [])
                (combine cs fs)).
Proof.
  induction 1 as [|c f cs fs (t0 & r0 & rest & Hf) _ IH]; [reflexivity|].
  cbn [concat combine map fst snd]. rewrite filter_app, IH.
  rewrite Hf at 1. rewrite BuildFacts.filter_frame, <- Hf. reflexivity.
Qed.

(** When the labels from position [o] on compare equal to [label] at
    position [i] only, the frames selected are frame [i]. *)
Lemma pick_block (label : T) (i : nat) :
  forall (cs : list T) (fs : list (dataframe T)) (o : nat),
    length fs = length cs ->
    (forall j c', nth_error cs j = Some c' -> eqb c' label = Nat.eqb (o + j) i) ->
    concat (map (fun cf => if eqb (fst cf) label then snd cf else [])
                (combine cs fs)) =
    match (if Nat.leb o i then nth_error fs (i - o) else None) with
    | Some d => d
    | None => []
    end.
Proof.
  induction cs as [|c cs IH]; intros [|f fs] o L Hlab; cbn [length] in L; try lia.
  - cbn [combine map concat]. destruct (Nat.leb o i); [|reflexivity].
    destruct (i - o); reflexivity.
  - cbn [combine map concat fst snd].
    rewrite (Hlab 0 c eq_refl), Nat.add_0_r.
    rewrite (IH fs (S o)).
    + destruct (Nat.eqb_spec o i) as [->|Hne].
      * rewrite Nat.leb_refl, Nat.sub_diag. cbn [nth_error].
        destruct (Nat.leb_spec (S i) i) as [C|_]; [lia|]. apply app_nil_r.
      * cbn [app]. destruct (Nat.leb_spec o i) as [Lo|Lo].
        -- destruct (Nat.leb_spec (S o) i) as [_|C]; [|lia].
           replace (i - o) with (S (i - S o)) by lia. reflexivity.
        -- destruct (Nat.leb_spec (S o) i) as [C|_]; [lia|]. reflexivity.
    + lia.
    + intros j c' Hj. rewrite (Hlab (S j) c' Hj). f_equal. lia.
Qed.

(** The rows of a selection are the rows that its label indexes. *)
Lemma loc_filter (data : dataframe T) (label : T) :
  loc data label =
  match filter (fun r => eqb (row_conc r) label) data with
  | [] => Err KeyError
  | block => Ok block
  end.
Proof.
  unfold loc, data_loc.
  destruct (filter _ data) as [|r [|r' rest]]; reflexivity.
Qed.

(** The object that holds given rows. *)
Lemma data_loc_rows (data : dataframe T) (label : T) (d : dataframe T) :
  loc data label = Ok d ->
  data_loc data label = Ok (match d with [r] => Series r | _ => Frame d end).
Proof.
  unfold loc, data_loc.
  destruct (filter _ data) as [|r [|r' rest]]; cbn [bind rows_of]; intros E;
    [discriminate E|injection E as <-; reflexivity..].
Qed.

(** In the concatenation of the frames of [cs], whose labels compare equal
    only to themselves, the label at position [i] selects frame [i]. *)
Lemma loc_concat_frames (cs : list T) (fs : list (dataframe T)) (i : nat)
      (c : T) (d : dataframe T) :
  (forall j k c1 c2,
     nth_error cs j = Some c1 -> nth_error cs k = Some c2 ->
     eqb c1 c2 = Nat.eqb j k) ->
  Forall2 (fun c f => exists t0 r0 rest, f = map (frame_of c t0) (r0 :: rest)) cs fs ->
  nth_error cs i = Some c -> nth_error fs i = Some d ->
  loc (concat fs) c = Ok d.
Proof.
  intros Hdistinct Hshape Hi Hd.
  rewrite loc_filter, (filter_frames c _ _ Hshape).
  rewrite (pick_block c i cs fs 0).
  - cbn [Nat.leb]. rewrite Nat.sub_0_r, Hd.
    destruct (Forall2_nth_error _ _ _ i c Hshape Hi) as (d' & Hd' & t0 & r0 & rest & E).
    assert (Some d' = Some d) as Ed by (rewrite <- Hd'; exact Hd).
    injection Ed as ->. rewrite E. reflexivity.
  - symmetry. exact (Forall2_length Hshape).
  - intros j c' Hj. cbn [Nat.add]. exact (Hdistinct j i c' c Hj Hi).
Qed.

(** The frames of a completed run. *)
Lemma frames_of_run (h : handler T) (tr : list (event T)) (data : dataframe T) :
  run h build_cell = (tr, Ok data) ->
  exists fs,
    data = concat fs /\
    Forall2 (fun c f => load_frame h c = Ok f) concs fs /\
    Forall2 (fun c f => exists t0 r0 rest, f = map (frame_of c t0) (r0 :: rest))
            concs fs.
Proof.
  intros Hrun.
  destruct (NotebookFacts.run_build_cell_ok h tr data Hrun) as (fs & _ & Hfs & -> & _).
  pose proof (mapM_Forall2 _ _ _ Hfs) as HF.
  exists fs. split; [reflexivity|]. split; [exact HF|].
  clear - HF. induction HF as [|c f cs fs Hf _ IH]; constructor; [|exact IH].
  exact (BuildFacts.load_frame_shape h c f Hf).
Qed.
End Facts.
End BlockFacts.

(** X6: what the saving cell appends, [loc] gives back.  When the five
    concentration labels compare equal only to themselves, [data.loc[conc]]
    on the dataframe of a completed run holds exactly the rows of the frame
    built from the file of [conc], in file order, for each of the five
    concentrations: as a DataFrame when the frame has several rows, as a
    Series when it has a single one, which is the case of a file whose
    maximum is its last row. *)
Theorem loc_returns_the_frame_of_its_file
  {T : Type} `{NumOps T}
  (h : Notebook.handler T) (tr : list (Notebook.event T))
  (data : Notebook.dataframe T) :
  (forall i j c c',
     nth_error Notebook.concs i = Some c -> nth_error Notebook.concs j = Some c' ->
     eqb c c' = Nat.eqb i j) ->
  Notebook.run h Notebook.build_cell = (tr, Ok data) ->
  forall c, In c Notebook.concs ->
    exists d,
      Notebook.load_frame h c = Ok d /\
      Notebook.data_loc data c =
        Ok (match d with
            | [r] => Notebook.Series r
            | _ => Notebook.Frame d
            end).
Proof.
  intros Hdistinct Hrun c Hc.
  destruct (BlockFacts.frames_of_run h tr data Hrun) as (fs & -> & HF & Hshape).
  destruct (In_nth_error _ _ Hc) as [i Hi].
  destruct (Forall2_nth_error _ _ _ i c HF Hi) as (d & Hd & Hload).
  exists d. split; [exact Hload|].
  apply BlockFacts.data_loc_rows.
  exact (BlockFacts.loc_concat_frames Notebook.concs fs i c d Hdistinct Hshape Hi Hd).
Qed.

(** The theorem on binary64 data: every file holds [rising_example], whose
    maximum is its last row, and the label 1.5 selects a Series. *)
Lemma loc_returns_the_frame_of_its_file_witness :
  let h := Scenario.env_of Scenario.rising_example in
  exists data r,
    snd (Notebook.run h Notebook.build_cell) = Ok data /\
    Notebook.load_frame h (lit 15 10) = Ok [r] /\
    Notebook.data_loc data (lit 15 10) = Ok (Notebook.Series r).
Proof.
  intros h.
  set (data := map (fun c => Notebook.frame_of c 0.2%float (0.2, 3)%float)
                   Notebook.concs).
  set (r := Notebook.frame_of (lit 15 10) 0.2%float (0.2, 3)%float).
  exists data, r.
  destruct (loc_returns_the_frame_of_its_file h
              (fst (Notebook.run h Notebook.build_cell)) data)
    with (c := (lit 15 10 : float)) as (d & Hload & Hloc).
  - intros [|[|[|[|[|i]]]]] [|[|[|[|[|j]]]]] c c' Hi Hj;
      cbn [nth_error Notebook.concs] in Hi, Hj;
      try discriminate Hi; try discriminate Hj;
      try (destruct i; discriminate Hi); try (destruct j; discriminate Hj);
      injection Hi as <-; injection Hj as <-; vm_compute; reflexivity.
  - vm_compute. reflexivity.
  - simpl. tauto.
  - assert (Ed : d = [r]).
    { assert (E : Ok d = Ok [r]) by (rewrite <- Hload; vm_compute; reflexivity).
      injection E as ->. reflexivity. }
    rewrite Ed in Hload, Hloc.
    split; [vm_compute; reflexivity|]. split; [exact Hload|exact Hloc].
Defined.

(** X7: every frame of the stored dataframe starts at the maximum of its
    file.  For counts that are numbers, the first row of the frame carries
    the largest count of the whole file, the rows left out are the ones
    before it, and each of them has a strictly smaller count. *)
Theorem frame_starts_at_its_maximum
  {T : Type} `{OrderLaws T}
  (conc : T) (rows : list (T * T)) (d : Notebook.dataframe T) :
  Truncation.all_numbers (map snd rows) = true ->
  Notebook.curve_frame conc rows = Ok d ->
  exists k r0 rest,
    d = r0 :: rest /\ length d + k = length rows /\
    map Notebook.row_F d = map snd (skipn k rows) /\
    (forall r, In r rows -> ltb (Notebook.row_F r0) (snd r) = false) /\
    (forall r, In r (firstn k rows) -> ltb (snd r) (Notebook.row_F r0) = true).
Proof.
  intros Hnum Hd.
  destruct (NotebookFacts.curve_frame_rows conc rows d Hd)
    as (k & q0 & rest & Hskip & Hk & ->).
  destruct (TruncationFacts.argmax_first_max (map snd rows)) as (k' & m & Hk' & Hm).
  - destruct rows; [destruct k; discriminate Hskip|discriminate].
  - exact Hnum.
  - rewrite Hk in Hk'. injection Hk' as <-.
    destruct Hm as (Hkm & Hmax & Hfirst).
    assert (Hq0 : nth_error rows k = Some q0).
    { rewrite <- (Nat.add_0_r k), <- nth_error_skipn, Hskip. reflexivity. }
    rewrite nth_error_map, Hq0 in Hkm. cbn in Hkm. injection Hkm as <-.
    exists k, (Notebook.frame_of conc (fst q0) q0),
           (map (Notebook.frame_of conc (fst q0)) rest).
    split; [reflexivity|]. split; [|split; [|split]].
    + rewrite length_map, <- Hskip, length_skipn.
      assert (k < length rows) by (apply nth_error_Some; congruence). lia.
    + rewrite map_map, Hskip. reflexivity.
    + intros r Hr. destruct (In_nth_error _ _ Hr) as [j Hj].
      apply (Hmax j). rewrite nth_error_map, Hj. reflexivity.
    + intros r Hr. destruct (In_nth_error _ _ Hr) as [j Hj].
      assert (Lj : j < k).
      { assert (j < length (firstn k rows)) by (apply nth_error_Some; congruence).
        rewrite length_firstn in *. lia. }
      apply (Hfirst j); [exact Lj|].
      rewrite nth_error_firstn in Hj.
      destruct (Nat.ltb_spec j k) as [_|C]; [|lia].
      rewrite nth_error_map, Hj. reflexivity.
Qed.

(** The theorem on binary64 data: [peak_example4], whose maximum is in
    row 2. *)
Lemma frame_starts_at_its_maximum_witness :
  exists k r0 rest,
    Notebook.curve_frame 0.5%float Truncation.peak_example4 = Ok (r0 :: rest) /\
    length (r0 :: rest) + k = 4 /\
    (forall r, In r Truncation.peak_example4 ->
       ltb (Notebook.row_F r0) (snd r) = false).
Proof.
  edestruct (frame_starts_at_its_maximum 0.5%float Truncation.peak_example4)
    as (k & r0 & rest & Hd & Hlen & _ & Hmax & _).
  - reflexivity.
  - vm_compute. reflexivity.
  - exists k, r0, rest. split; [|split].
    + rewrite <- Hd. vm_compute. reflexivity.
    + rewrite <- Hd. exact Hlen.
    + exact Hmax.
Defined.

(** ** The two model functions, in exact arithmetic *)

Module ModelFacts.
Local Open Scope R_scope.

Lemma decay1_unfold (p0 p1 kq m x : R) :
  GlobalFit.decay1 (p0, p1, kq, m) x =
  p0 * Rtrigo_def.exp (- x / p1 + m * (Rtrigo_def.exp (- kq * x) - 1)).
Proof. reflexivity. Qed.

Lemma exp_decay1_unfold (p0 p1 x : R) :
  SingleFit.exp_decay1 p0 p1 x = p0 * Rtrigo_def.exp (- x / p1).
Proof. reflexivity. Qed.

Lemma exp_le (a b : R) : a <= b -> Rtrigo_def.exp a <= Rtrigo_def.exp b.
Proof.
  intros [L | ->]; [left; apply exp_increasing; exact L|right; reflexivity].
Qed.

(** The exponent of [decay] does not increase with time when the lifetime
    is positive and the two quenching parameters are not negative. *)
Lemma exponent_decreasing (p1 kq m x x' : R) :
  0 < p1 -> 0 <= kq -> 0 <= m -> x <= x' ->
  - x' / p1 + m * (Rtrigo_def.exp (- kq * x') - 1) <=
  - x / p1 + m * (Rtrigo_def.exp (- kq * x) - 1).
Proof.
  intros Hp1 Hkq Hm Hx.
  assert (E1 : - x' / p1 <= - x / p1).
  { unfold Rdiv. apply Rmult_le_compat_r; [left; apply Rinv_0_lt_compat; exact Hp1|lra]. }
  assert (E2 : Rtrigo_def.exp (- kq * x') <= Rtrigo_def.exp (- kq * x)).
  { apply exp_le. nra. }
  assert (E3 : m * (Rtrigo_def.exp (- kq * x') - 1) <=
               m * (Rtrigo_def.exp (- kq * x) - 1)).
  { apply Rmult_le_compat_l; [exact Hm|lra]. }
  lra.
Qed.

End ModelFacts.

(** X8: the global [residuals] fits as many curves as [p] has entries
    after the third.  For every [p] it returns the residual vectors of
    curves [0 .. len(p)-4] one after the other, stopping at the first
    exception; the arrays of any further curve are not read, and with three
    parameters or fewer the result is the empty vector whatever [args]
    holds. *)
Theorem residuals_follow_the_parameter_count
  {T : Type} `{NumOps T} `{Transcendental T}
  (p : list T) (allx ally allyerr : list (list T)) :
  GlobalFit.residuals p [allx; ally; allyerr] =
    (rs <- mapM (GlobalFit.curve_residuals p allx ally allyerr)
                (seq 0 (length p - 3)) ;;
     Ok (concat rs))
  /\
  (forall args, length p <= 3 -> GlobalFit.residuals p args = Ok []).
Proof.
  split.
  - unfold GlobalFit.residuals.
    rewrite GlobalFitFacts.residuals_loop_mapM.
    + rewrite length_skipn. reflexivity.
    + intros j _. rewrite nth_error_skipn. reflexivity.
  - intros args Lp. unfold GlobalFit.residuals.
    rewrite skipn_all2 by lia. reflexivity.
Qed.

(** X9: at time zero both model functions return the amplitude [param[0]],
    whatever the other parameters, for a lifetime [param[1]] that is not
    zero.  The stored curves start at [t = 0], so the first residual of a
    curve is [(F_0 - p[0]) / errF_0] and does not depend on the lifetime or
    on the quenching parameters. *)
Theorem models_at_time_zero (p0 p1 kq m : R) :
  p1 <> 0%R ->
  SingleFit.exp_decay1 p0 p1 0%R = p0 /\
  GlobalFit.decay1 (p0, p1, kq, m) 0%R = p0 /\
  (forall x y yerr y0 e0,
     GlobalFit.pointwise_residuals (p0, p1, kq, m) (0%R :: x) (y0 :: y) (e0 :: yerr) =
     ((y0 - p0) / e0)%R :: GlobalFit.pointwise_residuals (p0, p1, kq, m) x y yerr) /\
  (forall x y yerr y0 e0,
     SingleFit.weighted_pointwise p0 p1 (0%R :: x) (y0 :: y) (e0 :: yerr) =
     ((y0 - p0) / e0)%R :: SingleFit.weighted_pointwise p0 p1 x y yerr).
Proof.
  intros Hp1.
  assert (E1 : SingleFit.exp_decay1 p0 p1 0%R = p0)
    by apply SingleFitFacts.exp_decay1_at_0.
  assert (E2 : GlobalFit.decay1 (p0, p1, kq, m) 0%R = p0).
  { rewrite ModelFacts.decay1_unfold.
    replace (- 0 / p1 + m * (Rtrigo_def.exp (- kq * 0) - 1))%R with 0%R.
    - rewrite exp_0. lra.
    - replace (- kq * 0)%R with 0%R by lra. rewrite exp_0.
      field. exact Hp1. }
  split; [exact E1|]. split; [exact E2|]. split.
  - intros x y yerr y0 e0. cbn [GlobalFit.pointwise_residuals].
    rewrite E2. reflexivity.
  - intros x y yerr y0 e0. cbn [SingleFit.weighted_pointwise].
    rewrite E1. reflexivity.
Qed.

(** The theorem at the start parameters of the global fit: amplitude 3000,
    lifetime 160, rate 0.04 and [m = 0.5]. *)
Lemma models_at_time_zero_witness :
  SingleFit.exp_decay1 3000%R 160%R 0%R = 3000%R /\
  GlobalFit.decay1 (3000%R, 160%R, (4 / 100)%R, (5 / 10)%R) 0%R = 3000%R.
Proof.
  destruct (models_at_time_zero 3000%R 160%R (4 / 100)%R (5 / 10)%R)
    as (E1 & E2 & _).
  - lra.
  - split; [exact E1|exact E2].
Defined.

(** X10: with [m = 0] the model of the global fit is the single
    exponential: [decay(x, (p0, p1, kq, 0))] is [exp_decay(x, [p0, p1])]
    for every [kq], and on one curve the global [residuals] at
    [[p0, p1, kq, 0]] returns what the single-curve [residuals] returns at
    [[p0, p1]], exceptions included. *)
Theorem global_model_without_quencher (p0 p1 kq : R) :
  (forall x : R, GlobalFit.decay1 (p0, p1, kq, 0%R) x = SingleFit.exp_decay1 p0 p1 x) /\
  (forall x y yerr : list R,
     GlobalFit.residuals [p0; p1; kq; 0%R] [[x]; [y]; [yerr]] =
     SingleFit.residuals [p0; p1] [x; y; yerr]).
Proof.
  assert (E : forall x : R,
             GlobalFit.decay1 (p0, p1, kq, 0%R) x = SingleFit.exp_decay1 p0 p1 x).
  { intros x. rewrite ModelFacts.decay1_unfold, ModelFacts.exp_decay1_unfold.
    f_equal. f_equal. lra. }
  split; [exact E|].
  intros x y yerr.
  unfold GlobalFit.residuals, SingleFit.residuals, SingleFit.exp_decay.
  cbn [skipn GlobalFit.residuals_loop index nth_error bind].
  unfold GlobalFit.decay.
  rewrite (map_ext _ _ E).
  destruct (broadcast2 sub y (map (SingleFit.exp_decay1 p0 p1) x)) as [num|e];
    [|reflexivity].
  cbn [bind]. destruct (broadcast2 div num yerr) as [r|e]; reflexivity.
Qed.

(** X11: within the bounds of the fit the model is a decay.  For a
    positive amplitude and lifetime and non-negative [kq] and [m], the value
    of [decay] is positive, does not increase with time, and from time zero
    on does not exceed the amplitude. *)
Theorem decay_is_positive_and_decreasing (p0 p1 kq m x x' : R) :
  (0 < p0)%R -> (0 < p1)%R -> (0 <= kq)%R -> (0 <= m)%R -> (x <= x')%R ->
  (0 < GlobalFit.decay1 (p0, p1, kq, m) x')%R /\
  (GlobalFit.decay1 (p0, p1, kq, m) x' <= GlobalFit.decay1 (p0, p1, kq, m) x)%R /\
  ((0 <= x)%R -> (GlobalFit.decay1 (p0, p1, kq, m) x <= p0)%R).
Proof.
  intros Hp0 Hp1 Hkq Hm Hx.
  rewrite !ModelFacts.decay1_unfold. split; [|split].
  - apply Rmult_lt_0_compat; [exact Hp0|apply exp_pos].
  - apply Rmult_le_compat_l; [lra|].
    apply ModelFacts.exp_le. apply ModelFacts.exponent_decreasing; assumption.
  - intros H0.
    pose proof (ModelFacts.exponent_decreasing p1 kq m 0 x Hp1 Hkq Hm H0) as Hg.
    replace (- 0 / p1 + m * (Rtrigo_def.exp (- kq * 0) - 1))%R with 0%R in Hg.
    + apply ModelFacts.exp_le in Hg. rewrite exp_0 in Hg.
      replace p0 with (p0 * 1)%R at 2 by lra.
      apply Rmult_le_compat_l; [lra|exact Hg].
    + replace (- kq * 0)%R with 0%R by lra. rewrite exp_0.
      unfold Rdiv. rewrite Ropp_0, Rmult_0_l. lra.
Qed.

(** The theorem at the start vector of the global fit, between 0 and 10
    nanoseconds. *)
Lemma decay_is_positive_and_decreasing_witness :
  (0 < GlobalFit.decay1 (3000, 160, 4 / 100, 5 / 10) 10)%R /\
  (GlobalFit.decay1 (3000, 160, 4 / 100, 5 / 10) 10 <=
   GlobalFit.decay1 (3000, 160, 4 / 100, 5 / 10) 0)%R.
Proof.
  destruct (decay_is_positive_and_decreasing 3000 160 (4 / 100) (5 / 10) 0 10)
    as (Hpos & Hdec & _).
  - lra.
  - lra.
  - lra.
  - lra.
  - lra.
  - split; [exact Hpos|exact Hdec].
Defined.

(** ** Edge cases of the error analysis *)

Module ErrorEdgeFacts.
Import Truncation ErrorAnalysis.
Section Facts.
Context {T : Type} `{NumOps T}.

Lemma filter_length_le {A} (p : A -> bool) (l : list A) :
  length (filter p l) <= length l.
Proof.
  induction l as [|a l IH]; [reflexivity|].
  cbn [filter]. destruct (p a); cbn [length]; lia.
Qed.

(** The result of [error_analysis] once the decomposition is known. *)
Lemma error_analysis_unfold (svd : svd_fn T) (res : OptimizeResult T)
      (U VT : matrix T) (s0 : T) (s' : list T) :
  svd (res_jac res) = Ok (U, s0 :: s', VT) ->
  length VT = length (s0 :: s') ->
  let thr := threshold_of (res_jac res) s0 in
  let kept := filter (fun si => gtb si thr) (s0 :: s') in
  error_analysis svd res =
  Ok (map (fun a => np_sqrt (mul (dot (column a (scale_rows (firstn (length kept) VT) kept))
                                      (column a (firstn (length kept) VT)))
                                 (residual_variance res)))
          (seq 0 (length (hd [] VT))),
      residual_variance res).
Proof.
  intros Hsvd Hlen thr kept. unfold error_analysis. rewrite Hsvd.
  cbn [bind index nth_error]. fold thr. fold kept.
  assert (Lk : length (firstn (length kept) VT) = length kept).
  { rewrite length_firstn, Hlen. apply Nat.min_l. apply filter_length_le. }
  rewrite Lk, Nat.eqb_refl.
  rewrite ErrorAnalysisFacts.diag_pcov, map_map. reflexivity.
Qed.
End Facts.

Local Open Scope R_scope.

Lemma sum_nonneg (l : list R) :
  (forall x, In x l -> 0 <= x) -> 0 <= MoorePenrose.sum l.
Proof.
  induction l as [|x l IH]; intros Hl.
  - rewrite MoorePenroseFacts.sum_nil. lra.
  - rewrite MoorePenroseFacts.sum_cons.
    pose proof (Hl x (or_introl eq_refl)).
    assert (0 <= MoorePenrose.sum l) by (apply IH; intros y Hy; apply Hl; right; exact Hy).
    lra.
Qed.

(** An entry of a vector after a map that fixes zero. *)
Lemma nth_map_zero (f : R -> R) (a : nat) (v : list R) :
  f 0 = 0 -> nth a (map f v) 0 = f (nth a v 0).
Proof.
  intros Hf. rewrite <- Hf at 1. apply map_nth.
Qed.

(** Negating rows of [VT] changes no product of two entries of a row. *)
Lemma flip_products (a b : nat) :
  forall (signs : list bool) (VT : list (list R)) (s : list R),
    length signs = length VT ->
    zip_with Rmult (column a (scale_rows (SignChoice.flip_rows signs VT) s))
                   (column b (SignChoice.flip_rows signs VT)) =
    zip_with Rmult (column a (scale_rows VT s)) (column b VT).
Proof.
  induction signs as [|sg signs IH]; intros [|v VT] s L; cbn [length] in L;
    try discriminate; [reflexivity|].
  destruct s as [|sj s]; [reflexivity|].
  cbn [SignChoice.flip_rows zip_with scale_rows column map].
  fold (SignChoice.flip_rows signs VT).
  fold (scale_rows (SignChoice.flip_rows signs VT) s).
  fold (scale_rows VT s).
  fold (column a (scale_rows (SignChoice.flip_rows signs VT) s)).
  fold (column b (SignChoice.flip_rows signs VT)).
  fold (column a (scale_rows VT s)). fold (column b VT).
  rewrite (IH VT s) by lia. f_equal.
  destruct sg; [|reflexivity].
  cbn [of_Z R_ops div].
  rewrite !(nth_map_zero (fun vi => vi / (sj * sj))) by (unfold Rdiv; ring).
  rewrite !(nth_map_zero Ropp) by ring.
  unfold Rdiv. ring.
Qed.

Lemma flip_rows_length (signs : list bool) (VT : list (list R)) :
  length signs = length VT ->
  length (SignChoice.flip_rows signs VT) = length VT /\
  length (hd [] (SignChoice.flip_rows signs VT)) = length (hd [] VT).
Proof.
  revert VT. induction signs as [|sg signs IH]; intros [|v VT] L; cbn [length] in L;
    try discriminate; [split; reflexivity|].
  cbn [SignChoice.flip_rows zip_with length hd].
  fold (SignChoice.flip_rows signs VT).
  split; [f_equal; apply IH; lia|].
  destruct sg; [apply length_map|reflexivity].
Qed.

Lemma flip_rows_firstn (k : nat) :
  forall (signs : list bool) (VT : list (list R)),
    firstn k (SignChoice.flip_rows signs VT) =
    SignChoice.flip_rows (firstn k signs) (firstn k VT).
Proof.
  induction k as [|k IH]; intros signs VT; [reflexivity|].
  destruct signs as [|sg signs]; [reflexivity|].
  destruct VT as [|v VT]; [reflexivity|].
  cbn [SignChoice.flip_rows zip_with firstn].
  fold (SignChoice.flip_rows signs VT).
  fold (SignChoice.flip_rows (firstn k signs) (firstn k VT)).
  rewrite IH. reflexivity.
Qed.
End ErrorEdgeFacts.

(** X12: [error_analysis] returns one standard error per parameter however
    many singular values it discards, and the residual variance beside
    them.  When no singular value exceeds the threshold, as for a Jacobian
    of zeros, every standard error is [sqrt(0 * s_sq)]: the function
    reports zero uncertainty where the fit has no information. *)
Theorem error_analysis_rank_deficient
  {T : Type} `{NumOps T}
  (svd : ErrorAnalysis.svd_fn T) (res : ErrorAnalysis.OptimizeResult T)
  (U VT : ErrorAnalysis.matrix T) (s0 : T) (s' : list T) :
  svd (ErrorAnalysis.res_jac res) = Ok (U, s0 :: s', VT) ->
  length VT = length (s0 :: s') ->
  exists errs,
    ErrorAnalysis.error_analysis svd res =
      Ok (errs, ErrorAnalysis.residual_variance res) /\
    length errs = length (hd [] VT) /\
    ((forall si, In si (s0 :: s') ->
        gtb si (ErrorAnalysis.threshold_of (ErrorAnalysis.res_jac res) s0) = false) ->
     errs = repeat (np_sqrt (mul (of_Z 0) (ErrorAnalysis.residual_variance res)))
                   (length (hd [] VT))).
Proof.
  intros Hsvd Hlen.
  pose proof (ErrorEdgeFacts.error_analysis_unfold svd res U VT s0 s' Hsvd Hlen) as E.
  cbn zeta in E. eexists. split; [exact E|]. split.
  - rewrite length_map, length_seq. reflexivity.
  - intros Hnone.
    rewrite (TruncationFacts.filter_none _ (s0 :: s') Hnone).
    cbn [length firstn ErrorAnalysis.scale_rows zip_with ErrorAnalysis.column map
         ErrorAnalysis.dot fold_left].
    generalize (length (hd [] VT)) as n. intros n.
    generalize 0 as o.
    induction n as [|n IH]; intros o; [reflexivity|].
    cbn [seq map repeat]. f_equal. apply IH.
Qed.

(** The theorem on binary64 data: a Jacobian of zeros, whose singular
    values are 0 and 0; both standard errors are 0. *)
Lemma error_analysis_rank_deficient_witness :
  ErrorAnalysis.error_analysis Scenario.zero_jac_svd Scenario.zero_jac_result =
    Ok ([0; 0]%float, 16%float).
Proof.
  destruct (error_analysis_rank_deficient
              Scenario.zero_jac_svd Scenario.zero_jac_result
              [[1; 0]; [0; 1]; [0; 0]]%float [[1; 0]; [0; 1]]%float 0%float [0%float])
    as (errs & E & _ & Hzero).
  - reflexivity.
  - reflexivity.
  - rewrite E, Hzero.
    + vm_compute. reflexivity.
    + intros si [<-|[<-|[]]]; vm_compute; reflexivity.
Defined.

(** X13: in exact arithmetic the square roots are taken of non-negative
    numbers.  For a non-negative threshold the diagonal entries of the
    pseudo-inverse are non-negative, so for a non-negative residual
    variance the square of each standard error is its diagonal entry of
    [pcov]. *)
Theorem standard_errors_square_to_variances
  (VT : list (list R)) (s : list R) (thr s_sq : R) (a : nat) :
  (0 <= thr)%R -> (0 <= s_sq)%R -> a < length (hd [] VT) ->
  (0 <= ErrorAnalysis.pinv_gram_entry VT s thr a a)%R /\
  (nth a (ErrorAnalysis.standard_errors VT s thr s_sq) 0 *
   nth a (ErrorAnalysis.standard_errors VT s thr s_sq) 0 =
   ErrorAnalysis.pinv_gram_entry VT s thr a a * s_sq)%R.
Proof.
  intros Hthr Hs La.
  assert (Hpos : (0 <= ErrorAnalysis.pinv_gram_entry VT s thr a a)%R).
  { rewrite MoorePenroseFacts.pinv_gram_outer.
    unfold MoorePenrose.outer_sum, MoorePenrose.sym_quads. rewrite map_map.
    apply ErrorEdgeFacts.sum_nonneg. intros x Hx.
    apply in_map_iff in Hx. destruct Hx as ([v sj] & <- & Hin).
    apply filter_In in Hin. destruct Hin as [_ Hgt].
    cbn [MoorePenrose.qs MoorePenrose.qp MoorePenrose.qr fst snd] in *.
    unfold gtb in Hgt. cbn [ltb R_ops] in Hgt.
    destruct (Rlt_dec thr sj) as [Hlt|]; [|discriminate Hgt].
    assert (0 < / (sj * sj))%R by (apply Rinv_0_lt_compat; nra).
    nra. }
  split; [exact Hpos|].
  unfold ErrorAnalysis.standard_errors.
  set (f := fun a0 => np_sqrt (mul (ErrorAnalysis.pinv_gram_entry VT s thr a0 a0) s_sq)).
  rewrite (nth_indep _ 0%R (f 0%nat)) by (rewrite length_map, length_seq; exact La).
  rewrite (map_nth f), seq_nth by exact La. cbn [Nat.add]. unfold f.
  cbn [np_sqrt mul R_ops]. apply sqrt_sqrt. nra.
Qed.

(** The theorem on a 2-by-2 identity with singular values 2 and 1 and
    residual variance 16: the first variance is 16/4. *)
Lemma standard_errors_square_to_variances_witness :
  (0 <= ErrorAnalysis.pinv_gram_entry [[1; 0]; [0; 1]] [2; 1] 0 0 0)%R /\
  (nth 0 (ErrorAnalysis.standard_errors [[1; 0]; [0; 1]] [2; 1] 0 16) 0 *
   nth 0 (ErrorAnalysis.standard_errors [[1; 0]; [0; 1]] [2; 1] 0 16) 0 =
   ErrorAnalysis.pinv_gram_entry [[1; 0]; [0; 1]] [2; 1] 0 0 0 * 16)%R.
Proof.
  apply (standard_errors_square_to_variances [[1; 0]; [0; 1]]%R [2; 1]%R 0%R 16%R 0).
  - lra.
  - lra.
  - simpl. lia.
Defined.

(** X14: the result of [error_analysis] does not depend on the signs that
    the decomposition chooses for its singular vectors.  Two
    decompositions with the same singular values whose [VT] differ by the
    sign of some rows give the same standard errors and the same residual
    variance. *)
Theorem error_analysis_ignores_signs
  (svd svd' : ErrorAnalysis.svd_fn R) (res : ErrorAnalysis.OptimizeResult R)
  (U U' VT : list (list R)) (s : list R) (signs : list bool) :
  svd (ErrorAnalysis.res_jac res) = Ok (U, s, VT) ->
  svd' (ErrorAnalysis.res_jac res) = Ok (U', s, SignChoice.flip_rows signs VT) ->
  length signs = length VT ->
  ErrorAnalysis.error_analysis svd' res = ErrorAnalysis.error_analysis svd res.
Proof.
  intros Hsvd Hsvd' Lsigns.
  unfold ErrorAnalysis.error_analysis. rewrite Hsvd, Hsvd'. cbn [bind].
  destruct (index s 0) as [s0|e]; [|reflexivity]. cbn [bind].
  set (kept := filter (fun si => gtb si (ErrorAnalysis.threshold_of
                                           (ErrorAnalysis.res_jac res) s0)) s).
  destruct (ErrorEdgeFacts.flip_rows_length signs VT Lsigns) as [Lflip Lhd].
  rewrite Lhd, ErrorEdgeFacts.flip_rows_firstn.
  assert (Lcut : length (firstn (length kept) signs) = length (firstn (length kept) VT))
    by (rewrite !length_firstn; lia).
  destruct (ErrorEdgeFacts.flip_rows_length _ _ Lcut) as [-> _].
  destruct (Nat.eqb (length (firstn (length kept) VT)) (length kept)); [|reflexivity].
  assert (Epcov : forall n s_sq,
    ErrorAnalysis.pcov_of n
      (SignChoice.flip_rows (firstn (length kept) signs) (firstn (length kept) VT))
      kept s_sq =
    ErrorAnalysis.pcov_of n (firstn (length kept) VT) kept s_sq).
  { intros n s_sq. unfold ErrorAnalysis.pcov_of.
    apply map_ext. intros a. apply map_ext. intros b.
    unfold ErrorAnalysis.dot. cbn [mul R_ops].
    rewrite (ErrorEdgeFacts.flip_products a b _ _ kept Lcut). reflexivity. }
  rewrite Epcov. reflexivity.
Qed.

(** The theorem on a 2-by-2 identity whose second row is negated. *)
Lemma error_analysis_ignores_signs_witness :
  let res : ErrorAnalysis.OptimizeResult R :=
    {| ErrorAnalysis.res_x := [5; 7]%R; ErrorAnalysis.res_cost := 8%R;
       ErrorAnalysis.res_fun := [0; 0; 4]%R;
       ErrorAnalysis.res_jac := [[2; 0]; [0; 1]; [0; 0]]%R;
       ErrorAnalysis.res_success := true |} in
  ErrorAnalysis.error_analysis
    (fun _ => Ok ([[1; 0]; [0; -1]; [0; 0]]%R, [2; 1]%R,
                  SignChoice.flip_rows [false; true] [[1; 0]; [0; 1]]%R)) res =
  ErrorAnalysis.error_analysis
    (fun _ => Ok ([[1; 0]; [0; 1]; [0; 0]], [2; 1], [[1; 0]; [0; 1]])%R) res.
Proof.
  intros res.
  apply (error_analysis_ignores_signs _ _ res
           [[1; 0]; [0; 1]; [0; 0]]%R [[1; 0]; [0; -1]; [0; 0]]%R
           [[1; 0]; [0; 1]]%R [2; 1]%R [false; true]).
  - reflexivity.
  - reflexivity.
  - reflexivity.
Defined.

(** ** The cells that show the result of a fit *)

Module ResultCellFacts.
Import Truncation ErrorAnalysis Notebook.
Section Order.
Context {T : Type} `{OrderLaws T}.

Lemma minimum_number (a b : T) :
  number a -> number b -> minimum a b = if ltb b a then b else a.
Proof.
  intros Na Nb. unfold minimum, isnan.
  rewrite (leb_ltb a b Na Nb), Na. cbn [negb]. rewrite orb_false_r.
  destruct (ltb b a); reflexivity.
Qed.

Lemma fold_minimum_spec :
  forall (l : list T) (acc : T),
    number acc -> all_numbers l = true ->
    let m := fold_left minimum l acc in
    number m /\ (m = acc \/ In m l) /\ ltb acc m = false /\
    (forall x, In x l -> ltb x m = false).
Proof.
  induction l as [|x l IH]; intros acc Nacc Hnum; cbn [fold_left].
  - repeat split; auto using ltb_irrefl. intros x [].
  - apply andb_true_iff in Hnum. destruct Hnum as [Nx Hnum].
    fold (all_numbers l) in Hnum. change (number x) in Nx.
    rewrite (minimum_number acc x Nacc Nx).
    destruct (ltb x acc) eqn:Hlt.
    + destruct (IH x Nx Hnum) as (Nm & Hin & Hx & Hall).
      split; [exact Nm|].
      split; [right; destruct Hin; [left; congruence|right; assumption]|].
      split.
      * destruct (ltb acc (fold_left minimum l x)) eqn:C; [|reflexivity].
        rewrite <- Hx. symmetry. exact (ltb_trans _ _ _ Hlt C).
      * intros y [<-|Hy]; [exact Hx|exact (Hall _ Hy)].
    + destruct (IH acc Nacc Hnum) as (Nm & Hin & Hacc & Hall).
      split; [exact Nm|].
      split; [destruct Hin; [left|right; right]; assumption|].
      split; [exact Hacc|].
      intros y [<-|Hy]; [|exact (Hall _ Hy)].
      exact (ltb_negtrans _ acc _ Nx Nacc Nm Hlt Hacc).
Qed.

(** [min] of a non-empty array without NaN is an element that exceeds
    nothing. *)
Lemma np_min_spec (a : list T) :
  a <> [] -> all_numbers a = true ->
  exists m, np_min a = Ok m /\ In m a /\ (forall x, In x a -> ltb x m = false).
Proof.
  destruct a as [|x a]; [congruence|]. intros _ Hnum.
  apply andb_true_iff in Hnum. destruct Hnum as [Nx Hnum].
  destruct (fold_minimum_spec a x Nx Hnum) as (Nm & Hin & Hx & Hall).
  exists (fold_left minimum a x). split; [reflexivity|].
  split; [destruct Hin; [left; congruence|right; assumption]|].
  intros y [<-|Hy]; [exact Hx|exact (Hall _ Hy)].
Qed.
End Order.

Section Shapes.
Context {T : Type} `{NumOps T}.

Lemma linspace_shape (start stop : T) (num : nat) :
  1 <= num ->
  length (linspace start stop num) = num /\
  last (linspace start stop num) start = stop.
Proof.
  intros L. unfold linspace. split.
  - rewrite length_app, length_map, length_seq. cbn [length]. lia.
  - apply last_last.
Qed.

Lemma interleave_length (x errors p : list T) :
  interleave x errors = Ok p -> length p = 2 * length x.
Proof.
  unfold interleave.
  assert (Hpairs : forall (l : list (T * T)),
            length (flat_map (fun xe => [fst xe; snd xe]) l) = 2 * length l).
  { induction l as [|a l IH]; [reflexivity|].
    cbn [flat_map app length]. rewrite IH. lia. }
  assert (Hrep : forall (e : T) (l : list T),
            length (flat_map (fun xi => [xi; e]) l) = 2 * length l).
  { intros e. induction l as [|a l IH]; [reflexivity|].
    cbn [flat_map app length]. rewrite IH. lia. }
  destruct (Nat.eqb_spec (length errors) (length x)) as [E|_].
  - intros Hp. injection Hp as <-.
    rewrite Hpairs, length_combine, E. lia.
  - destruct errors as [|e [|e' errors]]; try discriminate.
    intros Hp. injection Hp as <-. apply Hrep.
Qed.

Lemma run_markdown_table (h : handler T) (slots : nat) (values : list T) :
  length values <> slots ->
  run h (markdown_table slots values) = ([], Err TypeError).
Proof.
  intros Hne. unfold markdown_table.
  destruct (Nat.eqb_spec (length values) slots) as [E|_]; [contradiction|reflexivity].
Qed.
End Shapes.

(** The comparisons of the real numbers obey the laws, and no real number
    is NaN. *)
#[global] Instance R_laws : OrderLaws R.
Proof.
  assert (Hnum : forall x y : R,
            leb x y = negb (ltb y x) /\
            eqb x y = (negb (ltb x y) && negb (ltb y x))%bool).
  { intros x y. cbn [leb ltb eqb R_ops].
    destruct (Rle_dec x y), (Rlt_dec y x), (Rlt_dec x y), (Req_dec_T x y);
      split; try reflexivity; exfalso; lra. }
  split.
  - intros x. cbn [ltb R_ops]. destruct (Rlt_dec x x); [exfalso; lra|reflexivity].
  - intros x y z. cbn [ltb R_ops].
    destruct (Rlt_dec x y), (Rlt_dec y z), (Rlt_dec x z);
      intros; try reflexivity; try discriminate; exfalso; lra.
  - intros x y z _ _ _. cbn [ltb R_ops].
    destruct (Rlt_dec x y), (Rlt_dec y z), (Rlt_dec x z);
      intros; try reflexivity; try discriminate; exfalso; lra.
  - intros x y _ _. apply Hnum.
  - intros x y _ _. apply Hnum.
Qed.

Lemma R_all_numbers (l : list R) : all_numbers l = true.
Proof.
  unfold all_numbers. apply forallb_forall. intros x _.
  cbn [eqb R_ops]. destruct (Req_dec_T x x); [reflexivity|congruence].
Qed.
End ResultCellFacts.

(** X15: the histogram cell leaves no residual out.  For a non-empty
    residual vector without NaN the bins run from the smallest residual to
    the largest plus one, in 100 edges, so every residual lies inside the
    range; the cell is the Gaussian plot, the histogram over that range and
    the axis labels, in this order. *)
Theorem histogram_range_covers_the_residuals
  {T : Type} `{OrderLaws T} `{Transcendental T}
  (res : ErrorAnalysis.OptimizeResult T) :
  ErrorAnalysis.res_fun res <> [] ->
  Truncation.all_numbers (ErrorAnalysis.res_fun res) = true ->
  exists lo hi,
    Truncation.np_min (ErrorAnalysis.res_fun res) = Ok lo /\
    Truncation.np_max (ErrorAnalysis.res_fun res) = Ok hi /\
    In lo (ErrorAnalysis.res_fun res) /\ In hi (ErrorAnalysis.res_fun res) /\
    (forall r, In r (ErrorAnalysis.res_fun res) ->
       ltb r lo = false /\ ltb hi r = false) /\
    let bins := Notebook.linspace lo (add hi (of_Z 1)) 100 in
    length bins = 100 /\ last bins lo = add hi (of_Z 1) /\
    Notebook.histogram_cell res =
      Notebook.pbind
        (Notebook.perform
           (Notebook.Plot bins
              (map (fun b => div (np_exp (div (mul (neg b) b) (of_Z 2)))
                                 (np_sqrt (mul (of_Z 2) np_pi))) bins)
              None))
        (fun _ =>
           Notebook.pbind
             (Notebook.perform
                (Notebook.Hist (ErrorAnalysis.res_fun res) lo (add hi (of_Z 1))))
             (fun _ => Notebook.decorate ["xlabel"; "ylabel"; "legend"]%string)).
Proof.
  intros Hne Hnum.
  destruct (ResultCellFacts.np_min_spec _ Hne Hnum) as (lo & Hlo & Ilo & Hmin).
  destruct (TruncationFacts.np_max_spec _ Hne Hnum) as (hi & Hhi & _ & Ihi & Hmax).
  exists lo, hi. split; [exact Hlo|]. split; [exact Hhi|].
  split; [exact Ilo|]. split; [exact Ihi|]. split.
  - intros r Hr. split; [exact (Hmin r Hr)|exact (Hmax r Hr)].
  - cbn zeta.
    destruct (ResultCellFacts.linspace_shape lo (add hi (of_Z 1)) 100) as [Hlen Hlast];
      [lia|].
    split; [exact Hlen|]. split; [exact Hlast|].
    unfold Notebook.histogram_cell. rewrite Hlo, Hhi. reflexivity.
Qed.

(** The theorem over the reals: three residuals. *)
Lemma histogram_range_covers_the_residuals_witness :
  exists lo hi : R,
    Truncation.np_min [1 / 2; - 5 / 4; 2]%R = Ok lo /\
    Truncation.np_max [1 / 2; - 5 / 4; 2]%R = Ok hi /\
    (forall r, In r [1 / 2; - 5 / 4; 2]%R -> ltb r lo = false /\ ltb hi r = false).
Proof.
  destruct (histogram_range_covers_the_residuals
              {| ErrorAnalysis.res_x := [5; 7]%R;
                 ErrorAnalysis.res_cost := 8%R;
                 ErrorAnalysis.res_fun := [1 / 2; - 5 / 4; 2]%R;
                 ErrorAnalysis.res_jac := [];
                 ErrorAnalysis.res_success := true |})
    as (lo & hi & Hlo & Hhi & _ & _ & Hall & _).
  - discriminate.
  - apply ResultCellFacts.R_all_numbers.
  - exists lo, hi. split; [exact Hlo|]. split; [exact Hhi|exact Hall].
Defined.

(** X16: the cells that print a table fix the number of parameters.  The
    two Markdown tables have two and four slots, so their cells complete
    only for a result with two parameters, and the first stops with
    [TypeError] otherwise; the table of the global fit has eight rows and
    its cell completes only for eight parameters. *)
Theorem table_cells_fix_the_parameter_count
  {T : Type} `{NumOps T}
  (svd : ErrorAnalysis.svd_fn T) (h : Notebook.handler T)
  (res : ErrorAnalysis.OptimizeResult T) :
  (length (ErrorAnalysis.res_x res) <> 2 ->
   Notebook.run h (Notebook.table_cell res) = ([], Err TypeError)) /\
  (forall tr, Notebook.run h (Notebook.errors_cell svd res) = (tr, Ok tt) ->
     length (ErrorAnalysis.res_x res) = 2) /\
  (forall tr, Notebook.run h (Notebook.results_cell svd res) = (tr, Ok tt) ->
     length (ErrorAnalysis.res_x res) = 8).
Proof.
  split; [|split].
  - intros Hne. apply ResultCellFacts.run_markdown_table. exact Hne.
  - intros tr. unfold Notebook.errors_cell.
    rewrite NotebookFacts.run_pbind, NotebookFacts.run_lift.
    destruct (ErrorAnalysis.error_analysis svd res) as [first|e]; [|discriminate].
    rewrite NotebookFacts.run_pbind, NotebookFacts.run_lift.
    destruct (Notebook.interleave (ErrorAnalysis.res_x res) (fst first))
      as [p|e] eqn:Hp; [|discriminate].
    rewrite NotebookFacts.run_pbind, NotebookFacts.run_lift.
    rewrite NotebookFacts.run_pbind, NotebookFacts.run_perform.
    destruct (h _ _) as [[]|e]; [|discriminate].
    pose proof (ResultCellFacts.interleave_length _ _ _ Hp) as Lp.
    destruct (Nat.eq_dec (length p) 4) as [E|Hne].
    + intros _. lia.
    + rewrite (ResultCellFacts.run_markdown_table h 4 p Hne). discriminate.
  - intros tr. unfold Notebook.results_cell.
    rewrite NotebookFacts.run_pbind, NotebookFacts.run_lift.
    destruct (ErrorAnalysis.error_analysis svd res) as [e|e]; [|discriminate].
    destruct (Nat.eqb_spec (length (ErrorAnalysis.res_x res)) 8) as [E|_];
      [intros _; exact E|].
    cbn [andb]. discriminate.
Qed.

(** ** A bin without counts, on binary64 *)

Module ZeroCountFacts.

Lemma zero_class (y : float) :
  PrimFloat.eqb y 0 = true -> exists s, Prim2SF y = S754_zero s.
Proof.
  rewrite FloatAxioms.eqb_spec.
  change (Prim2SF 0) with (S754_zero false).
  destruct (Prim2SF y) as [s| [] | |[] m e]; try discriminate.
  intros _. exists s. reflexivity.
Qed.

(** A value whose class is NaN or an infinity is not finite. *)
Lemma not_finite_class (z : float) :
  Prim2SF z = S754_nan \/ (exists s, Prim2SF z = S754_infinity s) ->
  PrimFloat.is_finite z = false.
Proof.
  unfold PrimFloat.is_finite, PrimFloat.is_nan, PrimFloat.is_infinity.
  rewrite !FloatAxioms.eqb_spec, FloatAxioms.abs_spec.
  change (Prim2SF infinity) with (S754_infinity false).
  intros [-> | [s ->]]; [reflexivity|].
  destruct s; reflexivity.
Qed.

(** Whatever is divided by the square root of a zero is not finite. *)
Lemma div_sqrt_zero (x y : float) :
  PrimFloat.eqb y 0 = true -> PrimFloat.is_finite (x / PrimFloat.sqrt y) = false.
Proof.
  intros Hy. destruct (zero_class y Hy) as [s Hs].
  apply not_finite_class.
  rewrite FloatAxioms.div_spec, FloatAxioms.sqrt_spec, Hs.
  unfold SF64div, SF64sqrt. cbn [SFsqrt SFdiv].
  destruct (Prim2SF x) as [sx|sx| |sx m e]; cbn [SFdiv].
  - left. reflexivity.
  - right. eexists. reflexivity.
  - left. reflexivity.
  - right. eexists. reflexivity.
Qed.
End ZeroCountFacts.

(** X17: a row without counts has no finite weighted residual.  The stored
    error is [sqrt(F)], so for [F = 0] the quotient [(F - f) / errF] is a
    division by zero: on binary64 it is an infinity or NaN for every model
    value [f], in the single-curve residuals and in those of the global
    fit alike. *)
Theorem zero_count_residual_is_not_finite
  (conc t0 : float) (r : float * float) :
  PrimFloat.eqb (snd r) 0 = true ->
  let row := Notebook.frame_of conc t0 r in
  (forall f : float,
     PrimFloat.is_finite (div (sub (Notebook.row_F row) f) (Notebook.row_errF row))
       = false) /\
  (forall (E : Transcendental float) (p0 p1 : float),
     Forall (fun v => PrimFloat.is_finite v = false)
       (SingleFit.weighted_pointwise p0 p1
          [Notebook.row_t row] [Notebook.row_F row] [Notebook.row_errF row])) /\
  (forall (E : Transcendental float) (param : float * float * float * float),
     Forall (fun v => PrimFloat.is_finite v = false)
       (GlobalFit.pointwise_residuals param
          [Notebook.row_t row] [Notebook.row_F row] [Notebook.row_errF row])).
Proof.
  intros Hzero row.
  assert (Hdiv : forall x : float,
            PrimFloat.is_finite (div x (Notebook.row_errF row)) = false).
  { intros x. exact (ZeroCountFacts.div_sqrt_zero x (snd r) Hzero). }
  split; [|split].
  - intros f. apply Hdiv.
  - intros E p0 p1. cbn [SingleFit.weighted_pointwise].
    constructor; [apply Hdiv|constructor].
  - intros E param. cbn [GlobalFit.pointwise_residuals].
    constructor; [apply Hdiv|constructor].
Qed.

(** The theorem on binary64 data: a row with no count at 1.5 ns against a
    model value of 2: the residual is minus infinity. *)
Lemma zero_count_residual_is_not_finite_witness :
  div (sub 0%float 2%float) (np_sqrt 0%float) = neg_infinity /\
  PrimFloat.is_finite (div (sub 0%float 2%float) (np_sqrt 0%float)) = false.
Proof.
  destruct (zero_count_residual_is_not_finite 0.5%float 0.1%float (1.5, 0)%float)
    as [Hf _].
  - reflexivity.
  - split; [vm_compute; reflexivity|exact (Hf 2%float)].
Defined.

(** ** The key that [encrypt] and [decrypt] derive from a password *)

Module KeygenFacts.
Import Keygen.
Local Open Scope Z_scope.

Lemma utf8_char_shape (c : Z) (b : bytes) :
  utf8_char c = Ok b ->
  (1 <= length b)%nat /\ (length b = 1%nat <-> c < 128) /\ Forall is_byte b.
Proof.
  assert (Hok : forall l : bytes, Ok l = Ok b -> b = l) by (intros l E; congruence).
  unfold utf8_char, is_byte.
  destruct (Z.ltb_spec c 0); [discriminate|].
  destruct (Z.ltb_spec c 128).
  { intros E. rewrite (Hok _ E). cbn [length].
    split; [lia|]. split; [split; lia|].
    apply Forall_cons; [lia|apply Forall_nil]. }
  destruct (Z.ltb_spec c 2048).
  { intros E. rewrite (Hok _ E). cbn [length].
    split; [lia|]. split; [split; lia|].
    repeat (apply Forall_cons; [Z.div_mod_to_equations; lia|]). apply Forall_nil. }
  destruct ((55296 <=? c) && (c <? 57344))%bool; [discriminate|].
  destruct (Z.ltb_spec c 65536).
  { intros E. rewrite (Hok _ E). cbn [length].
    split; [lia|]. split; [split; lia|].
    repeat (apply Forall_cons; [Z.div_mod_to_equations; lia|]). apply Forall_nil. }
  destruct (Z.ltb_spec c 1114112); [|discriminate].
  intros E. rewrite (Hok _ E). cbn [length].
  split; [lia|]. split; [split; lia|].
  repeat (apply Forall_cons; [Z.div_mod_to_equations; lia|]). apply Forall_nil.
Qed.

(** The encoding has a byte or more per character, and exactly one per
    character for ASCII text only. *)
Lemma encode_shape :
  forall (x : str) (b : bytes),
    encode x = Ok b ->
    (length x <= length b)%nat /\
    (length b = length x <-> Forall (fun c => c < 128) x) /\
    Forall is_byte b.
Proof.
  unfold encode.
  induction x as [|c x IH]; intros b; cbn [mapM].
  - intros E. injection E as <-. cbn. repeat split; auto.
  - destruct (utf8_char c) as [bc|e] eqn:Hc; [|discriminate]. cbn [bind].
    destruct (mapM utf8_char x) as [bs|e]; [|discriminate]. cbn [bind concat].
    intros E. injection E as <-.
    destruct (utf8_char_shape c bc Hc) as (L1 & Hone & Hb).
    destruct (IH (concat bs) eq_refl) as (L & Hall & Hbs).
    rewrite length_app. cbn [length]. split; [lia|]. split.
    + split.
      * intros E. constructor; [apply Hone; lia|apply Hall; lia].
      * intros HF. inversion HF as [|c' x' Hc' HF']; subst.
        apply Hone in Hc'. apply Hall in HF'. lia.
    + apply Forall_app. split; assumption.
Qed.

Lemma mapM_app {A B} (f : A -> result B) (x y : list A) :
  mapM f (x ++ y) = (a <- mapM f x ;; b <- mapM f y ;; Ok (a ++ b)).
Proof.
  induction x as [|c x IH]; cbn [app mapM bind].
  - destruct (mapM f y); reflexivity.
  - destruct (f c) as [bc|e]; [|reflexivity]. cbn [bind]. rewrite IH.
    destruct (mapM f x) as [bx|e]; [|reflexivity]. cbn [bind].
    destruct (mapM f y) as [by_|e]; reflexivity.
Qed.

Lemma encode_app (x y : str) :
  encode (x ++ y) = (a <- encode x ;; b <- encode y ;; Ok (a ++ b)).
Proof.
  unfold encode. rewrite mapM_app.
  destruct (mapM utf8_char x) as [bx|e]; [|reflexivity]. cbn [bind].
  destruct (mapM utf8_char y) as [by_|e]; [|reflexivity]. cbn [bind].
  rewrite concat_app. reflexivity.
Qed.

Lemma encode_spaces (n : nat) : encode (repeat 32 n) = Ok (repeat 32 n).
Proof.
  unfold encode. induction n as [|n IH]; [reflexivity|].
  cbn [repeat mapM]. change (utf8_char 32) with (Ok (A := bytes) [32]). cbn [bind].
  destruct (mapM utf8_char (repeat 32 n)) as [bs|e]; [|discriminate IH].
  cbn [bind concat] in *. injection IH as ->. reflexivity.
Qed.

Lemma alphabet_inj (i j : Z) :
  0 <= i < 64 -> 0 <= j < 64 -> alphabet i = alphabet j -> i = j.
Proof.
  unfold alphabet. intros Hi Hj.
  destruct (Z.ltb_spec i 26), (Z.ltb_spec j 26); try lia;
    destruct (Z.ltb_spec i 52), (Z.ltb_spec j 52); try lia;
    destruct (Z.ltb_spec i 62), (Z.ltb_spec j 62); try lia;
    destruct (Z.eqb_spec i 62), (Z.eqb_spec j 62); lia.
Qed.

Lemma alphabet_not_pad (i : Z) : 0 <= i -> alphabet i <> 61.
Proof.
  unfold alphabet. intros Hi.
  destruct (Z.ltb_spec i 26); [lia|].
  destruct (Z.ltb_spec i 52); [lia|].
  destruct (Z.ltb_spec i 62); [lia|].
  destruct (Z.eqb_spec i 62); lia.
Qed.

Lemma b64_length :
  forall (n : nat) (bs : bytes),
    (length bs <= n)%nat ->
    length (urlsafe_b64encode bs) = (4 * ((length bs + 2) / 3))%nat.
Proof.
  induction n as [|n IH]; intros bs L.
  - destruct bs; [reflexivity|cbn in L; lia].
  - destruct bs as [|a [|b [|c rest]]]; try reflexivity.
    cbn [urlsafe_b64encode length]. rewrite (IH rest) by (cbn [length] in L; lia).
    replace (S (S (S (length rest))) + 2)%nat with (length rest + 2 + 1 * 3)%nat by lia.
    rewrite Nat.div_add by lia. lia.
Qed.
End KeygenFacts.

Module KeyFacts.
Import Keygen.
Local Open Scope Z_scope.

(** What [padded] returns: the encoding followed by the spaces. *)
Lemma padded_shape (x : str) (kb : bytes) :
  padded x = Ok kb ->
  exists b, encode x = Ok b /\ kb = b ++ repeat 32 (32 - length x)%nat /\
            Forall is_byte kb.
Proof.
  unfold padded. destruct (encode x) as [b|e] eqn:Hb; [|discriminate].
  cbn [bind]. intros E. injection E as <-.
  exists b. split; [reflexivity|]. split; [reflexivity|].
  destruct (KeygenFacts.encode_shape x b Hb) as (_ & _ & Hbytes).
  apply Forall_app. split; [exact Hbytes|].
  apply Forall_forall. intros v Hv. apply repeat_spec in Hv. subst v.
  unfold is_byte. lia.
Qed.

Ltac sextet H :=
  apply KeygenFacts.alphabet_inj in H;
  [ | Z.div_mod_to_equations; lia | Z.div_mod_to_equations; lia ].

Ltac no_pad H :=
  exfalso;
  match type of H with
  | alphabet ?i = 61 =>
      apply (KeygenFacts.alphabet_not_pad i); [Z.div_mod_to_equations; lia|exact H]
  | 61 = alphabet ?i =>
      apply (KeygenFacts.alphabet_not_pad i);
      [Z.div_mod_to_equations; lia|symmetry; exact H]
  end.

(** The encoding loses nothing: two byte strings with the same encoding
    are the same. *)
Lemma b64_inj :
  forall (n : nat) (a b : bytes),
    (length a <= n)%nat -> Forall is_byte a -> Forall is_byte b ->
    urlsafe_b64encode a = urlsafe_b64encode b -> a = b.
Proof.
  unfold is_byte.
  induction n as [|n IH]; intros a b L Ha Hb E.
  - destruct a; [|cbn in L; lia].
    destruct b as [|b0 [|b1 [|b2 b']]]; [reflexivity|discriminate..].
  - destruct a as [|a0 [|a1 [|a2 a']]], b as [|b0 [|b1 [|b2 b']]];
      cbn [urlsafe_b64encode] in E; try discriminate E; try reflexivity;
      repeat match goal with
             | H : Forall _ (_ :: _) |- _ =>
                 let x := fresh "B" in
                 let y := fresh "F" in
                 inversion H as [|? ? x y]; subst; clear H
             end.
    + assert (E1 : alphabet (a0 / 4) = alphabet (b0 / 4)) by congruence.
      assert (E2 : alphabet (a0 mod 4 * 16) = alphabet (b0 mod 4 * 16)) by congruence.
      sextet E1. sextet E2. f_equal. Z.div_mod_to_equations. lia.
    + assert (E3 : 61 = alphabet (b1 mod 16 * 4)) by congruence. no_pad E3.
    + assert (E3 : 61 = alphabet (b1 mod 16 * 4 + b2 / 64)) by congruence. no_pad E3.
    + assert (E3 : alphabet (a1 mod 16 * 4) = 61) by congruence. no_pad E3.
    + assert (E1 : alphabet (a0 / 4) = alphabet (b0 / 4)) by congruence.
      assert (E2 : alphabet (a0 mod 4 * 16 + a1 / 16) =
                   alphabet (b0 mod 4 * 16 + b1 / 16)) by congruence.
      assert (E3 : alphabet (a1 mod 16 * 4) = alphabet (b1 mod 16 * 4)) by congruence.
      sextet E1. sextet E2. sextet E3.
      assert (a0 = b0) by (Z.div_mod_to_equations; lia).
      assert (a1 = b1) by (Z.div_mod_to_equations; lia).
      congruence.
    + assert (E4 : 61 = alphabet (b2 mod 64)) by congruence. no_pad E4.
    + assert (E3 : alphabet (a1 mod 16 * 4 + a2 / 64) = 61) by congruence. no_pad E3.
    + assert (E4 : alphabet (a2 mod 64) = 61) by congruence. no_pad E4.
    + assert (E1 : alphabet (a0 / 4) = alphabet (b0 / 4)) by congruence.
      assert (E2 : alphabet (a0 mod 4 * 16 + a1 / 16) =
                   alphabet (b0 mod 4 * 16 + b1 / 16)) by congruence.
      assert (E3 : alphabet (a1 mod 16 * 4 + a2 / 64) =
                   alphabet (b1 mod 16 * 4 + b2 / 64)) by congruence.
      assert (E4 : alphabet (a2 mod 64) = alphabet (b2 mod 64)) by congruence.
      assert (E5 : urlsafe_b64encode a' = urlsafe_b64encode b') by congruence.
      sextet E1. sextet E2. sextet E3. sextet E4.
      assert (a0 = b0) by (Z.div_mod_to_equations; lia).
      assert (a1 = b1) by (Z.div_mod_to_equations; lia).
      assert (a2 = b2) by (Z.div_mod_to_equations; lia).
      assert (a' = b').
      { apply IH; try assumption. cbn [length] in L. lia. }
      congruence.
Qed.
End KeyFacts.

(** X18: [keygen] pads by the number of characters, not of bytes.  The
    padded key is the UTF-8 encoding followed by [32 - len(x)] spaces, and
    it is never shorter than 32 bytes; it has exactly 32 bytes, the length
    a Fernet key must decode to, if and only if the password is ASCII and
    has at most 32 characters.  A longer password is not cut and one with a
    character beyond ASCII comes out too long.  The key handed to [Fernet]
    has 4 characters for every 3 bytes begun, 44 for 32 bytes. *)
Theorem padded_key_has_32_bytes_iff_ascii (x : Keygen.str) (kb : Keygen.bytes) :
  Keygen.padded x = Ok kb ->
  Forall Keygen.is_byte kb /\
  32 <= length kb /\
  (length kb = 32 <->
   length x <= 32 /\ Forall (fun c => (c < 128)%Z) x) /\
  exists k, Keygen.keygen x = Ok k /\
            length k = 4 * ((length kb + 2) / 3) /\
            (length kb = 32 -> length k = 44).
Proof.
  intros Hkb.
  destruct (KeyFacts.padded_shape x kb Hkb) as (b & Hb & -> & Hbytes).
  destruct (KeygenFacts.encode_shape x b Hb) as (L & Hascii & _).
  rewrite length_app, repeat_length.
  split; [exact Hbytes|]. split; [lia|]. split.
  - split.
    + intros E. assert (Lx : length x <= 32) by lia.
      split; [exact Lx|]. apply Hascii. lia.
    + intros [Lx HF]. apply Hascii in HF. lia.
  - exists (Keygen.urlsafe_b64encode (b ++ repeat 32%Z (32 - length x))).
    split; [unfold Keygen.keygen; rewrite Hkb; reflexivity|].
    rewrite (KeygenFacts.b64_length _ _ (Nat.le_refl _)).
    rewrite length_app, repeat_length.
    split; [reflexivity|]. intros ->. reflexivity.
Qed.

(** The theorem on the password [sesame]. *)
Lemma padded_key_has_32_bytes_iff_ascii_witness :
  exists kb k,
    Keygen.padded (Keygen.of_string "sesame") = Ok kb /\ length kb = 32 /\
    Keygen.keygen (Keygen.of_string "sesame") = Ok k /\ length k = 44.
Proof.
  destruct (padded_key_has_32_bytes_iff_ascii
              (Keygen.of_string "sesame")
              (Keygen.of_string "sesame                          "))
    as (_ & _ & Hiff & k & Hk & _ & H44).
  - reflexivity.
  - exists (Keygen.of_string "sesame                          "), k.
    split; [reflexivity|]. split; [reflexivity|]. split; [exact Hk|].
    apply H44. reflexivity.
Defined.

(** X19: spaces at the end of a password do not count.  As long as the
    password stays within 32 characters, appending spaces to it gives the
    same key, so [decrypt] opens with either what [encrypt] closed with the
    other. *)
Theorem keygen_ignores_trailing_spaces (x : Keygen.str) (n : nat) :
  length x + n <= 32 ->
  Keygen.keygen (x ++ repeat 32%Z n) = Keygen.keygen x.
Proof.
  intros L. unfold Keygen.keygen, Keygen.padded.
  rewrite KeygenFacts.encode_app, KeygenFacts.encode_spaces.
  destruct (Keygen.encode x) as [b|e]; [|reflexivity].
  cbn [bind]. rewrite length_app, repeat_length, <- app_assoc, <- repeat_app.
  replace (n + (32 - (length x + n))) with (32 - length x) by lia.
  reflexivity.
Qed.

(** The theorem on the password [sesame] and the same followed by two
    spaces. *)
Lemma keygen_ignores_trailing_spaces_witness :
  Keygen.keygen (Keygen.of_string "sesame  ") =
  Keygen.keygen (Keygen.of_string "sesame").
Proof.
  apply (keygen_ignores_trailing_spaces (Keygen.of_string "sesame") 2).
  simpl. lia.
Defined.

(** X20: apart from that, the key keeps the whole password.  Two passwords
    give the same key exactly when their padded byte strings are equal:
    the base64 encoding loses nothing. *)
Theorem keygen_separates_padded_keys
  (x y : Keygen.str) (kx ky : Keygen.bytes) :
  Keygen.padded x = Ok kx -> Keygen.padded y = Ok ky ->
  (Keygen.keygen x = Keygen.keygen y <-> kx = ky).
Proof.
  intros Hx Hy.
  destruct (KeyFacts.padded_shape x kx Hx) as (_ & _ & _ & Bx).
  destruct (KeyFacts.padded_shape y ky Hy) as (_ & _ & _ & By).
  unfold Keygen.keygen. rewrite Hx, Hy. cbn [bind]. split.
  - intros E. injection E as E.
    exact (KeyFacts.b64_inj (length kx) kx ky (Nat.le_refl _) Bx By E).
  - intros ->. reflexivity.
Qed.

(** The theorem on two passwords that differ in their last letter. *)
Lemma keygen_separates_padded_keys_witness :
  Keygen.keygen (Keygen.of_string "sesame") <>
  Keygen.keygen (Keygen.of_string "sesamf").
Proof.
  intros E.
  apply (keygen_separates_padded_keys
           (Keygen.of_string "sesame") (Keygen.of_string "sesamf")
           (Keygen.of_string "sesame                          ")
           (Keygen.of_string "sesamf                          ")) in E.
  - discriminate E.
  - reflexivity.
  - reflexivity.
Defined.

(** ** From the stored dataframe to the arguments of the fits *)

Module ArgumentFacts.
Import Notebook.

Lemma Forall2_of_nth {A B} (R : A -> B -> Prop) :
  forall (l : list A) (l' : list B),
    length l = length l' ->
    (forall i a b, nth_error l i = Some a -> nth_error l' i = Some b -> R a b) ->
    Forall2 R l l'.
Proof.
  induction l as [|a l IH]; intros [|b l'] L Hnth; cbn [length] in L;
    try discriminate; constructor.
  - exact (Hnth 0 a b eq_refl eq_refl).
  - apply IH; [lia|]. intros i x y Hx Hy. exact (Hnth (S i) x y Hx Hy).
Qed.

Lemma Forall2_mapM {A B} (f : A -> result B) :
  forall (l : list A) (bs : list B),
    Forall2 (fun a b => f a = Ok b) l bs -> mapM f l = Ok bs.
Proof.
  induction 1 as [|a b l bs Hab _ IH]; [reflexivity|].
  cbn [mapM]. rewrite Hab. cbn [bind]. rewrite IH. reflexivity.
Qed.

Section Facts.
Context {T : Type} `{NumOps T}.

(** One column of every block, in the order of the concentrations. *)
Lemma column_of_blocks (data : dataframe T) (col : frame_row T -> T)
      (cs : list T) (fs : list (dataframe T)) :
  Forall2 (fun c f => loc data c = Ok f) cs fs ->
  mapM (fun conc => block <- loc data conc ;; Ok (map col block)) cs =
  Ok (map (map col) fs).
Proof.
  intros HF. apply Forall2_mapM.
  induction HF as [|c f cs fs Hf _ IH]; cbn [map]; constructor; [|exact IH].
  rewrite Hf. reflexivity.
Qed.

(** The same of the objects: a scalar of a frame of one row, a column of a
    longer one. *)
Lemma item_of_blocks (data : dataframe T) (col : frame_row T -> T)
      (cs : list T) (fs : list (dataframe T)) :
  Forall2 (fun c f => loc data c = Ok f) cs fs ->
  mapM (fun conc => sel <- data_loc data conc ;; Ok (Selection.getitem col sel)) cs =
  Ok (map (fun f => match f with
                    | [r] => Selection.Scalar (col r)
                    | _ => Selection.Column (map col f)
                    end) fs).
Proof.
  intros HF. apply Forall2_mapM.
  induction HF as [|c f cs fs Hf _ IH]; cbn [map]; constructor; [|exact IH].
  rewrite (BlockFacts.data_loc_rows data c f Hf).
  destruct f as [|r [|r' f]]; reflexivity.
Qed.
End Facts.
End ArgumentFacts.

(** X21: the fits read back exactly what the saving cell stored.  When the
    five labels compare equal only to themselves, the argument lists of the
    global fit hold, at position [i] of each of the three lists, [t], [F]
    and [errF] of the frame built from the [i]-th file: the column when
    that frame has several rows, the scalar of its row when it has one.
    The arguments of the single fit are the same three items of the frame
    of the first file, the curve without quencher.  The lists that the
    residuals are computed on are these items in their one-dimensional
    form, the columns of the frames. *)
Theorem fit_arguments_are_the_stored_curves
  {T : Type} `{NumOps T}
  (h : Notebook.handler T) (tr : list (Notebook.event T))
  (data : Notebook.dataframe T) :
  (forall i j c c',
     nth_error Notebook.concs i = Some c -> nth_error Notebook.concs j = Some c' ->
     eqb c c' = Nat.eqb i j) ->
  Notebook.run h Notebook.build_cell = (tr, Ok data) ->
  let item_of (col : Notebook.frame_row T -> T) (f : Notebook.dataframe T) :=
    match f with
    | [r] => Selection.Scalar (col r)
    | _ => Selection.Column (map col f)
    end in
  exists fs : list (Notebook.dataframe T),
    Forall2 (fun c f => Notebook.load_frame h c = Ok f) Notebook.concs fs /\
    Selection.global_args_items data =
      Ok [map (item_of Notebook.row_t) fs; map (item_of Notebook.row_F) fs;
          map (item_of Notebook.row_errF) fs] /\
    Selection.single_args_items data =
      Ok [item_of Notebook.row_t (hd [] fs); item_of Notebook.row_F (hd [] fs);
          item_of Notebook.row_errF (hd [] fs)] /\
    Notebook.global_args data =
      Ok [map (fun f => Selection.values (item_of Notebook.row_t f)) fs;
          map (fun f => Selection.values (item_of Notebook.row_F f)) fs;
          map (fun f => Selection.values (item_of Notebook.row_errF f)) fs] /\
    Notebook.single_args data =
      Ok [Selection.values (item_of Notebook.row_t (hd [] fs));
          Selection.values (item_of Notebook.row_F (hd [] fs));
          Selection.values (item_of Notebook.row_errF (hd [] fs))].
Proof.
  intros Hdistinct Hrun item_of.
  destruct (BlockFacts.frames_of_run h tr data Hrun) as (fs & -> & HF & Hshape).
  exists fs. split; [exact HF|].
  assert (Hloc : Forall2 (fun c f => Notebook.loc (concat fs) c = Ok f)
                         Notebook.concs fs).
  { apply ArgumentFacts.Forall2_of_nth; [exact (Forall2_length HF)|].
    intros i c d Hi Hd.
    exact (BlockFacts.loc_concat_frames Notebook.concs fs i c d Hdistinct Hshape Hi Hd). }
  assert (Hvalues : forall (col : Notebook.frame_row T -> T) f,
             f <> [] -> Selection.values (item_of col f) = map col f).
  { intros col [|r [|r' f]] Hf; [congruence|reflexivity..]. }
  assert (Hsome : Forall (fun f => f <> []) fs).
  { clear - Hshape. induction Hshape as [|c f cs fs (t0 & r0 & rest & ->) _ IH];
      constructor; [discriminate|exact IH]. }
  assert (Hcols : forall col : Notebook.frame_row T -> T,
             map (fun f => Selection.values (item_of col f)) fs = map (map col) fs).
  { intros col. apply map_ext_in. intros f Hf. apply Hvalues.
    rewrite Forall_forall in Hsome. exact (Hsome f Hf). }
  split; [|split; [|split]].
  - unfold Selection.global_args_items, Notebook.columns. cbn [mapM].
    rewrite !(ArgumentFacts.item_of_blocks _ _ _ _ Hloc). reflexivity.
  - unfold Selection.single_args_items, Notebook.columns. cbn [mapM].
    unfold Notebook.concs in Hloc.
    inversion Hloc as [|c f cs fs' Hf Hrest]; subst.
    cbn [hd]. rewrite (BlockFacts.data_loc_rows _ _ _ Hf).
    destruct f as [|r [|r' f]]; reflexivity.
  - unfold Notebook.global_args, Notebook.columns. cbn [mapM].
    rewrite !(ArgumentFacts.column_of_blocks _ _ _ _ Hloc), !Hcols. reflexivity.
  - unfold Notebook.single_args, Notebook.columns. cbn [mapM].
    unfold Notebook.concs in Hloc.
    inversion Hloc as [|c f cs fs' Hf Hrest]; subst.
    inversion Hsome as [|f' fs'' Hne _]; subst.
    cbn [hd]. rewrite Hf, !(Hvalues _ f Hne). reflexivity.
Qed.

(** The theorem on binary64 data: every file holds [rising_example], whose
    frame is its last row, so that the single fit is handed three
    scalars. *)
Lemma fit_arguments_are_the_stored_curves_witness :
  let data := map (fun c => Notebook.frame_of c 0.2%float (0.2, 3)%float)
                  Notebook.concs in
  snd (Notebook.run (Scenario.env_of Scenario.rising_example) Notebook.build_cell) =
    Ok data /\
  exists t F errF,
    Selection.single_args_items data =
      Ok [Selection.Scalar t; Selection.Scalar F; Selection.Scalar errF] /\
    Notebook.single_args data = Ok [[t]; [F]; [errF]].
Proof.
  intros data. split; [vm_compute; reflexivity|].
  destruct (fit_arguments_are_the_stored_curves
              (Scenario.env_of Scenario.rising_example)
              (fst (Notebook.run (Scenario.env_of Scenario.rising_example)
                                 Notebook.build_cell))
              data)
    as (fs & HF & _ & Hitems & _ & Hsingle).
  - intros [|[|[|[|[|i]]]]] [|[|[|[|[|j]]]]] c c' Hi Hj;
      cbn [nth_error Notebook.concs] in Hi, Hj;
      try discriminate Hi; try discriminate Hj;
      try (destruct i; discriminate Hi); try (destruct j; discriminate Hj);
      injection Hi as <-; injection Hj as <-; vm_compute; reflexivity.
  - vm_compute. reflexivity.
  - unfold Notebook.concs in HF.
    inversion HF as [|c f cs fs' Hf Hrest]; subst.
    assert (Ef : f = [Notebook.frame_of (lit 0 10) 0.2%float (0.2, 3)%float]).
    { assert (E : Ok f = Ok [Notebook.frame_of (lit 0 10) 0.2%float (0.2, 3)%float])
        by (rewrite <- Hf; vm_compute; reflexivity).
      injection E as ->. reflexivity. }
    rewrite Ef in Hitems, Hsingle. cbn [hd] in Hitems, Hsingle.
    eexists _, _, _. split; [exact Hitems|exact Hsingle].
Defined.

(** ** Dropping twice *)

Module PandasEdgeFacts.
Import Pandas.

(** The labels that a successful [drop] leaves. *)
Lemma dropped_labels (index_labels : list string) (column_labels : list Z)
      (df out : DataFrame) :
  dropped index_labels column_labels df = Ok out ->
  df_index out = filter (fun l => negb (mentions_row index_labels l)) (df_index df) /\
  df_columns out =
    filter (fun c => negb (mentions_column column_labels c)) (df_columns df).
Proof.
  unfold dropped, drop_rows. intros Hout.
  destruct (forallb _ index_labels); [|discriminate Hout].
  cbn [bind] in Hout. unfold drop_columns in Hout.
  cbn [df_columns df_index df_values] in Hout.
  destruct (forallb _ column_labels); [|discriminate Hout].
  injection Hout as <-. cbn [df_columns df_index].
  rewrite !PandasFacts.select_filter. split; reflexivity.
Qed.

(** A listed row label is not among the labels that are left. *)
Lemma row_label_gone (labels idx : list string) (l0 : string) :
  In l0 labels ->
  existsb (String.eqb l0)
          (filter (fun l => negb (mentions_row labels l)) idx) = false.
Proof.
  intros Hin. destruct (existsb _ _) eqn:E; [|reflexivity].
  apply existsb_exists in E. destruct E as (l & Hl & Heq).
  apply String.eqb_eq in Heq. subst l.
  apply filter_In in Hl. destruct Hl as [_ Hl].
  apply negb_true_iff in Hl. unfold mentions_row in Hl.
  assert (Hm : existsb (String.eqb l0) labels = true).
  { apply existsb_exists. exists l0. split; [exact Hin|apply String.eqb_refl]. }
  congruence.
Qed.

Lemma column_label_gone (labels cols : list Z) (c0 : Z) :
  In c0 labels ->
  existsb (Z.eqb c0)
          (filter (fun c => negb (mentions_column labels c)) cols) = false.
Proof.
  intros Hin. destruct (existsb _ _) eqn:E; [|reflexivity].
  apply existsb_exists in E. destruct E as (c & Hc & Heq).
  apply Z.eqb_eq in Heq. subst c.
  apply filter_In in Hc. destruct Hc as [_ Hc].
  apply negb_true_iff in Hc. unfold mentions_column in Hc.
  assert (Hm : existsb (Z.eqb c0) labels = true).
  { apply existsb_exists. exists c0. split; [exact Hin|apply Z.eqb_refl]. }
  congruence.
Qed.

(** What has been dropped cannot be dropped again. *)
Lemma dropped_twice (index_labels : list string) (column_labels : list Z)
      (df out : DataFrame) :
  dropped index_labels column_labels df = Ok out ->
  index_labels <> [] \/ column_labels <> [] ->
  dropped index_labels column_labels out = Err KeyError.
Proof.
  intros Hout Hsome.
  destruct (dropped_labels _ _ _ _ Hout) as [Hidx Hcols].
  unfold dropped, drop_rows. rewrite Hidx.
  destruct index_labels as [|l0 ls].
  - cbn [forallb bind]. unfold drop_columns. cbn [df_columns]. rewrite Hcols.
    destruct column_labels as [|c0 cs]; [destruct Hsome; congruence|].
    cbn [forallb]. rewrite column_label_gone by (left; reflexivity). reflexivity.
  - cbn [forallb]. rewrite row_label_gone by (left; reflexivity). reflexivity.
Qed.
End PandasEdgeFacts.

(** X22: the cell that drops in place cannot be run twice.  After
    [drop(..., inplace=True)] has removed the listed rows and columns from
    the object, the same call on it, in place or not, raises [KeyError]:
    the labels are no longer there. *)
Theorem inplace_drop_cannot_be_repeated
  (hp : Pandas.heap) (self : nat) (df out : Pandas.DataFrame)
  (index_labels : list string) (column_labels : list Z) :
  nth_error hp self = Some df ->
  Pandas.dropped index_labels column_labels df = Ok out ->
  index_labels <> [] \/ column_labels <> [] ->
  Pandas.drop hp self index_labels column_labels true =
    Ok (Pandas.update hp self out, None) /\
  (forall inplace,
     Pandas.drop (Pandas.update hp self out) self index_labels column_labels inplace =
     Err KeyError).
Proof.
  intros Hself Hout Hsome.
  assert (Lself : self < length hp) by (apply nth_error_Some; congruence).
  split.
  - unfold Pandas.drop. rewrite (index_nth_error _ _ _ Hself). cbn [bind].
    rewrite Hout. reflexivity.
  - intros inplace. unfold Pandas.drop.
    rewrite (index_nth_error _ _ _ (PandasFacts.nth_error_update_same hp self out Lself)).
    cbn [bind].
    rewrite (PandasEdgeFacts.dropped_twice _ _ _ _ Hout Hsome). reflexivity.
Qed.

(** The theorem on the lecture's table: the cell that drops Germany and
    the years 2014 and 2016 in place, run a second time. *)
Lemma inplace_drop_cannot_be_repeated_witness :
  let out :=
    {| Pandas.df_index :=
         ["Estonia"; "Italy"; "Luxembourg"; "Netherlands"; "Sweden"]%string;
       Pandas.df_columns := [2006; 2020]%Z;
       Pandas.df_values :=
         [[Pandas.Num 13.8; Pandas.NoneCell]; [Pandas.Num 10.0; Pandas.NoneCell];
          [Pandas.Num 29.7; Pandas.NoneCell]; [Pandas.Num 13.5; Pandas.NoneCell];
          [Pandas.Num 7.6; Pandas.NoneCell]]%float |} in
  Pandas.drop [Pandas.emissions] 0 ["Germany"%string] [2014; 2016]%Z true =
    Ok ([out], None) /\
  Pandas.drop [out] 0 ["Germany"%string] [2014; 2016]%Z true = Err KeyError.
Proof.
  intros out.
  destruct (inplace_drop_cannot_be_repeated
              [Pandas.emissions] 0 Pandas.emissions out
              ["Germany"%string] [2014; 2016]%Z) as [Hfirst Hagain].
  - reflexivity.
  - reflexivity.
  - left. discriminate.
  - split; [exact Hfirst|exact (Hagain true)].
Defined.
